(** * Web ScrapBook indexer: the reconciliation engine of [src/indexer/load.js]

    A shallow embedding of the parts of [indexer.import] and its helpers
    that rebuild metadata, table of contents, favicon cache and output
    delta, together with the properties proved about them.

    Conventions of the embedding.
    - A JavaScript string is held as the bytes of its UTF-8 encoding, in a
      [string]; [undefined] is [None].  A value is "truthy" when it is a
      non-empty string, or any object.  The characters U+2028 and U+2029,
      which a regular expression takes for line terminators, are met as
      their three bytes ([line_break_at]); the order of [<] on strings,
      which goes by UTF-16 code units, is [js_compare].  A length or a
      position counts bytes where the script counts code units: it serves
      to cut a prefix off a text that starts with it, where both cut at
      the same place.
    - A JavaScript object used as a map and enumerated with [for .. in]
      or serialised is an insertion-ordered association list ([JsObj]):
      assigning an existing key updates in place, assigning a new key
      appends, [delete] removes.  The list holds the own keys, and
      [obj_get] and [obj_has] read own keys only: a read [o[k]] of the
      script also finds what [o] inherits from [Object.prototype], so the
      two agree for a key that is none of [inherited_names]; [plain_run]
      and the hypotheses of its kind say that of the keys of an input.
      Keys are taken not to be array indices
      (which an engine enumerates first; the seventeen-digit identifiers
      of items are not).  A [for .. in] loop visits the keys the object has
      when the loop starts, skipping those deleted before their turn.
    - A [Map] or [Set] that is only queried is a list whose head is the most
      recent write.
    - The promise chain of [indexer.import] is run in program order: every
      step touches the shared accumulators from one micro-task at a time. *)

From Stdlib Require Import List String Ascii Bool Arith NArith Lia.
From Stdlib Require Import DecimalString DecimalN.
Import ListNotations.
Local Open Scope list_scope.
Local Open Scope string_scope.

Set Implicit Arguments.

(** ** Strings, the way the script uses them *)

(** [s.startsWith(p)]. *)
Definition startsWith (s p : string) : bool := String.prefix p s.

(** [s.indexOf(c) !== -1] for a one-character needle. *)
Fixpoint contains_char (c : ascii) (s : string) : bool :=
  match s with
  | EmptyString => false
  | String a s' => if Ascii.eqb a c then true else contains_char c s'
  end.

(** [s.slice(n)]. *)
Fixpoint slice_from (n : nat) (s : string) : string :=
  match n, s with
  | 0, _ => s
  | S _, EmptyString => EmptyString
  | S n', String _ s' => slice_from n' s'
  end.

(** [s.split(c)] for a one-character separator: never the empty list. *)
Fixpoint split_on (c : ascii) (s : string) : list string :=
  match s with
  | EmptyString => [EmptyString]
  | String a s' =>
      if Ascii.eqb a c then EmptyString :: split_on c s'
      else match split_on c s' with
           | [] => [String a EmptyString]
           | w :: ws => String a w :: ws
           end
  end.

(** [l.join(sep)]. *)
Definition join (sep : string) (l : list string) : string := String.concat sep l.

Definition TAB : ascii := "009"%char.
Definition LF : ascii := "010"%char.
Definition VT : ascii := "011"%char.
Definition FF : ascii := "012"%char.
Definition CR : ascii := "013"%char.

(** The class [[\t\n\r\v\f]]. *)
Definition is_path_sep (a : ascii) : bool :=
  Ascii.eqb a TAB || Ascii.eqb a LF || Ascii.eqb a CR || Ascii.eqb a VT || Ascii.eqb a FF.

(** [s.replace(/^[\t\n\r\v\f]+/, "")]: helper of the split below. *)
Fixpoint skip_path_seps (s : string) : string :=
  match s with
  | String a s' => if is_path_sep a then skip_path_seps s' else s
  | EmptyString => EmptyString
  end.

(** [s.split(/[\t\n\r\v\f]+/)]: a maximal run of separators is one cut; a
    leading or trailing run leaves an empty first or last piece. *)
Fixpoint split_path_aux (fuel : nat) (s : string) : list string :=
  match fuel with
  | 0 => [EmptyString]
  | S fuel' =>
      match s with
      | EmptyString => [EmptyString]
      | String a s' =>
          if is_path_sep a then EmptyString :: split_path_aux fuel' (skip_path_seps s')
          else match split_path_aux fuel' s' with
               | [] => [String a EmptyString]
               | w :: ws => String a w :: ws
               end
      end
  end.

Definition split_path (s : string) : list string :=
  split_path_aux (S (String.length s)) s.

(** What [.] does not match, at the head of [s]: LF, CR, U+2028 or
    U+2029. *)
Definition LS : string := String "226" (String "128" (String "168" "")).
Definition PS : string := String "226" (String "128" (String "169" "")).

Definition line_break_at (s : string) : bool :=
  startsWith s (String LF "") || startsWith s (String CR "")
  || startsWith s LS || startsWith s PS.

(** No line terminator anywhere in [s]: what [.*] and [.+] can run over. *)
Fixpoint no_line_break (s : string) : bool :=
  match s with
  | EmptyString => true
  | String a s' => negb (line_break_at (String a s')) && no_line_break s'
  end.

(** The rank of a byte in the order of UTF-16 code units: the characters
    from U+E000 to U+FFFF, whose encoding starts with 238 or 239, come
    after those outside the Basic Multilingual Plane, whose encoding starts
    with 240 to 244 and which UTF-16 writes with surrogates.  (254 and 255,
    which no text holds, take the places left.) *)
Definition unit_rank (a : ascii) : ascii :=
  let n := nat_of_ascii a in
  if Nat.eqb n 238 || Nat.eqb n 239 then ascii_of_nat (n + 16)
  else if Nat.eqb n 254 || Nat.eqb n 255 then ascii_of_nat (n - 16)
  else a.

Fixpoint unit_ranks (s : string) : string :=
  match s with
  | EmptyString => EmptyString
  | String a s' => String (unit_rank a) (unit_ranks s')
  end.

(** How [a] stands to [b] for [a < b] and [a > b] on strings. *)
Definition js_compare (a b : string) : comparison :=
  String.compare (unit_ranks a) (unit_ranks b).

(** JavaScript truthiness of a string-or-undefined value. *)
Definition truthy (v : option string) : bool :=
  match v with
  | Some s => negb (String.eqb s "")
  | None => false
  end.

(** [a || b] on string-or-undefined values. *)
Definition js_or (a b : option string) : option string :=
  if truthy a then a else b.

(** ** JavaScript objects as insertion-ordered maps *)

Section JsObject.
Variable V : Type.

Definition JsObj := list (string * V).

Fixpoint obj_get (k : string) (o : JsObj) : option V :=
  match o with
  | [] => None
  | (k', v) :: o' => if String.eqb k' k then Some v else obj_get k o'
  end.

Definition obj_has (k : string) (o : JsObj) : bool :=
  match obj_get k o with Some _ => true | None => false end.

(** [o[k] = v]. *)
Fixpoint obj_set (k : string) (v : V) (o : JsObj) : JsObj :=
  match o with
  | [] => [(k, v)]
  | (k', v') :: o' =>
      if String.eqb k' k then (k, v) :: o' else (k', v') :: obj_set k v o'
  end.

(** [delete o[k]]. *)
Fixpoint obj_del (k : string) (o : JsObj) : JsObj :=
  match o with
  | [] => []
  | (k', v') :: o' =>
      if String.eqb k' k then obj_del k o' else (k', v') :: obj_del k o'
  end.

(** The keys a [for .. in] loop or [Object.keys] enumerates, each once. *)
Definition obj_keys (o : JsObj) : list string := nodup string_dec (map fst o).

(** [Object.assign(o, src)]. *)
Definition obj_assign (o src : JsObj) : JsObj :=
  fold_left (fun acc kv => obj_set (fst kv) (snd kv) acc) src o.

End JsObject.

(** The names every plain object inherits from [Object.prototype]. *)
Definition inherited_names : list string :=
  ["constructor"; "__defineGetter__"; "__defineSetter__"; "hasOwnProperty";
   "__lookupGetter__"; "__lookupSetter__"; "isPrototypeOf"; "propertyIsEnumerable";
   "toString"; "valueOf"; "__proto__"; "toLocaleString"].

Definition inherited (k : string) : bool := existsb (String.eqb k) inherited_names.

(** Every own key of [o] is read by the script as the model reads it. *)
Definition plain_keys {V : Type} (o : JsObj V) : Prop :=
  forall k, obj_has k o = true -> inherited k = false.

(** ** Files *)

(** A [File] or [Blob]: name, media type, bytes. *)
Record File := mkFile {
  f_name : string;
  f_type : string;
  f_bytes : string
}.

Definition f_size (f : File) : nat := String.length (f_bytes f).

(** ** [indexer.getIndexPath] *)

Definition getIndexPath (itemFiles : JsObj File) (id : string) : option string :=
  let index := id ++ "/index.html" in
  if obj_has index itemFiles then Some index else
  let index := id ++ ".html" in
  if obj_has index itemFiles then Some index else
  let index := id ++ ".htm" in
  if obj_has index itemFiles then Some index else
  let index := id ++ ".xhtml" in
  if obj_has index itemFiles then Some index else
  let index := id ++ ".xht" in
  if obj_has index itemFiles then Some index else
  let index := id ++ ".maff" in
  if obj_has index itemFiles then Some index else
  let index := id ++ ".htz" in
  if obj_has index itemFiles then Some index else
  let index := id ++ ".mht" in
  if obj_has index itemFiles then Some index else
  let index := id ++ ".epub" in
  if obj_has index itemFiles then Some index else
  None.

(** The probing order as the specification lists it. *)
Definition index_candidates (id : string) : list string :=
  map (fun suffix => id ++ suffix)
      ["/index.html"; ".html"; ".htm"; ".xhtml"; ".xht"; ".maff"; ".htz"; ".mht"; ".epub"].

(** ** [indexer.parseIndexDat] *)

(** A parsed [index.dat]: a plain object whose values are strings or
    [undefined]. *)
Definition DatMeta := JsObj (option string).

(** [indexer.getDefaultMeta], as the object [parseIndexDat] starts from. *)
Definition getDefaultMeta_obj : DatMeta :=
  [("index", None); ("title", None); ("type", None); ("create", None);
   ("modify", None); ("source", None); ("icon", None); ("comment", None)].

(** One turn of the loop over the lines.  [meta[key] = value] with the
    key "__proto__" runs the setter the object inherits, which passes over
    a string, and binds nothing. *)
Definition parseIndexDat_line (meta : DatMeta) (d : string) : DatMeta :=
  match split_on TAB d with
  | key :: ((_ :: _) as values) =>
      if String.eqb key "__proto__" then meta
      else obj_set key (Some (join (String TAB "") values)) meta
  | _ => meta
  end.

Definition parseIndexDat (text : string) : option DatMeta :=
  let data := split_on LF text in
  if Nat.ltb (List.length data) 2 then None
  else Some (fold_left parseIndexDat_line data getDefaultMeta_obj).

(** A line reads [key], a tab, then a value. *)
Definition binds (key line : string) : bool :=
  startsWith line (key ++ String TAB "") && negb (contains_char TAB key).

(** The text of [line] after [key] and the tab. *)
Definition bound_value (key line : string) : string :=
  slice_from (S (String.length key)) line.

(** The sentence of the specification read line by line: every line's
    first tab-separated field is a key of the mapping, bound to the
    remaining fields joined by tabs. *)
Definition every_line_is_bound (text : string) (meta : DatMeta) : Prop :=
  forall line, In line (split_on LF text) ->
    exists key values,
      split_on TAB line = key :: values /\
      exists value, obj_get key meta = Some (Some value).

(** ** Metadata entries and the collaborators of the engine *)

(** One value of [scrapbookData.meta].  [m_id], [m_folder] and [m_exported]
    are the transient fields; [charset], [locked] and [marked] are carried
    through untouched by every pass below and are left out. *)
Record Meta := mkMeta {
  m_id : option string;
  m_index : option string;
  m_title : option string;
  m_type : option string;
  m_create : option string;
  m_modify : option string;
  m_source : option string;
  m_icon : option string;
  m_comment : option string;
  m_folder : option string;
  m_exported : option string
}.

(** [indexer.getDefaultMeta]. *)
Definition getDefaultMeta : Meta :=
  mkMeta None None None None None None None None None None None.

(** What the identifier [index] on line 770 resolves to.  No enclosing
    scope of that line declares it: it is looked up as a global, and
    reading an undeclared global throws a [ReferenceError]. *)
Inductive FreeVar :=
| Unbound
| Bound (v : option string).

(** The answer of [scrapbook.xhr] for a favicon. *)
Record XhrResponse := mkXhr {
  x_responseURL : string;
  x_blob : File;
  x_filename : option string
}.

(** The library and platform calls the engine relies on ([scrapbook.*],
    [Mime], the clock, the global scope).  Times are milliseconds.  The
    network may answer the same URL differently each time: [xhr n url] is
    the answer to the request made after [n] earlier ones. *)
Class Host := {
  dateToId : N -> string;
  idToDate : string -> N;
  clock : nat -> N;
  outer_index : FreeVar;
  urlToFilename : string -> string;
  filenameParts : string -> string * option string;
  mime_extension : string -> option string;
  sha1 : string -> string;
  dataUriToFile : string -> option File;
  xhr : nat -> string -> option XhrResponse
}.

Definition Metas := JsObj Meta.
Definition Toc := JsObj (list string).
Definition ItemFiles := JsObj File.
(** [dataDirs]: a key may hold [undefined] after [dataDirs[a] = dataDirs[b]]. *)
Definition DataDirs := JsObj (option ItemFiles).

Definition dirs_lookup (id : string) (dataDirs : DataDirs) : option ItemFiles :=
  match obj_get id dataDirs with
  | Some v => v
  | None => None
  end.

Definition is_reserved (id : string) : bool :=
  String.eqb id "root" || String.eqb id "hidden".

(** [['folder', 'separator', 'bookmark'].includes(type)]. *)
Definition is_container (type : option string) : bool :=
  match type with
  | Some t => String.eqb t "folder" || String.eqb t "separator" || String.eqb t "bookmark"
  | None => false
  end.

(** [a === b] on string-or-undefined values. *)
Definition strict_eq (a b : option string) : bool :=
  match a, b with
  | Some x, Some y => String.eqb x y
  | None, None => true
  | _, _ => false
  end.

(** [v || ""]. *)
Definition or_empty (v : option string) : string :=
  match v with
  | Some s => s
  | None => ""
  end.

(** ** Results of code that can throw *)

Inductive error :=
| TypeError
| OutOfFuel.

Inductive result (A : Type) :=
| Ok (a : A)
| Fail (e : error).
Arguments Ok {A} a.
Arguments Fail {A} e.

Definition bind {A B : Type} (r : result A) (k : A -> result B) : result B :=
  match r with
  | Ok a => k a
  | Fail e => Fail e
  end.

Notation "x <- c ;; k" := (bind c (fun x => k))
  (at level 61, c at next level, right associativity).
Notation "' p <- c ;; k" := (bind c (fun x => let p := x in k))
  (at level 61, p pattern, c at next level, right associativity).

Section Engine.
Context {host : Host}.

(** ** "Process metadata": lines 756-832 *)

Record FixState := mkFix {
  fx_meta : Metas;
  fx_dirs : DataDirs;
  fx_tick : nat
}.

(** How one turn of the loop over [scrapbookData.meta] ends. *)
Inductive Turn :=
| Next (st : FixState)
| Return (st : FixState)
| Throw (st : FixState).

(** Lines 805-831: the fallbacks, on the entry [meta] stored under [id];
    reads the clock only when [modify] is empty. *)
Definition fix_fields (id : string) (meta : Meta) (tick : nat) : Meta * nat :=
  let type := or_empty (js_or (m_type meta) (Some "")) in
  let source := or_empty (js_or (m_source meta) (Some "")) in
  let title :=
    js_or (js_or (m_title meta)
                 (Some (if truthy (Some source) then urlToFilename source else "")))
          (Some (if negb (String.eqb type "separator") then id else "")) in
  let '(modify, tick') :=
    if truthy (m_modify meta) then (m_modify meta, tick)
    else (Some (dateToId (clock tick)), S tick) in
  let create := js_or (m_create meta) modify in
  let icon := js_or (m_icon meta) (Some "") in
  let comment := js_or (m_comment meta) (Some "") in
  (mkMeta (m_id meta) (m_index meta) title (Some type) create modify (Some source)
          icon comment (m_folder meta) (m_exported meta),
   tick').

(** Lines 785-803: drop an item without data files, re-probe a missing
    index.  [None] is the [continue] of line 791. *)
Definition fix_index (id : string) (meta : Meta) (dataDirs : DataDirs) : option Meta :=
  if negb (is_container (m_type meta)) then
    match dirs_lookup id dataDirs with
    | None => None
    | Some itemFiles =>
        if negb (truthy (m_index meta)) || negb (obj_has (or_empty (m_index meta)) itemFiles)
        then match getIndexPath itemFiles id with
             | Some index =>
                 Some (mkMeta (m_id meta) (Some index) (m_title meta) (m_type meta)
                              (m_create meta) (m_modify meta) (m_source meta) (m_icon meta)
                              (m_comment meta) (m_folder meta) (m_exported meta))
             | None => Some meta
             end
        else Some meta
    end
  else Some meta.

(** [dataDirs[newId] = dataDirs[id]; delete(dataDirs[id])]. *)
Definition repoint_dirs (id newId : string) (dataDirs : DataDirs) : DataDirs :=
  obj_del id (obj_set newId (dirs_lookup id dataDirs) dataDirs).

(** The rest of a turn once the identifier is settled, lines 785-831.
    [attached] tells whether [meta] is still the object stored under [id]:
    the bad-entry branch deletes the key and goes on with the detached
    object, whose updates are lost. *)
Definition finish_turn (meta : Meta) (id : string) (attached : bool) (st : FixState)
  : Turn :=
  match fix_index id meta (fx_dirs st) with
  | None => Next (mkFix (obj_del id (fx_meta st)) (fx_dirs st) (fx_tick st))
  | Some meta1 =>
      let '(meta2, tick') := fix_fields id meta1 (fx_tick st) in
      Next (mkFix (if attached then obj_set id meta2 (fx_meta st) else fx_meta st)
                  (fx_dirs st) tick')
  end.

(** Line 761: [newId && newId !== id]. *)
Definition declares_other_id (id : string) (meta : Meta) : bool :=
  truthy (m_id meta) && negb (strict_eq (m_id meta) (Some id)).

(** One turn of [for (let id in scrapbookData.meta)], lines 757-831. *)
Definition meta_turn (id : string) (st : FixState) : Turn :=
  match obj_get id (fx_meta st) with
  | None => Next st
  | Some meta =>
      let newId := m_id meta in
      if declares_other_id id meta then
        let newId := or_empty newId in
        match obj_get newId (fx_meta st) with
        | None =>
            finish_turn meta newId true
                        (mkFix (obj_del id (obj_set newId meta (fx_meta st)))
                               (repoint_dirs id newId (fx_dirs st)) (fx_tick st))
        | Some occupant =>
            match outer_index with
            | Unbound => Throw st
            | Bound index =>
                if strict_eq (m_index occupant) index
                then Return (mkFix (fx_meta st) (repoint_dirs id newId (fx_dirs st))
                                   (fx_tick st))
                else finish_turn meta id false
                                 (mkFix (obj_del id (fx_meta st)) (fx_dirs st) (fx_tick st))
            end
        end
      else finish_turn meta id true st
  end.

(** The loop: a [return] or an exception ends it at once. *)
Fixpoint meta_loop (ids : list string) (st : FixState) : Turn :=
  match ids with
  | [] => Next st
  | id :: ids' =>
      match meta_turn id st with
      | Next st' => meta_loop ids' st'
      | stop => stop
      end
  end.

Definition fix_metadata (st : FixState) : Turn :=
  meta_loop (obj_keys (fx_meta st)) st.

(** [after] is [before] with the fallbacks of the entry filed under [id]
    applied, [now] being the timestamp read for an empty [modify]. *)
Definition fallback_of (now id : string) (before after : Meta) : Prop :=
  m_type after = Some (or_empty (m_type before))
  /\ m_source after = Some (or_empty (m_source before))
  /\ m_comment after = Some (or_empty (m_comment before))
  /\ m_icon after = Some (or_empty (m_icon before))
  /\ m_title after
     = (if truthy (m_title before) then m_title before
        else if truthy (m_source before)
                && truthy (Some (urlToFilename (or_empty (m_source before))))
             then Some (urlToFilename (or_empty (m_source before)))
             else if String.eqb (or_empty (m_type before)) "separator"
                  then Some "" else Some id)
  /\ m_modify after = (if truthy (m_modify before) then m_modify before else Some now)
  /\ m_create after = (if truthy (m_create before) then m_create before else m_modify after).

(** The entry [after], filed under [id], is an entry of [metas0] (filed
    there under [id] or declaring [id] as its own) with the fallbacks
    applied. *)
Definition fallback_done (metas0 : Metas) (id : string) (after : Meta) : Prop :=
  exists id0 before tick,
    obj_get id0 metas0 = Some before
    /\ (id0 = id \/ m_id before = Some id)
    /\ fallback_of (dateToId (clock tick)) id before after.

(** The sentence of the specification on the fallbacks, read on a metadata
    map: in every entry the defaulted fields hold a value. *)
Definition fallbacks_applied (meta : Meta) : Prop :=
  m_type meta <> None /\ m_source meta <> None /\ m_comment meta <> None
  /\ m_icon meta <> None /\ m_title meta <> None
  /\ m_modify meta <> None /\ m_create meta <> None.

Definition every_entry_defaulted (metas : Metas) : Prop :=
  forall id meta, obj_get id metas = Some meta -> fallbacks_applied meta.

(** ** "Remove stale items from TOC": lines 834-864 *)

(** [referredIds] and [titleIdMap]; a title may be [undefined]. *)
Definition IdSet := list string.
Definition TitleMap := list (option string * string).

Definition set_has (id : string) (s : IdSet) : bool :=
  existsb (String.eqb id) s.

Fixpoint titleIdMap_get (title : option string) (m : TitleMap) : option string :=
  match m with
  | [] => None
  | (t, id) :: m' => if strict_eq t title then Some id else titleIdMap_get title m'
  end.

Record PruneState := mkPrune {
  pr_toc : Toc;
  pr_referred : IdSet;
  pr_titles : TitleMap
}.

(** The callback of [filter] on line 846, run over the children in order. *)
Fixpoint filter_refs (metas : Metas) (refs : list string) (referred : IdSet)
         (titles : TitleMap) : list string * IdSet * TitleMap :=
  match refs with
  | [] => ([], referred, titles)
  | refId :: refs' =>
      match obj_get refId metas with
      | None => filter_refs metas refs' referred titles
      | Some meta =>
          if is_reserved refId then filter_refs metas refs' referred titles
          else
            let '(kept, referred', titles') :=
              filter_refs metas refs' (refId :: referred) ((m_title meta, refId) :: titles) in
            (refId :: kept, referred', titles')
      end
  end.

(** One turn of [for (const id in scrapbookData.toc)]. *)
Definition prune_turn (metas : Metas) (st : PruneState) (id : string) : PruneState :=
  match obj_get id (pr_toc st) with
  | None => st
  | Some refs =>
      if negb (obj_has id metas) && negb (is_reserved id)
      then mkPrune (obj_del id (pr_toc st)) (pr_referred st) (pr_titles st)
      else
        let '(kept, referred, titles) :=
          filter_refs metas refs (pr_referred st) (pr_titles st) in
        let toc := obj_set id kept (pr_toc st) in
        if Nat.eqb (List.length kept) 0 && negb (is_reserved id)
        then mkPrune (obj_del id toc) referred titles
        else mkPrune toc referred titles
  end.

Definition prune_toc (metas : Metas) (toc : Toc) : PruneState :=
  fold_left (prune_turn metas) (obj_keys toc) (mkPrune toc [] []).

(** What the pruning leaves of the children [refs] and of the entry of the
    key [id]: the statement of the pass, key by key. *)
Definition pruned_refs (metas : Metas) (refs : list string) : list string :=
  filter (fun refId => obj_has refId metas && negb (is_reserved refId)) refs.

Definition pruned_entry (metas : Metas) (id : string) (entry : option (list string))
  : option (list string) :=
  match entry with
  | None => None
  | Some refs =>
      if negb (obj_has id metas) && negb (is_reserved id) then None
      else if Nat.eqb (List.length (pruned_refs metas refs)) 0 && negb (is_reserved id)
           then None
           else Some (pruned_refs metas refs)
  end.

(** ** [indexer.getUniqueId] and [indexer.generateFolder] *)

(** The [do .. while] of lines 1374-1378, at most [fuel] turns. *)
Fixpoint getUniqueId_loop (fuel : nat) (v : N) (metas : Metas) : result string :=
  match fuel with
  | 0 => Fail OutOfFuel
  | S fuel' =>
      let v := (v + 1)%N in
      let id := dateToId v in
      if obj_has id metas then getUniqueId_loop fuel' v metas else Ok id
  end.

Definition getUniqueId (id : string) (metas : Metas) : result string :=
  if negb (obj_has id metas) then Ok id
  else getUniqueId_loop (S (List.length metas)) (idToDate id) metas.

Definition generateFolder (title : string) (metas : Metas) (tick : nat)
  : result (string * Metas * nat) :=
  folderId <- getUniqueId (dateToId (clock tick)) metas ;;
  let meta := mkMeta None None (Some title) (Some "folder") (Some folderId)
                     None None None None None None in
  Ok (folderId, obj_set folderId meta metas, S tick).

(** ** "Add new items to TOC": lines 866-910 *)

Record TocState := mkTocSt {
  ts_toc : Toc;
  ts_meta : Metas;
  ts_titles : TitleMap;
  ts_tick : nat
}.

(** [if (!toc[id]) { toc[id] = []; }]. *)
Definition ensure_list (id : string) (toc : Toc) : Toc :=
  if obj_has id toc then toc else obj_set id [] toc.

(** [toc[parent].push(id)]; a missing [toc[parent]] is a [TypeError]. *)
Definition toc_push (parent id : string) (toc : Toc) : result Toc :=
  match obj_get parent toc with
  | Some refs => Ok (obj_set parent (refs ++ [id])%list toc)
  | None => Fail TypeError
  end.

(** The callback of [forEach] on line 877: one segment of the folder hint,
    from the current parent to the next one. *)
Definition resolve_segment (acc : result (string * TocState)) (folder : string)
  : result (string * TocState) :=
  '(parentId, st) <- acc ;;
  siblings <- match obj_get parentId (ts_toc st) with
              | Some refs => Ok refs
              | None => Fail TypeError
              end ;;
  let found := titleIdMap_get (Some folder) (ts_titles st) in
  let linked :=
    match found with
    | Some folderId => obj_has folderId (ts_meta st) && existsb (String.eqb folderId) siblings
    | None => false
    end in
  '(folderId, st) <-
    (if linked then Ok (or_empty found, st)
     else
       '(folderId, metas, tick) <- generateFolder folder (ts_meta st) (ts_tick st) ;;
       toc <- toc_push parentId folderId (ts_toc st) ;;
       Ok (folderId, mkTocSt toc metas ((Some folder, folderId) :: ts_titles st) tick)) ;;
  Ok (folderId,
      mkTocSt (ensure_list folderId (ts_toc st)) (ts_meta st) (ts_titles st) (ts_tick st)).

Definition insertToToc (id : string) (st : TocState) : result TocState :=
  match obj_get id (ts_meta st) with
  | None => Fail TypeError
  | Some meta =>
      if negb (truthy (m_folder meta)) then
        toc <- toc_push "root" id (ts_toc st) ;;
        Ok (mkTocSt toc (ts_meta st) (ts_titles st) (ts_tick st))
      else
        '(parentId, st) <-
          fold_left resolve_segment (split_path (or_empty (m_folder meta))) (Ok ("root", st)) ;;
        toc <- toc_push parentId id (ts_toc st) ;;
        Ok (mkTocSt toc (ts_meta st) (ts_titles st) (ts_tick st))
  end.

(** The sort key of line 894: the arrays [[exported, id]] are compared as
    strings, that is as [exported + "," + id] with [undefined] printed
    empty. *)
Definition sort_token (metas : Metas) (id : string) : string :=
  match obj_get id metas with
  | Some meta => or_empty (m_exported meta) ++ "," ++ id
  | None => "," ++ id
  end.

(** [Array.prototype.sort] with a comparator: a stable insertion sort. *)
Fixpoint sort_insert (key : string -> string) (x : string) (l : list string) : list string :=
  match l with
  | [] => [x]
  | y :: l' =>
      match js_compare (key x) (key y) with
      | Gt => y :: sort_insert key x l'
      | _ => x :: l
      end
  end.

Definition sort_by (key : string -> string) (l : list string) : list string :=
  fold_right (sort_insert key) [] l.

(** [delete] of the three transient fields, lines 907-909. *)
Definition strip_transient (meta : Meta) : Meta :=
  mkMeta None (m_index meta) (m_title meta) (m_type meta) (m_create meta) (m_modify meta)
         (m_source meta) (m_icon meta) (m_comment meta) None None.

(** One turn of the loop of lines 894-910. *)
Definition insert_turn (referred : IdSet) (acc : result TocState) (id : string)
  : result TocState :=
  st <- acc ;;
  st <- (if negb (set_has id referred) && negb (is_reserved id) then
           st <- insertToToc id st ;;
           match obj_get id (ts_meta st) with
           | Some meta =>
               Ok (mkTocSt (ts_toc st) (ts_meta st) ((m_title meta, id) :: ts_titles st)
                           (ts_tick st))
           | None => Fail TypeError
           end
         else Ok st) ;;
  match obj_get id (ts_meta st) with
  | Some meta =>
      Ok (mkTocSt (ts_toc st) (obj_set id (strip_transient meta) (ts_meta st))
                  (ts_titles st) (ts_tick st))
  | None => Fail TypeError
  end.

Definition insert_orphans (referred : IdSet) (st : TocState) : result TocState :=
  fold_left (insert_turn referred)
            (sort_by (sort_token (ts_meta st)) (obj_keys (ts_meta st))) (Ok st).

(** The integrity of a table of contents against a metadata map.
    [children_known]: every child listed anywhere has a metadata entry.
    [keys_known pending]: every key but the reserved ones has a metadata
    entry and lists a child, [pending] being the folder still to be filled.
    [listed]: the identifier is a child of some key. *)
Definition children_known (metas : Metas) (toc : Toc) : Prop :=
  forall k refs c, obj_get k toc = Some refs -> In c refs -> obj_has c metas = true.

Definition keys_known (pending : string) (metas : Metas) (toc : Toc) : Prop :=
  forall k refs, obj_get k toc = Some refs -> is_reserved k = false ->
                 obj_has k metas = true /\ (refs <> [] \/ k = pending).

Definition keys_settled (metas : Metas) (toc : Toc) : Prop :=
  forall k refs, obj_get k toc = Some refs -> is_reserved k = false ->
                 obj_has k metas = true /\ refs <> [].

Definition listed (id : string) (toc : Toc) : Prop :=
  exists k refs, obj_get k toc = Some refs /\ In id refs.

(** Lists are only ever extended at their end. *)
Definition toc_grows (toc toc' : Toc) : Prop :=
  forall k refs, obj_get k toc = Some refs ->
                 exists extra, obj_get k toc' = Some (refs ++ extra)%list.

(** How often [id] is listed under the key [k]. *)
Definition occ (id : string) (toc : Toc) (k : string) : nat :=
  match obj_get k toc with
  | Some refs => count_occ string_dec refs id
  | None => 0
  end.

(** [id] is a child of no key; of exactly one key, once; and as often
    under every key of [toc'] as of [toc]. *)
Definition unlisted (id : string) (toc : Toc) : Prop :=
  forall k, occ id toc k = 0.

Definition listed_once (id : string) (toc : Toc) : Prop :=
  exists k, occ id toc k = 1 /\ forall k', k' <> k -> occ id toc k' = 0.

Definition listed_alike (id : string) (toc toc' : Toc) : Prop :=
  forall k, occ id toc' k = occ id toc k.

(** From [toc] to [toc'] only the identifiers of [added] were pushed, each
    once if it was not listed before. *)
Definition adds_once (added : list string) (toc toc' : Toc) : Prop :=
  (forall id, ~ In id added -> listed_alike id toc toc')
  /\ (forall id, In id added -> unlisted id toc -> listed_once id toc').

(** The sentence of the specification on the items: every entry that is
    not a folder, separator or bookmark, and not a reserved root, is listed
    exactly once. *)
Definition listed_exactly_once (metas : Metas) (toc : Toc) : Prop :=
  forall id meta,
    obj_get id metas = Some meta ->
    is_container (m_type meta) = false ->
    is_reserved id = false ->
    listed_once id toc.

(** The title map is sound for a metadata map when the identifier it
    records for a title is that of an entry bearing the title. *)
Definition titles_sound (metas : Metas) (titles : TitleMap) : Prop :=
  forall title id, In (title, id) titles ->
                   exists meta, obj_get id metas = Some meta /\ m_title meta = title.

(** What the insertion relies on while [pending] is being filled, and
    how a later state extends an earlier one: lists grow, entries stay, and
    a new entry is listed at once. *)
Definition seg_inv (pending : string) (st : TocState) : Prop :=
  children_known (ts_meta st) (ts_toc st)
  /\ keys_known pending (ts_meta st) (ts_toc st)
  /\ obj_has pending (ts_toc st) = true.

Definition st_extends (st st' : TocState) : Prop :=
  toc_grows (ts_toc st) (ts_toc st')
  /\ (forall k, obj_has k (ts_meta st) = true -> obj_has k (ts_meta st') = true)
  /\ (forall k, obj_has k (ts_meta st') = true ->
                obj_has k (ts_meta st) = true \/ listed k (ts_toc st')).

(** What a step of the insertion adds: the identifiers of [added] are new
    to the metadata, and nothing else is. *)
Definition adds_new (added : list string) (st st' : TocState) : Prop :=
  adds_once added (ts_toc st) (ts_toc st')
  /\ (forall x, In x added ->
                obj_has x (ts_meta st) = false /\ obj_has x (ts_meta st') = true)
  /\ (forall k, obj_has k (ts_meta st') = true ->
                obj_has k (ts_meta st) = true \/ In k added).

(** The entry [generateFolder] writes for a new folder. *)
Definition folder_meta (title folderId : string) : Meta :=
  mkMeta None None (Some title) (Some "folder") (Some folderId)
         None None None None None None.

(** ** The table of contents before the repair: lines 394-400, 464-477, 530 *)

Definition init_toc : Toc := [("root", [])].

(** [parseSeqElem] for one [rdf:li]: create the list if needed, push. *)
Definition seq_push (toc : Toc) (edge : string * string) : Toc :=
  let '(id, refId) := edge in
  let toc := ensure_list id toc in
  match obj_get id toc with
  | Some refs => obj_set id (refs ++ [refId])%list toc
  | None => toc
  end.

(** The legacy sequences, then every [tree/toc#.js] merged in turn. *)
Definition import_toc (seq : list (string * string)) (tocFiles : list Toc) : Toc :=
  fold_left (fun toc data => obj_assign toc data) tocFiles (fold_left seq_push seq init_toc).

(** ** The whole "Fix meta and toc" step: lines 751-911 *)

Record RunState := mkRun {
  rs_meta : Metas;
  rs_toc : Toc;
  rs_dirs : DataDirs;
  rs_tick : nat
}.

(** [Finished]: the step ran to its end.  [LeftEarly]: the [return] of line
    777 left the step, the next step of the chain follows.  [Aborted]: an
    exception reached the handler of line 1244 and the run emits nothing. *)
Inductive Stage :=
| Finished (s : RunState)
| LeftEarly (s : RunState)
| Aborted.

Definition fix_meta_and_toc (s : RunState) : Stage :=
  match fix_metadata (mkFix (rs_meta s) (rs_dirs s) (rs_tick s)) with
  | Throw _ => Aborted
  | Return st => LeftEarly (mkRun (fx_meta st) (rs_toc s) (fx_dirs st) (fx_tick st))
  | Next st =>
      let pr := prune_toc (fx_meta st) (rs_toc s) in
      match insert_orphans (pr_referred pr)
                           (mkTocSt (pr_toc pr) (fx_meta st) (pr_titles pr) (fx_tick st)) with
      | Ok ts => Finished (mkRun (ts_meta ts) (ts_toc ts) (fx_dirs st) (ts_tick ts))
      | Fail _ => Aborted
      end
  end.

(** ** "Generate cache for favicon": lines 911-1008 *)

(** The archive being written: [zip.files]. *)
Record ZipEntry := mkZipEntry {
  z_dir : bool;
  z_file : File
}.
Definition Zip := JsObj ZipEntry.

(** [scrapbook.zipAddFile(zip, path, file, ...)]. *)
Definition zipAddFile (zip : Zip) (path : string) (file : File) : Zip :=
  obj_set path (mkZipEntry false file) zip.

(** The body of the promise [p] of lines 933-982: decode a data URI or
    fetch the URL and name the blob after its hash.  [None] is a rejected
    promise. *)
Definition fetch_icon (earlier : nat) (favIconUrl : string) : option File :=
  if startsWith favIconUrl "data:" then dataUriToFile favIconUrl
  else
    match xhr earlier favIconUrl with
    | None => None
    | Some r =>
        let ext :=
          snd (filenameParts
                 (or_empty (js_or (x_filename r) (Some (urlToFilename (x_responseURL r)))))) in
        let blob := x_blob r in
        let mime := f_type blob in
        if negb (startsWith mime "image/") && negb (String.eqb mime "application/octet-stream")
        then None
        else
          let ext := if truthy ext then ext else mime_extension mime in
          let ext := if truthy ext then "." ++ or_empty ext else "" in
          let sha := sha1 (f_bytes blob) in
          Some (mkFile (sha ++ ext) (f_type blob) (f_bytes blob))
    end.

Record IconState := mkIcon {
  ic_meta : Metas;
  ic_zip : Zip;
  ic_access : list (string * option File);
  ic_fetched : list string
}.

(** [urlAccessMap.get]. *)
Fixpoint access_get (url : string) (m : list (string * option File)) : option (option File) :=
  match m with
  | [] => None
  | (u, p) :: m' => if String.eqb u url then Some p else access_get url m'
  end.

(** Lines 926-985: the memoised access; a miss runs [fetch_icon], records
    the call in [ic_fetched] and stores the promise. *)
Definition access_icon (favIconUrl : string) (st : IconState) : option File * IconState :=
  match access_get favIconUrl (ic_access st) with
  | Some prevAccess => (prevAccess, st)
  | None =>
      let p := fetch_icon (List.length (ic_fetched st)) favIconUrl in
      (p, mkIcon (ic_meta st) (ic_zip st) ((favIconUrl, p) :: ic_access st)
                 (favIconUrl :: ic_fetched st))
  end.

Definition set_icon (icon : option string) (meta : Meta) : Meta :=
  mkMeta (m_id meta) (m_index meta) (m_title meta) (m_type meta) (m_create meta)
         (m_modify meta) (m_source meta) icon (m_comment meta) (m_folder meta)
         (m_exported meta).

(** Line 986: where the cached copy of [file] lives. *)
Definition favicon_path (file : File) : string := "tree/favicon/" ++ f_name file.

(** Line 995: that path, seen from the item's index file. *)
Definition favicon_url (index path : string) : string :=
  (if contains_char "/" index then "../" else "") ++ "../" ++ path.

(** The task of one item, lines 918-1006. *)
Definition icon_turn (treeFiles : JsObj File) (st : IconState) (id : string) : IconState :=
  match obj_get id (ic_meta st) with
  | None => st
  | Some meta =>
      let index := or_empty (js_or (m_index meta) (Some "")) in
      let favIconUrl := m_icon meta in
      let '(resolved, st) :=
        if negb (truthy favIconUrl) || negb (contains_char ":" (or_empty favIconUrl))
        then (favIconUrl, st)
        else
          let '(file, st) := access_icon (or_empty favIconUrl) st in
          match file with
          | None => (None, st)
          | Some file =>
              let path := favicon_path file in
              let stale := match obj_get path treeFiles with
                           | Some old => Nat.eqb (f_size old) 0
                           | None => true
                           end in
              let zip := if stale then zipAddFile (ic_zip st) path file else ic_zip st in
              let url := favicon_url index path in
              (Some url, mkIcon (ic_meta st) zip (ic_access st) (ic_fetched st))
          end in
      mkIcon (obj_set id (set_icon (js_or resolved (Some "")) meta) (ic_meta st))
             (ic_zip st) (ic_access st) (ic_fetched st)
  end.

Definition cache_favicons (treeFiles : JsObj File) (metas : Metas) (zip : Zip) : IconState :=
  fold_left (icon_turn treeFiles) (obj_keys metas) (mkIcon metas zip [] []).

(** An icon the pass resolves: not empty, and with a ":" in it. *)
Definition is_external (icon : option string) : bool :=
  truthy icon && contains_char ":" (or_empty icon).

(** The icon an item is left with, given what its source resolved to. *)
Definition icon_after (meta : Meta) (outcome : option File) : option string :=
  match outcome with
  | Some file => Some (favicon_url (or_empty (m_index meta)) (favicon_path file))
  | None => Some ""
  end.

(** What the pass owes the item [id], whose entry was [meta], in the state
    [st]: an icon that is not external keeps its text; an external one
    reads what the one recorded access to its source resolved to. *)
Definition icon_settled (id : string) (meta : Meta) (st : IconState) : Prop :=
  if is_external (m_icon meta)
  then exists outcome,
         access_get (or_empty (m_icon meta)) (ic_access st) = Some outcome
         /\ obj_get id (ic_meta st) = Some (set_icon (icon_after meta outcome) meta)
  else obj_get id (ic_meta st) = Some (set_icon (Some (or_empty (m_icon meta))) meta).

(** The cache file at [path] is at hand: written to the archive, or kept
    from the previous tree, where it is not empty. *)
Definition staged (treeFiles : JsObj File) (zip : Zip) (path : string) : Prop :=
  obj_has path zip = true
  \/ exists old, obj_get path treeFiles = Some old /\ f_size old <> 0.

(** The bookkeeping of [urlAccessMap]: every recorded access is the answer
    of one call of the resolver, and no source was resolved twice. *)
Definition access_sound (st : IconState) : Prop :=
  NoDup (ic_fetched st)
  /\ (forall url, In url (ic_fetched st) -> access_get url (ic_access st) <> None)
  /\ (forall url p, access_get url (ic_access st) = Some p ->
                    exists n, p = fetch_icon n url).

Definition access_grows (st st' : IconState) : Prop :=
  forall url p, access_get url (ic_access st) = Some p ->
                access_get url (ic_access st') = Some p.

(** ** "Check for missing and unused favicons": lines 1009-1035 *)

(** The capture of the test on line 1014: one or two leading "../", then
    a path under "tree/favicon/" running to the end of the icon without a
    line terminator. *)
Definition favicon_ref (icon : string) : option string :=
  let capture s :=
    if startsWith s "tree/favicon/" && no_line_break s then Some s else None in
  if startsWith icon "../" then
    let rest := slice_from 3 icon in
    match capture rest with
    | Some path => Some path
    | None => if startsWith rest "../" then capture (slice_from 3 rest) else None
    end
  else None.

Definition referedFavIcons (metas : Metas) : IdSet :=
  fold_left (fun acc id =>
               match obj_get id metas with
               | Some meta =>
                   match favicon_ref (or_empty (m_icon meta)) with
                   | Some path => path :: acc
                   | None => acc
                   end
               | None => acc
               end)
            (obj_keys metas) [].

(** The second loop: an unused cached favicon is replaced by an empty file. *)
Definition sweep_favicons (treeFiles : JsObj File) (metas : Metas) (zip : Zip) : Zip :=
  let refered := referedFavIcons metas in
  fold_left (fun zip path =>
               if startsWith path "tree/favicon/" && negb (set_has path refered)
               then zipAddFile zip path (mkFile "" "application/octet-stream" "")
               else zip)
            (obj_keys treeFiles) zip.

(** ** "Check for same files and generate backup files": lines 1119-1153 *)

Definition bakPath_of (path : string) : string :=
  "tree.bak/" ++ slice_from (String.length "tree/") path.

(** What the callback of [zip.forEach] queues for one entry: the entry
    [zipObj] is the one found when the archive was enumerated. *)
Definition diff_turn (treeFiles : JsObj File) (snapshot : Zip) (zip : Zip) (path : string)
  : Zip :=
  match obj_get path snapshot with
  | None => zip
  | Some zipObj =>
      if z_dir zipObj then zip
      else if negb (startsWith path "tree/") then zip
      else if startsWith path "tree/cache/" then zip
      else
        let bakPath := bakPath_of path in
        match obj_get path treeFiles with
        | None => zip
        | Some oldFile =>
            let shaOld := sha1 (f_bytes oldFile) in
            let shaNew := sha1 (f_bytes (z_file zipObj)) in
            if negb (String.eqb shaOld shaNew)
            then zipAddFile zip bakPath oldFile
            else obj_del path zip
        end
  end.

Definition diff_and_backup (treeFiles : JsObj File) (zip : Zip) : Zip :=
  fold_left (diff_turn treeFiles zip) (obj_keys zip) zip.

(** The two outcomes of the comparison for [path], read off the archive
    as enumerated: [backs] is the previous file when the hashes differ,
    [removes] tells that they agree. *)
Definition diffable (treeFiles : JsObj File) (snapshot : Zip) (path : string)
  : option (File * ZipEntry) :=
  match obj_get path snapshot, obj_get path treeFiles with
  | Some zipObj, Some oldFile =>
      if negb (z_dir zipObj) && startsWith path "tree/"
         && negb (startsWith path "tree/cache/")
      then Some (oldFile, zipObj) else None
  | _, _ => None
  end.

Definition same_hash (oldFile : File) (zipObj : ZipEntry) : bool :=
  String.eqb (sha1 (f_bytes oldFile)) (sha1 (f_bytes (z_file zipObj))).

Definition removes (treeFiles : JsObj File) (snapshot : Zip) (path : string) : bool :=
  match diffable treeFiles snapshot path with
  | Some (oldFile, zipObj) => same_hash oldFile zipObj
  | None => false
  end.

Definition backs (treeFiles : JsObj File) (snapshot : Zip) (path : string) : option File :=
  match diffable treeFiles snapshot path with
  | Some (oldFile, zipObj) => if same_hash oldFile zipObj then None else Some oldFile
  | None => None
  end.

(** The sentence of the specification on the favicon cache: nothing under
    "tree/favicon/" is compared, so the pass leaves such a path and its
    backup counterpart as they were. *)
Definition favicon_cache_never_diffed (treeFiles : JsObj File) (zip : Zip) : Prop :=
  forall path,
    startsWith path "tree/favicon/" = true ->
    obj_get path (diff_and_backup treeFiles zip) = obj_get path zip
    /\ obj_get (bakPath_of path) (diff_and_backup treeFiles zip)
       = obj_get (bakPath_of path) zip.

End Engine.

(** ** A concrete host and concrete collections, for running the model *)

Module Sample.

(** Identifiers as decimal timestamps. *)
Definition decimalId (t : N) : string := NilEmpty.string_of_uint (N.to_uint t).

Definition decimalTime (id : string) : N :=
  match NilEmpty.uint_of_string id with
  | Some d => N.of_uint d
  | None => 0%N
  end.

Definition now : N := 20200101000000000%N.

(** The text after the last "/" of a URL. *)
Fixpoint lastSegment (url : string) : string :=
  match url with
  | EmptyString => EmptyString
  | String a url' =>
      if contains_char "/" url then lastSegment url' else url
  end.

Definition png (bytes : string) : File := mkFile "" "image/png" bytes.

(** A host with a frozen clock, the content as its own digest, and a network
    that answers every request. *)
Definition host (index : FreeVar) : Host := {|
  dateToId := decimalId;
  idToDate := decimalTime;
  clock := fun _ => now;
  outer_index := index;
  urlToFilename := lastSegment;
  filenameParts := fun name => (name, None);
  mime_extension := fun mime => if String.eqb mime "image/png" then Some "png" else None;
  sha1 := fun bytes => bytes;
  dataUriToFile := fun uri => Some (mkFile (uri ++ ".png") "image/png" uri);
  xhr := fun n url => Some (mkXhr url (png (url ++ decimalId (N.of_nat n))) None)
|}.

Definition page (id index title icon folder : option string) : Meta :=
  mkMeta id index title None None None None icon None folder None.

Definition dir (paths : list string) : option ItemFiles :=
  Some (map (fun path => (path, mkFile path "text/html" "")) paths).

(** A previous output with one cached favicon and a metadata file, and a
    newly written metadata file. *)
Definition previous_tree : JsObj File :=
  [("tree/favicon/old.png", png "OLD"); ("tree/meta.js", mkFile "" "application/javascript" "m0")].

Definition new_meta_js : ZipEntry :=
  mkZipEntry false (mkFile "" "application/javascript" "m1").

(** A collection whose table of contents lists the page "A" twice. *)
Definition twice_listed : RunState :=
  mkRun [("A", page None (Some "A.html") (Some "a") None None)]
        (import_toc [] [[("root", ["A"; "A"])]])
        [("A", dir ["A.html"])] 0.

(** A collection with one page, not listed, that asks for the folder
    "Work" / "Projects". *)
Definition hinted_meta : Meta :=
  page None (Some "X/index.html") (Some "x") None
       (Some ("Work" ++ String TAB "Projects")).

Definition hinted : RunState :=
  mkRun [("X", hinted_meta)] (import_toc [] []) [("X", dir ["X/index.html"])] 0.

(** A collection in which the files of "A" declare the identifier "B",
    already taken by an entry with the index "B/index.html", followed by a
    third item "C"; the table of contents lists an unknown item "Z". *)
Definition duplicate_id : RunState :=
  mkRun [("A", page (Some "B") (Some "B/index.html") None None None);
         ("B", page None (Some "B/index.html") None None None);
         ("C", page None None None None None)]
        (import_toc [] [[("root", ["B"; "Z"])]])
        [("A", dir ["A/index.html"]); ("C", dir ["C.html"])] 0.

(** The state in which the insertion finds the page of [hinted]: an empty
    root and no title recorded. *)
Definition hinted_state : TocState :=
  mkTocSt init_toc [("X", hinted_meta)] [] 1.

(** Two pages with the same external icon, and one with a relative icon. *)
Definition icon_P : Meta :=
  page None (Some "P/index.html") (Some "p") (Some "http://x/a.png") None.
Definition icon_Q : Meta :=
  page None (Some "Q.html") (Some "q") (Some "http://x/a.png") None.
Definition icon_R : Meta :=
  page None (Some "R.html") (Some "r") (Some "favicon.ico") None.

Definition icons : Metas := [("P", icon_P); ("Q", icon_Q); ("R", icon_R)].

End Sample.

(** ** Predicates on the states of the engine *)

(** The identifiers of a collection are none of the names an object
    inherits: those its entries are filed under or declare, the index files
    they name, and the keys and children of its table of contents.  For
    such a collection the reads of the script find what the model finds. *)
Definition plain_run (s : RunState) : Prop :=
  (forall id meta,
      obj_get id (rs_meta s) = Some meta ->
      inherited id = false
      /\ inherited (or_empty (m_id meta)) = false
      /\ inherited (or_empty (m_index meta)) = false)
  /\ (forall k refs,
        obj_get k (rs_toc s) = Some refs ->
        inherited k = false /\ forall c, In c refs -> inherited c = false).

(** The sentence of the specification on Scenario D, read on a run from
    [s] to [s']: when the item [id] carries the hint "Work", tab,
    "Projects" and no folder titled "Work" is a child of the root, two
    folders that were not there are made, "Projects" under "Work" under the
    root, and the item is put under "Projects". *)
Definition no_folder_titled (title : string) (s : RunState) : Prop :=
  forall roots child entry,
    obj_get "root" (rs_toc s) = Some roots -> In child roots ->
    obj_get child (rs_meta s) = Some entry ->
    m_type entry = Some "folder" -> m_title entry <> Some title.

Definition two_folders_made (s s' : RunState) (id : string) : Prop :=
  exists work projects roots,
    work <> projects
    /\ obj_has work (rs_meta s) = false /\ obj_has projects (rs_meta s) = false
    /\ obj_has work (rs_meta s') = true /\ obj_has projects (rs_meta s') = true
    /\ obj_get "root" (rs_toc s') = Some roots /\ In work roots
    /\ obj_get work (rs_toc s') = Some [projects]
    /\ obj_get projects (rs_toc s') = Some [id].

Definition scenario_D (s s' : RunState) : Prop :=
  forall id meta,
    obj_get id (rs_meta s) = Some meta ->
    m_folder meta = Some ("Work" ++ String TAB "Projects") ->
    no_folder_titled "Work" s ->
    two_folders_made s s' id.

Section EngineMore.
Context {host : Host}.

(** What the pass owes an entry filed under [id]: an item that is not a
    folder, separator or bookmark has data files, and its index names one
    of them unless none of the nine candidates exists. *)
Definition index_settled (dataDirs : DataDirs) (id : string) (meta : Meta) : Prop :=
  is_container (m_type meta) = false ->
  exists itemFiles,
    dirs_lookup id dataDirs = Some itemFiles
    /\ ((exists index, m_index meta = Some index /\ obj_has index itemFiles = true)
        \/ getIndexPath itemFiles id = None).

(** What the insertion may do to the metadata: it keeps the entries there
    are, and adds folders under keys that were free. *)
Definition folders_added (metas metas' : Metas) : Prop :=
  (forall k m, obj_get k metas = Some m -> obj_get k metas' = Some m)
  /\ (forall k m, obj_get k metas' = Some m ->
                  obj_get k metas = Some m
                  \/ (obj_get k metas = None /\ exists title, m = folder_meta title k)).

(** What the insertion leaves under [k], of the map [metas0] it started
    from: an entry of [metas0] without its transient fields, or a folder
    made for a segment of a hint, under a key [metas0] did not have. *)
Definition inserted_entry (metas0 : Metas) (k : string) (m : Meta) : Prop :=
  (exists m0, obj_get k metas0 = Some m0 /\ m = strip_transient m0)
  \/ (obj_get k metas0 = None /\ exists title, m = folder_meta title k).

(** The three transient fields are gone. *)
Definition transient_free (meta : Meta) : Prop :=
  m_id meta = None /\ m_folder meta = None /\ m_exported meta = None.

(** What a step may do to the metadata: keep an entry as it is, or write
    one without transient fields. *)
Definition metas_step (metas metas' : Metas) : Prop :=
  forall k m, obj_get k metas' = Some m -> obj_get k metas = Some m \/ transient_free m.

(** The entry [entry] found at [path] was written by the favicon pass: it
    is a fetched icon under its own name, and the previous cache had no
    file there, or an empty one. *)
Definition favicon_written (treeFiles : JsObj File) (path : string)
           (entry : option ZipEntry) : Prop :=
  exists n url file,
    fetch_icon n url = Some file
    /\ path = favicon_path file
    /\ match obj_get path treeFiles with
       | Some old => Nat.eqb (f_size old) 0 = true
       | None => True
       end
    /\ entry = Some (mkZipEntry false file).

(** The keys of [l] never decrease from left to right. *)
Fixpoint in_order (key : string -> string) (l : list string) : Prop :=
  match l with
  | [] => True
  | x :: l' =>
      Forall (fun y => js_compare (key x) (key y) <> Gt) l' /\ in_order key l'
  end.

(** What the insertion knows of the items of [pending], still to be
    visited: their entries are those of [metas0], and those that are to be
    inserted are listed nowhere yet. *)
Definition awaiting (referred : IdSet) (metas0 : Metas) (pending : list string)
           (st : TocState) : Prop :=
  seg_inv "root" st
  /\ forall x, In x pending ->
       obj_get x (ts_meta st) = obj_get x metas0
       /\ obj_has x (ts_meta st) = true
       /\ (set_has x referred = false -> is_reserved x = false ->
           unlisted x (ts_toc st)).

End EngineMore.

(** ** [indexer.mergeLegacyMeta]: lines 1323-1367 *)

(** The two conversions of legacy time stamps, as one call each:
    [scrapbook.dateToId(scrapbook.idToDateOld(s))] and
    [scrapbook.dateToId(new Date(s))], both taken to answer every text
    with a text that depends on it alone. *)
Class LegacyHost := {
  dateToId_idToDateOld : string -> string;
  dateToId_Date : string -> string
}.

(** [legacyMeta.key]: [undefined] when the key is absent. *)
Definition legacy_field (key : string) (legacyMeta : DatMeta) : option string :=
  match obj_get key legacyMeta with
  | Some v => v
  | None => None
  end.

(** [s.replace(/ __BR__ /g, "\n")]: [skip] counts the characters of a
    match still to be passed over. *)
Fixpoint replace_br (skip : nat) (s : string) : string :=
  match s with
  | EmptyString => EmptyString
  | String a s' =>
      match skip with
      | S skip' => replace_br skip' s'
      | 0 =>
          if startsWith s " __BR__ " then String LF (replace_br 7 s')
          else String a (replace_br 0 s')
      end
  end.

(** [{"note": "postit", "notex": "note", "combine": "site"}[type]], for a
    type that is none of [inherited_names]: for one of these the table
    answers the member it inherits, a value no entry of this model holds. *)
Definition legacy_type_table (type : option string) : option string :=
  match type with
  | Some t =>
      if String.eqb t "note" then Some "postit"
      else if String.eqb t "notex" then Some "note"
      else if String.eqb t "combine" then Some "site"
      else None
  | None => None
  end.

(** [s.endsWith(suffix)]. *)
Definition endsWith (s suffix : string) : bool :=
  Nat.leb (String.length suffix) (String.length s)
  && String.eqb (slice_from (String.length s - String.length suffix) s) suffix.

(** A value inside a template literal. *)
Definition print (v : option string) : string :=
  match v with
  | Some s => s
  | None => "undefined"
  end.

(** Lines 1355-1364, on an icon that is a string. *)
Definition legacy_icon (id : option string) (icon : string) : string :=
  let resProtocolBase := "resource://scrapbook/data/" ++ print id ++ "/" in
  let resProtocolBase2 := "resource://scrapbook/icon/" in
  if startsWith icon resProtocolBase
  then slice_from (String.length resProtocolBase) icon
  else if startsWith icon resProtocolBase2
       then "../../icon/" ++ slice_from (String.length resProtocolBase2) icon
       else if startsWith icon "moz-icon://" then "" else icon.

(** The fields [mergeLegacyMeta] writes besides those of [Meta]: [charset]
    and [locked] when the legacy value is not empty, [marked] for the legacy
    type "marked". *)
Record LegacyFlags := mkFlags {
  fl_charset : option string;
  fl_locked : option string;
  fl_marked : bool
}.

Section Legacy.
Context {legacy : LegacyHost}.

(** The object [meta] of lines 1326-1364 and its assignment to [newMeta];
    [meta.icon.startsWith] throws when the legacy icon is missing, before
    anything is assigned. *)
Definition mergeLegacyMeta (newMeta : Meta) (legacyMeta : DatMeta)
  : result (Meta * LegacyFlags) :=
  let id := legacy_field "id" legacyMeta in
  let title := legacy_field "title" legacyMeta in
  let type := legacy_field "type" legacyMeta in
  let create :=
    if truthy (legacy_field "create" legacyMeta)
    then dateToId_idToDateOld (or_empty (legacy_field "create" legacyMeta)) else "" in
  let modify :=
    if truthy (legacy_field "modify" legacyMeta)
    then dateToId_idToDateOld (or_empty (legacy_field "modify" legacyMeta)) else "" in
  let source := legacy_field "source" legacyMeta in
  let icon := legacy_field "icon" legacyMeta in
  let comment :=
    if truthy (legacy_field "comment" legacyMeta)
    then replace_br 0 (or_empty (legacy_field "comment" legacyMeta)) else "" in
  let folder := legacy_field "folder" legacyMeta in
  let exported :=
    if truthy (legacy_field "exported" legacyMeta)
    then Some (dateToId_Date (or_empty (legacy_field "exported" legacyMeta))) else None in
  let charset :=
    if truthy (legacy_field "chars" legacyMeta) then legacy_field "chars" legacyMeta
    else None in
  let locked :=
    if truthy (legacy_field "lock" legacyMeta) then legacy_field "lock" legacyMeta
    else None in
  let type := or_empty (js_or (js_or (legacy_type_table type) type) (Some "")) in
  let '(type, marked) := if String.eqb type "marked" then ("", true) else (type, false) in
  match icon with
  | None => Fail TypeError
  | Some icon =>
      let icon := legacy_icon id icon in
      Ok (mkMeta id (m_index newMeta) title (Some type) (Some create) (Some modify) source
                 (Some icon) (Some comment) folder exported,
          mkFlags charset locked marked)
  end.

End Legacy.

(** ** The files handed to [indexer.import] *)

(** One element of [inputData.files], and [inputData] itself. *)
Record InputFile := mkInput {
  in_path : string;
  in_file : File
}.

Record InputData := mkInputData {
  input_name : string;
  input_files : list InputFile
}.

(** [s.indexOf(c)] for a one-character needle; [None] is -1. *)
Fixpoint index_of (c : ascii) (s : string) : option nat :=
  match s with
  | EmptyString => None
  | String a s' =>
      if Ascii.eqb a c then Some 0
      else match index_of c s' with
           | Some i => Some (S i)
           | None => None
           end
  end.

(** [s.slice(0, n)] for [n] not negative. *)
Fixpoint take (n : nat) (s : string) : string :=
  match n, s with
  | S n', String a s' => String a (take n' s')
  | _, _ => EmptyString
  end.

(** [name.replace(/[.][^.]+$/, "")]: the search tries every position from
    the left for a dot followed, up to the end, by one character or more
    none of which is a dot. *)
Fixpoint strip_ext (name : string) : string :=
  match name with
  | EmptyString => EmptyString
  | String a name' =>
      if Ascii.eqb a "." && negb (String.eqb name' "") && negb (contains_char "." name')
      then EmptyString
      else String a (strip_ext name')
  end.

(** The text that follows the match of [/^.*[/]/], if there is one: [.*]
    runs over the first line as far as a "/" still follows. *)
Fixpoint after_dirs (path : string) : option string :=
  match path with
  | EmptyString => None
  | String a path' =>
      if line_break_at (String a path') then None
      else match after_dirs path' with
           | Some rest => Some rest
           | None => if Ascii.eqb a "/" then Some path' else None
           end
  end.

(** [path.replace(/^.*[/]/, "")]. *)
Definition basename (path : string) : string :=
  match after_dirs path with
  | Some rest => rest
  | None => path
  end.

(** ** Grouping the files: lines 404-425 *)

(** The alternatives of [(?:\/.+|[.][^.]+)$] on what follows the
    identifier. *)
Definition alt_dir (rest : string) : bool :=
  match rest with
  | String a rest' => Ascii.eqb a "/" && negb (String.eqb rest' "") && no_line_break rest'
  | EmptyString => false
  end.

Definition alt_ext (rest : string) : bool :=
  match rest with
  | String a rest' =>
      Ascii.eqb a "." && negb (String.eqb rest' "") && negb (contains_char "." rest')
  | EmptyString => false
  end.

(** The capture [$2] of [/^data\/(([^\/]+)(?:\/.+|[.][^.]+))$/] on the text
    after "data/": [[^\/]+] takes the longest run without "/" after which
    one of the alternatives reaches the end, a shorter run being tried only
    when every longer one fails. *)
Fixpoint data_id (s : string) : option string :=
  match s with
  | EmptyString => None
  | String a s' =>
      if Ascii.eqb a "/" then None
      else match data_id s' with
           | Some id => Some (String a id)
           | None => if alt_dir s' || alt_ext s' then Some (String a EmptyString) else None
           end
  end.

(** The captures [$1] and [$2] for a path. *)
Definition data_entry (path : string) : option (string * string) :=
  if startsWith path "data/" then
    let s := slice_from 5 path in
    match data_id s with
    | Some id => Some (s, id)
    | None => None
    end
  else None.

Record Collected := mkCollected {
  otherFiles : JsObj File;
  treeFiles : JsObj File;
  dataDirs : DataDirs
}.

(** One turn of [for (const {path, file} of inputData.files)]. *)
Definition collect_turn (c : Collected) (f : InputFile) : Collected :=
  let path := in_path f in
  let file := in_file f in
  let other :=
    if String.eqb path "scrapbook.rdf" then obj_set path file (otherFiles c)
    else otherFiles c in
  let tree :=
    if startsWith path "tree/" then obj_set path file (treeFiles c) else treeFiles c in
  let dirs :=
    match data_entry path with
    | Some (path, id) =>
        let itemFiles := match dirs_lookup id (dataDirs c) with
                         | Some itemFiles => itemFiles
                         | None => []
                         end in
        obj_set id (Some (obj_set path file itemFiles)) (dataDirs c)
    | None => dataDirs c
    end in
  mkCollected other tree dirs.

Definition collect_files (files : list InputFile) : Collected :=
  fold_left collect_turn files (mkCollected [] [] []).

(** The file [path] is filed under the identifier [id]. *)
Definition filed (id path : string) (dataDirs : DataDirs) : Prop :=
  exists itemFiles, dirs_lookup id dataDirs = Some itemFiles
                    /\ obj_has path itemFiles = true.

(** ** [indexer.loadZipFile]: lines 111-176 *)

(** [Mime.prototype.lookup], and the blob [scrapbook.xhr] answers for
    [chrome.runtime.getURL(name)], [None] when the request fails. *)
Class Platform := {
  mime_lookup : string -> string;
  resource_blob : string -> option File
}.

Section Loaders.
Context {platform : Platform}.

(** The file read from the entry [zipEntryObj] found at [inZipPath]; its
    time of modification is not part of [File]. *)
Definition zip_input (cut : nat) (inZipPath : string) (zipEntryObj : ZipEntry)
  : InputFile :=
  let path := slice_from cut inZipPath in
  let filename := basename inZipPath in
  mkInput path (mkFile filename (mime_lookup filename) (f_bytes (z_file zipEntryObj))).

(** The number of characters cut from every path: the length of the top
    directory when the archive has an entry for it and nothing outside. *)
Definition zip_cut (name : string) (zipFiles : Zip) : nat :=
  let topDirName := name ++ "/" in
  if obj_has topDirName zipFiles
     && forallb (fun path => startsWith path topDirName) (obj_keys zipFiles)
  then String.length topDirName
  else 0.

(** From the archive [zipFiles] loaded from a file named [fileName] to the
    argument of [indexer.import]; [None] when the archive is skipped for
    having nothing under "data/". *)
Definition loadZipFile (fileName : string) (zipFiles : Zip) : option InputData :=
  let name := strip_ext fileName in
  let cut := zip_cut name zipFiles in
  let files :=
    flat_map (fun inZipPath =>
                match obj_get inZipPath zipFiles with
                | Some zipEntryObj =>
                    if z_dir zipEntryObj then [] else [zip_input cut inZipPath zipEntryObj]
                | None => []
                end)
             (obj_keys zipFiles) in
  let hasDataDir := existsb (fun f => startsWith (in_path f) "data/") files in
  if hasDataDir then Some (mkInputData name files) else None.

End Loaders.

(** ** [indexer.loadInputDir]: lines 178-268 *)

(** A [File] of a directory picker with its [webkitRelativePath]. *)
Record PickedFile := mkPicked {
  webkitRelativePath : string;
  picked : File
}.

Definition is_digit (a : ascii) : bool :=
  let n := nat_of_ascii a in Nat.leb 48 n && Nat.leb n 57.

(** [/^\d{n}/]. *)
Fixpoint digits (n : nat) (s : string) : bool :=
  match n with
  | 0 => true
  | S n' =>
      match s with
      | String a s' => is_digit a && digits n' s'
      | EmptyString => false
      end
  end.

(** [/^[^/]+[/]<dir>[/]/]: a first segment that is not empty, then
    [dir] as the second one. *)
Definition second_segment_is (dir path : string) : bool :=
  match index_of "/" path with
  | Some (S i) => startsWith (slice_from (S i) path) ("/" ++ dir ++ "/")
  | _ => false
  end.

(** [/^data[/]\d{17}[/.]/]. *)
Definition data_item_path (path : string) : bool :=
  startsWith path "data/" && digits 17 (slice_from 5 path)
  && match slice_from 22 path with
     | String a _ => Ascii.eqb a "/" || Ascii.eqb a "."
     | EmptyString => false
     end.

(** [/^\d{17}[/]/]. *)
Definition item_path (path : string) : bool :=
  digits 17 path && startsWith (slice_from 17 path) "/".

Record DirState := mkDir {
  isRightDir : bool;
  isWrongDir : bool;
  newCut : nat;
  newBase : string;
  hasDataDir : bool;
  dir_files : list (string * PickedFile)
}.

(** Lines 204-234: the tests made on a path while nothing is decided. *)
Definition guess_layout (path : string) (st : DirState) : DirState :=
  if negb (isRightDir st) && negb (isWrongDir st) then
    if second_segment_is "data" path then
      mkDir true (isWrongDir st) (newCut st) (newBase st) (hasDataDir st) (dir_files st)
    else if second_segment_is "tree" path then
      mkDir true (isWrongDir st) (newCut st) (newBase st) (hasDataDir st) (dir_files st)
    else if data_item_path path then
      mkDir (isRightDir st) true 0 (newBase st) (hasDataDir st) (dir_files st)
    else if startsWith path "data/" then
      mkDir (isRightDir st) true 0 (newBase st) (hasDataDir st) (dir_files st)
    else if startsWith path "tree/" then
      mkDir (isRightDir st) true 0 (newBase st) (hasDataDir st) (dir_files st)
    else if item_path path then
      mkDir (isRightDir st) true 0 "data/" (hasDataDir st) (dir_files st)
    else st
  else st.

(** One turn of [for (const file of files)]. *)
Definition dir_turn (cut : nat) (st : DirState) (file : PickedFile) : DirState :=
  let st := guess_layout (webkitRelativePath file) st in
  let path := slice_from cut (webkitRelativePath file) in
  mkDir (isRightDir st) (isWrongDir st) (newCut st) (newBase st)
        (if startsWith path "data/" then true else hasDataDir st)
        (dir_files st ++ [(path, file)])%list.

(** Lines 244-251: the paths written again when the picked directory is
    not the root of the collection.  The loop variable [f] is not
    declared; in this script, which is not strict, the assignment makes a
    global of it and the loop runs. *)
Definition adjust_paths (st : DirState) : DirState :=
  if isWrongDir st then
    let files :=
      map (fun f => (newBase st ++ slice_from (newCut st) (webkitRelativePath (snd f)), snd f))
          (dir_files st) in
    mkDir (isRightDir st) (isWrongDir st) (newCut st) (newBase st)
          (existsb (fun f => startsWith (fst f) "data/") files) files
  else st.

(** The argument of [indexer.import], or [None] when the directory is
    skipped; reading [files[0]] of an empty list throws. *)
Definition loadInputDir (files : list PickedFile) : result (option InputData) :=
  match files with
  | [] => Fail TypeError
  | first :: _ =>
      let p := webkitRelativePath first in
      let cut := match index_of "/" p with
                 | Some i => S i
                 | None => 0
                 end in
      let name := match index_of "/" p with
                  | Some i => take i p
                  | None => take (String.length p - 1) p
                  end in
      let st := fold_left (dir_turn cut) files (mkDir false false cut "" false []) in
      let st := adjust_paths st in
      if hasDataDir st
      then Ok (Some (mkInputData name (map (fun f => mkInput (fst f) (picked (snd f)))
                                           (dir_files st))))
      else Ok None
  end.

(** What the tests of lines 204-234 tell of one path: [Some None] when it
    shows the root of a collection, [Some (Some base)] when it shows a
    directory inside one, [base] being what its paths lack in front; and
    the verdict of the first path that tells something. *)
Definition path_layout (path : string) : option (option string) :=
  if second_segment_is "data" path || second_segment_is "tree" path then Some None
  else if data_item_path path || startsWith path "data/" || startsWith path "tree/"
       then Some (Some "")
       else if item_path path then Some (Some "data/") else None.

Fixpoint first_layout (paths : list string) : option (option string) :=
  match paths with
  | [] => None
  | path :: paths' =>
      match path_layout path with
      | Some verdict => Some verdict
      | None => first_layout paths'
      end
  end.

(** The flags of the loop against the verdict on the paths seen so far. *)
Definition dir_flags (st : DirState) (verdict : option (option string)) : Prop :=
  match verdict with
  | None => isRightDir st = false /\ isWrongDir st = false /\ newBase st = ""
  | Some None => isRightDir st = true /\ isWrongDir st = false
  | Some (Some base) =>
      isRightDir st = false /\ isWrongDir st = true /\ newCut st = 0 /\ newBase st = base
  end.

(** ** The legacy [scrapbook.rdf]: lines 427-485 *)


(** An [RDF:Seq] element: [RDF:about] and the [RDF:resource] of each
    [RDF:li] in it. *)
Record RdfSeq := mkRdfSeq {
  sq_about : option string;
  sq_li : list (option string)
}.


(** The capture of [/^urn:scrapbook:item(\d{14})$/]. *)
Definition item_rid (rid : option string) : option string :=
  match rid with
  | Some rid =>
      let d := slice_from 18 rid in
      if startsWith rid "urn:scrapbook:item" && digits 14 d && Nat.eqb (String.length d) 14
      then Some d else None
  | None => None
  end.

(** [RegExp.$1 || RegExp.$2] after [/^urn:scrapbook:(?:item(\d{14})|(root))$/]. *)
Definition seq_rid (rid : option string) : option string :=
  match item_rid rid with
  | Some d => Some d
  | None =>
      match rid with
      | Some rid => if String.eqb rid "urn:scrapbook:root" then Some "root" else None
      | None => None
      end
  end.


Section Rdf.
Context {legacy : LegacyHost}.




(** The items the [li] elements of a sequence point to, in their order. *)
Definition rdf_children (lis : list (option string)) : list string :=
  flat_map (fun refRid => match item_rid refRid with
                          | Some refId => [refId]
                          | None => []
                          end) lis.

(** [parseSeqElem]. *)
Definition parseSeqElem (toc : Toc) (elem : RdfSeq) : Toc :=
  match seq_rid (sq_about elem) with
  | None => toc
  | Some id =>
      fold_left (fun toc refRid =>
                   match item_rid refRid with
                   | Some refId => seq_push toc (id, refId)
                   | None => toc
                   end)
                (sq_li elem) toc
  end.


End Rdf.

(** ** The data files of an item without entry: lines 546-589 *)




Section ItemHead.
Context {legacy : LegacyHost}.



End ItemHead.

(** ** "Generate files": lines 1035-1087 *)

(** [`${i}`] for a loop counter. *)
Definition decimal (i : nat) : string :=
  NilEmpty.string_of_uint (N.to_uint (N.of_nat i)).

(** The paths [`tree/meta${i}.js`] and [`tree/toc${i}.js`], for the stems
    "tree/meta" and "tree/toc". *)
Definition numbered (stem : string) (i : nat) : string := stem ++ decimal i ++ ".js".

(** The loops of lines 1051-1058 and 1069-1076 from the counter [i] on, at
    most [fuel] turns: every numbered file of the previous tree is
    replaced by an empty one, up to the first number that is missing. *)
Fixpoint blank_numbered (fuel : nat) (stem : string) (i : nat) (treeFiles : JsObj File)
         (zip : Zip) : Zip :=
  match fuel with
  | 0 => zip
  | S fuel' =>
      let path := numbered stem i in
      if obj_has path treeFiles
      then blank_numbered fuel' stem (S i) treeFiles
                          (zipAddFile zip path (mkFile "" "application/javascript" ""))
      else zip
  end.

(** The loop as the step runs it: from 1, a turn more than there are
    previous files being enough to meet a missing number. *)
Definition blank_numbered_files (stem : string) (treeFiles : JsObj File) (zip : Zip) : Zip :=
  blank_numbered (S (List.length treeFiles)) stem 1 treeFiles zip.

(** ** "Include resource files": lines 1087-1119 *)

(** [resToInclude]: the icons of the tree pages and the resources of the
    extension they are copied from. *)
Definition resToInclude : list (string * string) :=
  [("tree/icon/toggle.png", "resources/toggle.png");
   ("tree/icon/collapse.png", "resources/collapse.png");
   ("tree/icon/expand.png", "resources/expand.png");
   ("tree/icon/external.png", "resources/external.png");
   ("tree/icon/item.png", "resources/item.png");
   ("tree/icon/fclose.png", "resources/fclose.png");
   ("tree/icon/fopen.png", "resources/fopen.png");
   ("tree/icon/note.png", "resources/note.png");
   ("tree/icon/postit.png", "resources/postit.png")].

Section Resources.
Context {platform : Platform}.

(** One turn of [for (const path in resToInclude)]. *)
Definition include_turn (treeFiles : JsObj File) (zip : Zip) (res : string * string) : Zip :=
  let '(path, name) := res in
  if obj_has path treeFiles then zip
  else match resource_blob name with
       | Some blob => zipAddFile zip path blob
       | None => zip
       end.

Definition include_resources (treeFiles : JsObj File) (zip : Zip) : Zip :=
  fold_left (include_turn treeFiles) resToInclude zip.

End Resources.

(** ** "Generate the zip file and download it": lines 1157-1169 *)

(** [hasNewFile]: some entry of the archive is not a directory (the
    entries the archive may hold for the directories of its paths do not
    count). *)
Definition hasNewFile (zip : Zip) : bool :=
  existsb (fun path =>
             match obj_get path zip with
             | Some zipObj => negb (z_dir zipObj)
             | None => false
             end)
          (obj_keys zip).

(** ** More concrete collaborators and inputs *)

Module Fixture.

(** A collection whose root lists a bookmark titled "Work", with a page,
    not listed, that asks for the folder "Work" / "Projects". *)
Definition bookmark_work : RunState :=
  mkRun [("W", mkMeta None None (Some "Work") (Some "bookmark") None None None None None
                      None None);
         ("X", Sample.hinted_meta)]
        (import_toc [] [[("root", ["W"])]])
        [("X", Sample.dir ["X/index.html"])] 0.

(** The state in which the insertion finds a page with that hint, in a
    table of contents whose root lists a page "P" and a folder "F", with a
    page titled "Work" inside "F"; the title map is the one the pruning
    makes of it. *)
Definition busy_state : TocState :=
  mkTocSt [("root", ["P"; "F"]); ("F", ["Q"])]
          [("P", Sample.page None (Some "P.html") (Some "Other") None None);
           ("F", mkMeta None None (Some "Archive") (Some "folder") None None None None None
                        None None);
           ("Q", Sample.page None (Some "Q.html") (Some "Work") None None);
           ("X", Sample.hinted_meta)]
          [(Some "Work", "Q"); (Some "Archive", "F"); (Some "Other", "P")] 1.

(** Legacy time stamps of fourteen digits, widened by three zeros. *)
Definition legacy : LegacyHost := {|
  dateToId_idToDateOld := fun s => s ++ "000";
  dateToId_Date := fun s => s
|}.

Definition platform : Platform := {|
  mime_lookup := fun filename => if endsWith filename ".html" then "text/html" else "";
  resource_blob := fun name => Some (mkFile "" "image/png" name)
|}.

(** An [index.dat] of legacy ScrapBook X. *)
Definition index_dat : string :=
  join (String LF "")
       ["id" ++ String TAB "20200101000000";
        "type" ++ String TAB "notex";
        "title" ++ String TAB "A note";
        "comment" ++ String TAB "first __BR__ second";
        "icon" ++ String TAB "resource://scrapbook/data/20200101000000/favicon.ico";
        "create" ++ String TAB "20200101000000"].


(** A host whose network answers every request with a page. *)
Definition pages_only : Host := {|
  dateToId := Sample.decimalId;
  idToDate := Sample.decimalTime;
  clock := fun _ => Sample.now;
  outer_index := Unbound;
  urlToFilename := Sample.lastSegment;
  filenameParts := fun name => (name, None);
  mime_extension := fun _ => None;
  sha1 := fun bytes => bytes;
  dataUriToFile := fun _ => None;
  xhr := fun _ url => Some (mkXhr url (mkFile "" "text/html" "<html></html>") None)
|}.

End Fixture.

(** * Properties *)

(** ** Objects *)

Section JsObjectFacts.
Variable V : Type.
Implicit Types (o : JsObj V) (k : string) (v : V).

Lemma obj_get_set_eq k v o : obj_get k (obj_set k v o) = Some v.
Proof.
  induction o as [|[k' v'] o IH]; simpl.
  - now rewrite String.eqb_refl.
  - destruct (String.eqb k' k) eqn:E; simpl.
    + now rewrite String.eqb_refl.
    + now rewrite E.
Qed.

Lemma obj_get_set_neq k k' v o :
  k <> k' -> obj_get k' (obj_set k v o) = obj_get k' o.
Proof.
  intros Hne. induction o as [|[k1 v1] o IH]; simpl.
  - destruct (String.eqb_spec k k'); congruence.
  - destruct (String.eqb_spec k1 k) as [->|Hk]; simpl.
    + destruct (String.eqb_spec k k'); congruence.
    + destruct (String.eqb_spec k1 k'); auto.
Qed.

Lemma obj_get_del_eq k o : obj_get k (obj_del k o) = None.
Proof.
  induction o as [|[k1 v1] o IH]; simpl; auto.
  destruct (String.eqb k1 k) eqn:E; simpl; auto.
  now rewrite E.
Qed.

Lemma obj_get_del_neq k k' o :
  k <> k' -> obj_get k' (obj_del k o) = obj_get k' o.
Proof.
  intros Hne. induction o as [|[k1 v1] o IH]; simpl; auto.
  destruct (String.eqb_spec k1 k) as [->|Hk]; simpl.
  - destruct (String.eqb_spec k k'); congruence.
  - now rewrite IH.
Qed.

Lemma obj_get_set k k' v o :
  obj_get k' (obj_set k v o) = if String.eqb k k' then Some v else obj_get k' o.
Proof.
  destruct (String.eqb_spec k k') as [->|Hne].
  - apply obj_get_set_eq.
  - now apply obj_get_set_neq.
Qed.

Lemma obj_get_del k k' o :
  obj_get k' (obj_del k o) = if String.eqb k k' then None else obj_get k' o.
Proof.
  destruct (String.eqb_spec k k') as [->|Hne].
  - apply obj_get_del_eq.
  - now apply obj_get_del_neq.
Qed.

Lemma obj_get_In k v o : obj_get k o = Some v -> In (k, v) o.
Proof.
  induction o as [|[k1 v1] o IH]; simpl; [discriminate|].
  destruct (String.eqb_spec k1 k) as [->|Hk]; intros H.
  - injection H as ->. now left.
  - right. auto.
Qed.

Lemma obj_get_None_notin k o : obj_get k o = None -> ~ In k (map fst o).
Proof.
  induction o as [|[k1 v1] o IH]; simpl; [tauto|].
  destruct (String.eqb_spec k1 k) as [->|Hk]; [discriminate|].
  intros H [E|HIn]; [congruence|]. now apply IH.
Qed.

Lemma obj_get_in_keys k v o : obj_get k o = Some v -> In k (obj_keys o).
Proof.
  intros H. unfold obj_keys. apply nodup_In.
  apply obj_get_In in H. now apply (in_map fst) in H.
Qed.

Lemma obj_keys_get k o : In k (obj_keys o) -> exists v, obj_get k o = Some v.
Proof.
  unfold obj_keys. rewrite nodup_In. intros H.
  destruct (obj_get k o) eqn:E; [eauto|].
  now apply obj_get_None_notin in E.
Qed.

Lemma obj_keys_NoDup o : NoDup (obj_keys o).
Proof. apply NoDup_nodup. Qed.

Lemma obj_has_get k o : obj_has k o = true <-> exists v, obj_get k o = Some v.
Proof.
  unfold obj_has. destruct (obj_get k o); split; eauto; try discriminate.
  intros [v H]; discriminate.
Qed.

Lemma obj_has_false k o : obj_has k o = false <-> obj_get k o = None.
Proof.
  unfold obj_has. destruct (obj_get k o); split; congruence.
Qed.

Lemma obj_has_set k k' v o :
  obj_has k' (obj_set k v o) = String.eqb k k' || obj_has k' o.
Proof.
  unfold obj_has. rewrite obj_get_set. now destruct (String.eqb k k').
Qed.

Lemma obj_has_del k k' o :
  obj_has k' (obj_del k o) = negb (String.eqb k k') && obj_has k' o.
Proof.
  unfold obj_has. rewrite obj_get_del. now destruct (String.eqb k k').
Qed.

End JsObjectFacts.

(** ** Probing for the index file *)

(** C5. [getIndexPath] answers with the first candidate of
    [<id>/index.html], [<id>.html], [<id>.htm], [<id>.xhtml], [<id>.xht],
    [<id>.maff], [<id>.htz], [<id>.mht], [<id>.epub] that exists among the
    item's files, and with null exactly when none of them exists. *)
Theorem getIndexPath_first_existing (itemFiles : ItemFiles) (id : string) :
  getIndexPath itemFiles id
  = find (fun candidate => obj_has candidate itemFiles) (index_candidates id)
  /\ (getIndexPath itemFiles id = None
      <-> forall candidate, In candidate (index_candidates id) ->
                            obj_has candidate itemFiles = false).
Proof.
  assert (E : getIndexPath itemFiles id
              = find (fun candidate => obj_has candidate itemFiles) (index_candidates id)).
  { unfold getIndexPath, index_candidates. simpl.
    repeat match goal with
           | |- context [if obj_has ?c itemFiles then _ else _] =>
               destruct (obj_has c itemFiles); [reflexivity|]
           end.
    reflexivity. }
  split; [exact E|]. rewrite E. split.
  - intros Hnone c Hc. exact (find_none _ _ Hnone c Hc).
  - intros Hall. destruct (find _ _) as [c|] eqn:F; [|reflexivity].
    apply find_some in F. destruct F as [Hin Hhas].
    rewrite (Hall c Hin) in Hhas. discriminate.
Qed.

(** ** The legacy per-item sidecar *)

Lemma split_on_nonempty c s : split_on c s <> [].
Proof.
  destruct s as [|a s]; simpl; [discriminate|].
  destruct (Ascii.eqb a c); [discriminate|].
  destruct (split_on c s); discriminate.
Qed.

Lemma join_split_on c s : join (String c "") (split_on c s) = s.
Proof.
  unfold join. induction s as [|a s IH]; simpl; auto.
  destruct (Ascii.eqb_spec a c) as [->|Hne].
  - pose proof (split_on_nonempty c s) as Hn.
    destruct (split_on c s) as [|w ws] eqn:E; [congruence|].
    simpl in *. now rewrite IH.
  - destruct (split_on c s) as [|w ws] eqn:E.
    + now apply split_on_nonempty in E.
    + simpl in *. destruct ws; simpl in *; now rewrite <- IH.
Qed.

Lemma split_on_head_clean c s k rest :
  split_on c s = k :: rest -> contains_char c k = false.
Proof.
  revert k rest. induction s as [|a s IH]; simpl; intros k rest H.
  - now injection H as <- <-.
  - destruct (Ascii.eqb a c) eqn:E.
    + now injection H as <- <-.
    + destruct (split_on c s) as [|w ws] eqn:E2.
      * now apply split_on_nonempty in E2.
      * injection H as <- <-. simpl. rewrite E. eapply IH; eauto.
Qed.

Lemma split_on_prefix c key value :
  contains_char c key = false ->
  split_on c (key ++ String c value) = key :: split_on c value.
Proof.
  induction key as [|a key IH]; simpl; intros H.
  - now rewrite Ascii.eqb_refl.
  - destruct (Ascii.eqb a c); [discriminate|].
    now rewrite (IH H).
Qed.

Lemma prefix_app p s : String.prefix p s = true -> s = p ++ slice_from (String.length p) s.
Proof.
  revert s. induction p as [|a p IH]; intros s H.
  - now destruct s.
  - destruct s as [|b s]; simpl in H; [discriminate|].
    destruct (ascii_dec a b) as [->|]; [|discriminate].
    simpl. f_equal. auto.
Qed.

Lemma prefix_app_intro p s : String.prefix p (p ++ s) = true.
Proof.
  induction p as [|a p IH]; simpl; [now destruct s|].
  destruct (ascii_dec a a); congruence.
Qed.

Lemma slice_from_app p s : slice_from (String.length p) (p ++ s) = s.
Proof. induction p; simpl; auto. Qed.

Lemma startsWith_other a c p s : a <> c -> startsWith (String c s) (String a p) = false.
Proof.
  intros H. unfold startsWith.
  change (String.prefix (String a p) (String c s))
    with (if ascii_dec a c then String.prefix p s else false).
  destruct (ascii_dec a c); [contradiction|reflexivity].
Qed.

(** A character that starts no line terminator. *)
Lemma no_line_break_plain a s :
  a <> LF -> a <> CR -> a <> "226"%char ->
  no_line_break (String a s) = no_line_break s.
Proof.
  intros H1 H2 H3. cbn [no_line_break]. unfold line_break_at, LS, PS.
  rewrite !startsWith_other by congruence. reflexivity.
Qed.

Lemma line_break_at_head a s :
  line_break_at (String a s) = true -> a = LF \/ a = CR \/ a = "226"%char.
Proof.
  intros H. destruct (ascii_dec a LF) as [|H1]; [auto|].
  destruct (ascii_dec a CR) as [|H2]; [auto|].
  destruct (ascii_dec a "226"%char) as [|H3]; [auto|].
  unfold line_break_at, LS, PS in H. rewrite !startsWith_other in H by congruence.
  discriminate H.
Qed.

Lemma append_assoc_tab key value :
  (key ++ String TAB "") ++ value = key ++ String TAB value.
Proof. induction key; simpl; congruence. Qed.

Lemma length_append_tab key : String.length (key ++ String TAB "") = S (String.length key).
Proof. induction key; simpl; congruence. Qed.

(** A line binds [key] exactly when it splits into [key] and at least one
    more field; the bound value is those fields joined again. *)
Lemma binds_split key line :
  binds key line = true <->
  exists v values, split_on TAB line = key :: v :: values.
Proof.
  unfold binds, startsWith. split.
  - intros H. apply andb_true_iff in H. destruct H as [Hp Hk].
    apply negb_true_iff in Hk. apply prefix_app in Hp.
    rewrite length_append_tab, append_assoc_tab in Hp.
    rewrite Hp, split_on_prefix by assumption.
    pose proof (split_on_nonempty TAB (slice_from (S (String.length key)) line)).
    destruct (split_on TAB _) as [|v values]; [congruence|]. eauto.
  - intros (v & values & E).
    pose proof (split_on_head_clean _ _ E) as Hk.
    assert (J : line = (key ++ String TAB "") ++ join (String TAB "") (v :: values)).
    { rewrite append_assoc_tab. rewrite <- (join_split_on TAB line) at 1.
      now rewrite E. }
    rewrite J, prefix_app_intro, Hk. reflexivity.
Qed.

Lemma bound_value_split key line v values :
  split_on TAB line = key :: v :: values ->
  join (String TAB "") (v :: values) = bound_value key line.
Proof.
  intros E.
  assert (J : line = (key ++ String TAB "") ++ join (String TAB "") (v :: values)).
  { rewrite append_assoc_tab. rewrite <- (join_split_on TAB line) at 1.
    now rewrite E. }
  unfold bound_value. rewrite <- length_append_tab.
  rewrite J at 1. now rewrite slice_from_app.
Qed.

Lemma parseIndexDat_line_get meta d key :
  obj_get key (parseIndexDat_line meta d)
  = if binds key d && negb (String.eqb key "__proto__")
    then Some (Some (bound_value key d)) else obj_get key meta.
Proof.
  unfold parseIndexDat_line.
  destruct (split_on TAB d) as [|k [|v values]] eqn:E.
  - now apply split_on_nonempty in E.
  - destruct (binds key d) eqn:B; auto.
    apply binds_split in B. destruct B as (? & ? & B). congruence.
  - destruct (String.eqb_spec k "__proto__") as [-> | Hproto].
    + destruct (String.eqb_spec key "__proto__") as [-> | Hk].
      * now rewrite andb_false_r.
      * destruct (binds key d) eqn:B; auto.
        apply binds_split in B. destruct B as (? & ? & B). congruence.
    + rewrite obj_get_set. destruct (String.eqb_spec k key) as [->|Hne].
      * rewrite (proj2 (binds_split key d)) by eauto.
        apply String.eqb_neq in Hproto. rewrite Hproto.
        erewrite bound_value_split; [reflexivity | exact E].
      * destruct (binds key d) eqn:B; auto.
        apply binds_split in B. destruct B as (? & ? & B). congruence.
Qed.

Lemma parseIndexDat_fold_get data meta key :
  key <> "__proto__" ->
  obj_get key (fold_left parseIndexDat_line data meta)
  = match find (binds key) (rev data) with
    | Some line => Some (Some (bound_value key line))
    | None => obj_get key meta
    end.
Proof.
  intros Hk. apply String.eqb_neq in Hk.
  revert meta. induction data as [|d data IH] using rev_ind; intros meta; simpl; auto.
  rewrite fold_left_app, rev_app_distr. simpl.
  rewrite parseIndexDat_line_get, Hk, andb_true_r. destruct (binds key d); auto.
Qed.

Lemma parseIndexDat_fold_proto data meta :
  obj_get "__proto__" (fold_left parseIndexDat_line data meta) = obj_get "__proto__" meta.
Proof.
  revert meta. induction data as [|d data IH]; intros meta; cbn [fold_left]; [reflexivity|].
  rewrite IH, parseIndexDat_line_get. now rewrite andb_false_r.
Qed.

(** C8 (as amended).  [parseIndexDat] answers null exactly when the text has
    fewer than two lines.  Otherwise it answers a mapping in which a key
    other than "__proto__" is bound by the last line that reads "key, tab,
    value" to the text after that first tab, and is left as in the default
    entry when no line has that form: a line without a tab binds nothing.
    Nor does a line whose first field is "__proto__", a key the mapping
    never has.  ([binds key line] tells that [line] is [key], which has no
    tab, then a tab, then a text, which is [bound_value key line].) *)
Theorem parseIndexDat_valid (text : string) :
  (parseIndexDat text = None <-> List.length (split_on LF text) < 2)
  /\ match parseIndexDat text with
     | None => True
     | Some meta =>
         forall key,
           obj_get key meta
           = if String.eqb key "__proto__" then None
             else match find (binds key) (rev (split_on LF text)) with
                  | Some line => Some (Some (bound_value key line))
                  | None => obj_get key getDefaultMeta_obj
                  end
     end
  /\ (forall key value,
        contains_char TAB key = false ->
        binds key (key ++ String TAB value) = true
        /\ bound_value key (key ++ String TAB value) = value)
  /\ (forall key line,
        binds key line = true ->
        contains_char TAB key = false
        /\ exists value, line = key ++ String TAB value).
Proof.
  split; [|split; [|split]].
  - unfold parseIndexDat.
    destruct (Nat.ltb_spec (List.length (split_on LF text)) 2) as [Hlt|Hge].
    + tauto.
    + split; [discriminate | lia].
  - unfold parseIndexDat.
    destruct (Nat.ltb (List.length (split_on LF text)) 2); [exact I|].
    intros key. destruct (String.eqb_spec key "__proto__") as [-> | Hk].
    + apply parseIndexDat_fold_proto.
    + now apply parseIndexDat_fold_get.
  - intros key value Hk. unfold binds, bound_value, startsWith. split.
    + rewrite <- (append_assoc_tab key value), prefix_app_intro, Hk. reflexivity.
    + rewrite <- length_append_tab, <- (append_assoc_tab key value).
      apply slice_from_app.
  - intros key line H. unfold binds, startsWith in H. apply andb_true_iff in H.
    destruct H as [Hp Hk]. apply negb_true_iff in Hk. split; [exact Hk|].
    apply prefix_app in Hp. rewrite append_assoc_tab in Hp. eauto.
Qed.

(** C8, the sentence as written, fails on the two-line text "abc", "def":
    the text is valid, yet neither line's first field becomes a key.  It
    fails as well on a line whose first field is "__proto__": the
    assignment binds nothing. *)
Lemma parseIndexDat_untabbed_line :
  (exists meta,
      parseIndexDat ("abc" ++ String LF "def") = Some meta
      /\ ~ every_line_is_bound ("abc" ++ String LF "def") meta)
  /\ (exists meta,
        parseIndexDat ("__proto__" ++ String TAB "x" ++ String LF "title" ++ String TAB "t")
        = Some meta
        /\ ~ every_line_is_bound
               ("__proto__" ++ String TAB "x" ++ String LF "title" ++ String TAB "t") meta).
Proof.
  split.
  - eexists. split; [reflexivity|].
    intros H. destruct (H "abc") as (key & values & E & value & G).
    + simpl. now left.
    + simpl in E. injection E as <- <-. discriminate G.
  - eexists. split; [reflexivity|].
    intros H. destruct (H ("__proto__" ++ String TAB "x")) as (key & values & E & value & G).
    + simpl. now left.
    + simpl in E. injection E as <- <-. discriminate G.
Qed.

(** ** The favicon cache *)

Section FaviconFacts.
Context {host : Host}.
Variable treeFiles : JsObj File.

Lemma favicon_url_truthy index path : truthy (Some (favicon_url index path)) = true.
Proof. unfold favicon_url. now destruct (contains_char "/" index). Qed.

Lemma or_empty_js_or v : or_empty (js_or v (Some "")) = or_empty v.
Proof.
  unfold js_or. destruct v as [s|]; simpl; auto.
  destruct (String.eqb_spec s ""); simpl; congruence.
Qed.

Lemma js_or_default v : js_or v (Some "") = Some (or_empty v).
Proof.
  unfold js_or. destruct v as [s|]; simpl; auto.
  destruct (String.eqb_spec s ""); simpl; congruence.
Qed.

Lemma access_icon_spec url st :
  access_sound st ->
  let '(p, st') := access_icon url st in
  access_sound st' /\ access_grows st st'
  /\ access_get url (ic_access st') = Some p
  /\ ic_meta st' = ic_meta st.
Proof.
  intros (Hnd & Hin & Hres). unfold access_icon.
  destruct (access_get url (ic_access st)) as [prev|] eqn:E.
  - repeat split; auto. intros ? ?; auto.
  - unfold access_sound, access_grows. simpl. repeat split.
    + constructor; auto. intros Hc. now apply Hin in Hc.
    + intros u [<-|Hu].
      * now rewrite String.eqb_refl.
      * destruct (String.eqb url u); [discriminate|]. now apply Hin.
    + intros u p. destruct (String.eqb_spec url u) as [<-|Hne].
      * intros [= <-]. eauto.
      * apply Hres.
    + intros u p Hu. destruct (String.eqb_spec url u) as [<-|Hne]; [congruence|auto].
    + now rewrite String.eqb_refl.
Qed.

(** One task: it settles its own item and leaves the others alone. *)
Lemma icon_turn_spec st id :
  access_sound st ->
  let st' := icon_turn treeFiles st id in
  access_sound st' /\ access_grows st st'
  /\ (forall id', id' <> id -> obj_get id' (ic_meta st') = obj_get id' (ic_meta st))
  /\ (forall meta, obj_get id (ic_meta st) = Some meta -> icon_settled id meta st').
Proof.
  intros Hs. unfold icon_turn.
  destruct (obj_get id (ic_meta st)) as [meta|] eqn:G.
  2:{ repeat split; auto; try apply Hs. intros ? ?; auto. discriminate. }
  unfold icon_settled, is_external.
  destruct (truthy (m_icon meta)) eqn:T; simpl.
  2:{ repeat split; try apply Hs; simpl.
      - intros ? ?; auto.
      - intros id' Hne. now apply obj_get_set_neq.
      - intros m [= <-]. rewrite T. simpl.
        rewrite obj_get_set_eq. now rewrite js_or_default. }
  destruct (contains_char ":" (or_empty (m_icon meta))) eqn:C; simpl.
  2:{ repeat split; try apply Hs; simpl.
      - intros ? ?; auto.
      - intros id' Hne. now apply obj_get_set_neq.
      - intros m [= <-]. rewrite T, C. simpl.
        rewrite obj_get_set_eq. now rewrite js_or_default. }
  pose proof (access_icon_spec (or_empty (m_icon meta)) Hs) as A.
  destruct (access_icon (or_empty (m_icon meta)) st) as [file st1].
  destruct A as (Hs1 & Hg & Hget & Hm).
  destruct file as [file|]; simpl.
  - repeat split; try apply Hs1; simpl; auto.
    + intros id' Hne. rewrite obj_get_set_neq by congruence. now rewrite Hm.
    + intros m [= <-]. rewrite T, C. simpl. exists (Some file). split; auto.
      rewrite obj_get_set_eq, or_empty_js_or. unfold icon_after, js_or.
      now rewrite favicon_url_truthy.
  - repeat split; try apply Hs1; simpl; auto.
    + intros id' Hne. rewrite obj_get_set_neq by congruence. now rewrite Hm.
    + intros m [= <-]. rewrite T, C. simpl. exists None. split; auto.
      now rewrite obj_get_set_eq.
Qed.

Lemma icon_settled_stable id meta st st' :
  icon_settled id meta st ->
  access_grows st st' ->
  obj_get id (ic_meta st') = obj_get id (ic_meta st) ->
  icon_settled id meta st'.
Proof.
  unfold icon_settled. intros H Hg He.
  destruct (is_external (m_icon meta)).
  - destruct H as (outcome & Ha & Hm). exists outcome. split; auto. congruence.
  - congruence.
Qed.

(** The tasks of a list of distinct items, by induction on the list. *)
Lemma icon_loop_spec ids :
  NoDup ids -> forall st,
  access_sound st ->
  let r := fold_left (icon_turn treeFiles) ids st in
  access_sound r /\ access_grows st r
  /\ (forall id, ~ In id ids -> obj_get id (ic_meta r) = obj_get id (ic_meta st))
  /\ (forall id meta, In id ids -> obj_get id (ic_meta st) = Some meta ->
                      icon_settled id meta r).
Proof.
  induction 1 as [|id ids Hnotin Hnd IH]; intros st Hs; simpl.
  - split; [assumption|]. split; [now unfold access_grows|].
    split; [reflexivity|]. intros ? ? [].
  - destruct (icon_turn_spec id Hs) as (Hs1 & Hg1 & Hothers & Hself).
    destruct (IH _ Hs1) as (Hsr & Hgr & Hout & Hin).
    split; [assumption|]. split; [|split].
    + unfold access_grows in *. auto.
    + intros id' Hn. simpl in Hn. rewrite Hout by tauto. apply Hothers.
      intros ->. tauto.
    + intros id' meta [<-|Hi] Hget.
      * eapply icon_settled_stable; eauto.
      * apply Hin; auto. rewrite Hothers; auto. intros ->. tauto.
Qed.

Lemma cache_favicons_spec metas zip :
  let r := cache_favicons treeFiles metas zip in
  access_sound r
  /\ forall id meta, obj_get id metas = Some meta -> icon_settled id meta r.
Proof.
  unfold cache_favicons.
  destruct (@icon_loop_spec (obj_keys metas) (obj_keys_NoDup metas)
                            (mkIcon metas zip [] [])) as (Hs & _ & _ & Hin).
  { repeat split; simpl; try constructor; try tauto; discriminate. }
  split; auto. intros id meta Hget. apply Hin; auto.
  eapply obj_get_in_keys; eauto.
Qed.

(** A fetched icon is named after the hash of its bytes. *)
Lemma fetch_icon_name n url file :
  fetch_icon n url = Some file ->
  startsWith url "data:" = false ->
  exists ext, f_name file = sha1 (f_bytes file) ++ ext.
Proof.
  unfold fetch_icon. intros H Hd. rewrite Hd in H.
  destruct (xhr n url) as [r|]; [|discriminate].
  destruct (_ && _); [discriminate|].
  injection H as <-. simpl. eauto.
Qed.

(** Two items whose icon is the same external URL or data URI: the
    source is resolved at most once in the pass, and both icons are built
    from the one recorded answer. *)
Lemma favicon_shared_outcome (metas : Metas) (zip : Zip) (id1 id2 url : string)
        (meta1 meta2 : Meta) :
  obj_get id1 metas = Some meta1 ->
  obj_get id2 metas = Some meta2 ->
  m_icon meta1 = Some url ->
  m_icon meta2 = Some url ->
  is_external (Some url) = true ->
  let r := cache_favicons treeFiles metas zip in
  count_occ string_dec (ic_fetched r) url <= 1
  /\ exists n meta1' meta2',
       obj_get id1 (ic_meta r) = Some meta1'
       /\ obj_get id2 (ic_meta r) = Some meta2'
       /\ m_icon meta1' = icon_after meta1 (fetch_icon n url)
       /\ m_icon meta2' = icon_after meta2 (fetch_icon n url)
       /\ forall file, fetch_icon n url = Some file ->
                       startsWith url "data:" = false ->
                       exists ext, f_name file = sha1 (f_bytes file) ++ ext.
Proof.
  intros G1 G2 I1 I2 Hext r.
  destruct (cache_favicons_spec metas zip) as ((Hnd & _ & Hres) & Hset).
  fold r in Hnd, Hres, Hset. split.
  - now apply NoDup_count_occ.
  - pose proof (Hset _ _ G1) as S1. pose proof (Hset _ _ G2) as S2.
    unfold icon_settled in S1, S2. rewrite I1 in S1. rewrite I2 in S2.
    rewrite Hext in S1, S2. simpl in S1, S2.
    destruct S1 as (o1 & A1 & M1). destruct S2 as (o2 & A2 & M2).
    assert (o2 = o1) by congruence. subst o2.
    destruct (Hres _ _ A1) as (n & ->).
    exists n, (set_icon (icon_after meta1 (fetch_icon n url)) meta1),
           (set_icon (icon_after meta2 (fetch_icon n url)) meta2).
    repeat split; auto.
    intros file Hf Hd. eapply fetch_icon_name; eauto.
Qed.

(** C10. The favicon pass keeps the icon of every item whose icon is not
    empty and has no ":" in it; more generally an icon without ":" keeps its
    text, and only an icon with ":" is replaced, by a path into the favicon
    cache or by the empty string; no other field changes. *)
Theorem favicon_pass_frame (metas : Metas) (zip : Zip) (id : string) (meta : Meta) :
  obj_get id metas = Some meta ->
  exists meta',
    obj_get id (ic_meta (cache_favicons treeFiles metas zip)) = Some meta'
    /\ meta' = set_icon (m_icon meta') meta
    /\ (forall icon, m_icon meta = Some icon -> icon <> "" ->
                     contains_char ":" icon = false -> m_icon meta' = Some icon)
    /\ (if is_external (m_icon meta)
        then m_icon meta' = Some ""
             \/ exists file, m_icon meta'
                             = Some (favicon_url (or_empty (m_index meta)) (favicon_path file))
        else m_icon meta' = Some (or_empty (m_icon meta))).
Proof.
  intros G.
  destruct (cache_favicons_spec metas zip) as (_ & Hset).
  specialize (Hset _ _ G). unfold icon_settled in Hset.
  destruct (is_external (m_icon meta)) eqn:E.
  - destruct Hset as (outcome & _ & Hm). eexists. split; [exact Hm|].
    split; [reflexivity|]. split.
    + intros icon Hi _ Hc. unfold is_external in E. rewrite Hi in E. simpl in E.
      rewrite Hc in E. now rewrite andb_false_r in E.
    + destruct outcome as [file|]; simpl; eauto.
  - eexists. split; [exact Hset|]. split; [reflexivity|]. split.
    + intros icon Hi _ _. simpl. now rewrite Hi.
    + reflexivity.
Qed.

(** Every source with a recorded access was resolved. *)
Lemma icon_turn_fetched st id :
  (forall url p, access_get url (ic_access st) = Some p -> In url (ic_fetched st)) ->
  forall url p, access_get url (ic_access (icon_turn treeFiles st id)) = Some p ->
                In url (ic_fetched (icon_turn treeFiles st id)).
Proof.
  intros H url p. unfold icon_turn.
  destruct (obj_get id (ic_meta st)) as [meta|]; [|apply H].
  destruct (negb (truthy (m_icon meta)) || negb (contains_char ":" (or_empty (m_icon meta)))).
  { cbn [ic_access ic_fetched]. apply H. }
  unfold access_icon.
  destruct (access_get (or_empty (m_icon meta)) (ic_access st)) as [prev|] eqn:A.
  - destruct prev as [file|]; cbn [ic_access ic_fetched]; apply H.
  - destruct (fetch_icon (List.length (ic_fetched st)) (or_empty (m_icon meta))) as [file|];
      cbn [ic_access ic_fetched access_get];
      (destruct (String.eqb_spec (or_empty (m_icon meta)) url) as [<- | Hne];
       [intros _; now left | intros G; right; exact (H _ _ G)]).
Qed.

Lemma icon_loop_fetched ids : forall st,
  (forall url p, access_get url (ic_access st) = Some p -> In url (ic_fetched st)) ->
  forall url p, access_get url (ic_access (fold_left (icon_turn treeFiles) ids st)) = Some p ->
                In url (ic_fetched (fold_left (icon_turn treeFiles) ids st)).
Proof.
  induction ids as [|id ids IH]; intros st H; cbn [fold_left]; [exact H|].
  apply IH. now apply icon_turn_fetched.
Qed.

(** The archive only grows in the pass. *)
Lemma icon_turn_keeps_zip st id path :
  obj_has path (ic_zip st) = true -> obj_has path (ic_zip (icon_turn treeFiles st id)) = true.
Proof.
  intros H. unfold icon_turn.
  destruct (obj_get id (ic_meta st)) as [meta|]; [|exact H].
  destruct (negb (truthy (m_icon meta)) || negb (contains_char ":" (or_empty (m_icon meta)))).
  { exact H. }
  assert (Hz : ic_zip (snd (access_icon (or_empty (m_icon meta)) st)) = ic_zip st).
  { unfold access_icon.
    destruct (access_get (or_empty (m_icon meta)) (ic_access st)); reflexivity. }
  destruct (access_icon (or_empty (m_icon meta)) st) as [file st1]. cbn [snd] in Hz.
  destruct file as [file|]; cbn [ic_zip]; [|now rewrite Hz].
  destruct (match obj_get (favicon_path file) treeFiles with
            | Some old => Nat.eqb (f_size old) 0
            | None => true
            end); [|now rewrite Hz].
  unfold zipAddFile. rewrite obj_has_set, Hz, H. apply orb_true_r.
Qed.

Lemma icon_loop_keeps_zip ids : forall st path,
  obj_has path (ic_zip st) = true ->
  obj_has path (ic_zip (fold_left (icon_turn treeFiles) ids st)) = true.
Proof.
  induction ids as [|id ids IH]; intros st path H; cbn [fold_left]; [exact H|].
  apply IH. now apply icon_turn_keeps_zip.
Qed.

(** The task of an item with an external icon leaves the cache file of
    its icon at hand. *)
Lemma icon_turn_stages st id meta file :
  access_sound st ->
  obj_get id (ic_meta st) = Some meta ->
  is_external (m_icon meta) = true ->
  access_get (or_empty (m_icon meta)) (ic_access (icon_turn treeFiles st id))
  = Some (Some file) ->
  staged treeFiles (ic_zip (icon_turn treeFiles st id)) (favicon_path file).
Proof.
  intros Hs G Hext. unfold icon_turn. rewrite G.
  unfold is_external in Hext. apply andb_true_iff in Hext. destruct Hext as [T C].
  rewrite T, C. cbn [negb orb].
  pose proof (access_icon_spec (or_empty (m_icon meta)) Hs) as A.
  destruct (access_icon (or_empty (m_icon meta)) st) as [p st1].
  destruct A as (_ & _ & Hget & _).
  destruct p as [file'|]; cbn [ic_access ic_zip]; rewrite Hget; intros [= <-].
  unfold staged.
  destruct (obj_get (favicon_path file') treeFiles) as [old|] eqn:O.
  - destruct (Nat.eqb (f_size old) 0) eqn:Z.
    + left. unfold zipAddFile. rewrite obj_has_set, String.eqb_refl. reflexivity.
    + right. exists old. split; [reflexivity|]. now apply Nat.eqb_neq.
  - left. unfold zipAddFile. rewrite obj_has_set, String.eqb_refl. reflexivity.
Qed.

Lemma icon_loop_stages ids :
  NoDup ids -> forall st id meta file,
  access_sound st ->
  In id ids ->
  obj_get id (ic_meta st) = Some meta ->
  is_external (m_icon meta) = true ->
  access_get (or_empty (m_icon meta))
             (ic_access (fold_left (icon_turn treeFiles) ids st)) = Some (Some file) ->
  staged treeFiles (ic_zip (fold_left (icon_turn treeFiles) ids st)) (favicon_path file).
Proof.
  induction 1 as [|i rest Hni Hnd IH]; intros st id meta file Hs Hin G Hext A; [destruct Hin|].
  cbn [fold_left] in *.
  destruct (icon_turn_spec i Hs) as (Hs1 & _ & Hothers & Hself).
  destruct (icon_loop_spec Hnd Hs1) as (_ & Hgrow & _ & _).
  destruct Hin as [-> | Hin].
  - pose proof (Hself meta G) as S. unfold icon_settled in S. rewrite Hext in S.
    destruct S as (outcome & A1 & _).
    pose proof (Hgrow _ _ A1) as A2. rewrite A in A2. injection A2 as <-.
    destruct (@icon_turn_stages st id meta file Hs G Hext A1) as [Hz|Hold].
    + left. now apply icon_loop_keeps_zip.
    + right. exact Hold.
  - apply (IH (icon_turn treeFiles st i) id meta file); auto.
    rewrite Hothers; [exact G|]. intros ->. tauto.
Qed.

(** C3. Two items whose icon is the same external URL or data URI.  The
    source is resolved exactly once in the pass.  When it answers (the
    data URI decodes, or the request returns an image or an
    "application/octet-stream"), both icons point, each from its own index
    file, at one file under "tree/favicon/" named by the hash of the bytes
    answered and an extension, and that file is in the archive, or kept
    from the previous tree; when it does not, both icons are cleared.  The
    name of a decoded data URI is the one [scrapbook.dataUriToFile] gives,
    which, told as it is on line 935 not to use a name from the URI, names
    the file by the hash of its bytes. *)
Theorem favicon_dedup (metas : Metas) (zip : Zip) (id1 id2 url : string)
        (meta1 meta2 : Meta) :
  (forall uri file, dataUriToFile uri = Some file ->
                    exists ext, f_name file = sha1 (f_bytes file) ++ ext) ->
  obj_get id1 metas = Some meta1 ->
  obj_get id2 metas = Some meta2 ->
  m_icon meta1 = Some url ->
  m_icon meta2 = Some url ->
  is_external (Some url) = true ->
  let r := cache_favicons treeFiles metas zip in
  count_occ string_dec (ic_fetched r) url = 1
  /\ exists n meta1' meta2',
       obj_get id1 (ic_meta r) = Some meta1'
       /\ obj_get id2 (ic_meta r) = Some meta2'
       /\ (forall bytes,
             (if startsWith url "data:"
              then exists file, dataUriToFile url = Some file /\ f_bytes file = bytes
              else exists resp,
                     xhr n url = Some resp /\ f_bytes (x_blob resp) = bytes
                     /\ (startsWith (f_type (x_blob resp)) "image/" = true
                         \/ f_type (x_blob resp) = "application/octet-stream")) ->
             exists ext,
               let path := "tree/favicon/" ++ sha1 bytes ++ ext in
               let up := fun index : option string =>
                           if contains_char "/" (or_empty index) then "../" else "" in
               m_icon meta1' = Some (up (m_index meta1) ++ "../" ++ path)
               /\ m_icon meta2' = Some (up (m_index meta2) ++ "../" ++ path)
               /\ staged treeFiles (ic_zip r) path)
       /\ ((if startsWith url "data:" then dataUriToFile url = None
            else match xhr n url with
                 | None => True
                 | Some resp =>
                     startsWith (f_type (x_blob resp)) "image/" = false
                     /\ f_type (x_blob resp) <> "application/octet-stream"
                 end) ->
           m_icon meta1' = Some "" /\ m_icon meta2' = Some "").
Proof.
  intros Hdec G1 G2 I1 I2 Hext r.
  destruct (cache_favicons_spec metas zip) as ((Hnd & _ & Hres) & Hset).
  fold r in Hnd, Hres, Hset.
  pose proof (Hset _ _ G1) as S1. pose proof (Hset _ _ G2) as S2.
  unfold icon_settled in S1, S2. rewrite I1 in S1. rewrite I2 in S2.
  rewrite Hext in S1, S2. cbn [or_empty] in S1, S2.
  destruct S1 as (o1 & A1 & M1). destruct S2 as (o2 & A2 & M2).
  assert (o2 = o1) by congruence. subst o2.
  assert (Hin : In url (ic_fetched r)).
  { unfold r, cache_favicons.
    refine (@icon_loop_fetched (obj_keys metas) (mkIcon metas zip [] []) _ url o1 A1).
    intros u p. discriminate. }
  assert (Hst : forall file, o1 = Some file -> staged treeFiles (ic_zip r) (favicon_path file)).
  { intros file ->. unfold r, cache_favicons.
    refine (@icon_loop_stages (obj_keys metas) (obj_keys_NoDup metas)
              (mkIcon metas zip [] []) id1 meta1 file _ _ G1 _ _).
    - repeat split; cbn; try constructor; try tauto; discriminate.
    - eapply obj_get_in_keys; eauto.
    - now rewrite I1.
    - rewrite I1. exact A1. }
  split.
  { pose proof (proj1 (count_occ_In string_dec _ _) Hin) as Hpos.
    pose proof (proj1 (NoDup_count_occ string_dec _) Hnd url) as Hle. lia. }
  destruct (Hres _ _ A1) as (n & Hn).
  exists n, (set_icon (icon_after meta1 o1) meta1), (set_icon (icon_after meta2 o1) meta2).
  split; [exact M1|]. split; [exact M2|]. cbn [set_icon m_icon]. split.
  - intros bytes Hans. unfold fetch_icon in Hn.
    destruct (startsWith url "data:") eqn:D.
    + destruct Hans as (file & Hf & Hb). rewrite Hf in Hn. subst o1.
      destruct (Hdec _ _ Hf) as [ext Hname]. exists ext. cbv zeta.
      rewrite <- Hb, <- Hname. cbn [icon_after]. unfold favicon_path in *.
      split; [reflexivity|]. split; [reflexivity|]. now apply Hst.
    + destruct Hans as (resp & Hx & Hb & Hmime). rewrite Hx in Hn.
      assert (Hacc : negb (startsWith (f_type (x_blob resp)) "image/")
                     && negb (String.eqb (f_type (x_blob resp)) "application/octet-stream")
                     = false).
      { destruct Hmime as [Hi | Ho].
        - now rewrite Hi.
        - rewrite Ho, String.eqb_refl. apply andb_false_r. }
      rewrite Hacc in Hn.
      match type of Hn with
      | _ = Some (mkFile (_ ++ ?e) _ _) => exists e
      end.
      cbv zeta. subst o1. rewrite <- Hb. cbn [icon_after]. unfold favicon_path. cbn [f_name].
      split; [reflexivity|]. split; [reflexivity|].
      exact (Hst _ eq_refl).
  - intros Hfail. unfold fetch_icon in Hn.
    destruct (startsWith url "data:").
    + rewrite Hfail in Hn. subst o1. cbn [icon_after]. auto.
    + destruct (xhr n url) as [resp|].
      * destruct Hfail as [Hi Ho]. apply String.eqb_neq in Ho.
        rewrite Hi, Ho in Hn. cbn [negb andb] in Hn. subst o1. cbn [icon_after]. auto.
      * subst o1. cbn [icon_after]. auto.
Qed.

End FaviconFacts.

(** ** Comparing with the previous files *)

Section DiffFacts.
Context {host : Host}.
Variables (treeFiles : JsObj File) (snapshot : Zip).

Lemma bakPath_not_tree path : startsWith (bakPath_of path) "tree/" = false.
Proof. reflexivity. Qed.

Lemma append_inj_l (a b c : string) : a ++ b = a ++ c -> b = c.
Proof. induction a; simpl; intros E; auto. injection E as E. auto. Qed.

Lemma bakPath_inj p q :
  startsWith p "tree/" = true -> startsWith q "tree/" = true ->
  bakPath_of p = bakPath_of q -> p = q.
Proof.
  unfold startsWith, bakPath_of. intros Hp Hq E.
  apply prefix_app in Hp. apply prefix_app in Hq.
  apply append_inj_l in E. congruence.
Qed.

Lemma diff_turn_cases zip path :
  diff_turn treeFiles snapshot zip path
  = match diffable treeFiles snapshot path with
    | Some (oldFile, zipObj) =>
        if same_hash oldFile zipObj then obj_del path zip
        else zipAddFile zip (bakPath_of path) oldFile
    | None => zip
    end.
Proof.
  unfold diff_turn, diffable, same_hash.
  destruct (obj_get path snapshot) as [zipObj|]; [|reflexivity].
  destruct (z_dir zipObj); simpl.
  { now destruct (obj_get path treeFiles). }
  destruct (startsWith path "tree/"); simpl.
  2:{ now destruct (obj_get path treeFiles). }
  destruct (startsWith path "tree/cache/"); simpl.
  { now destruct (obj_get path treeFiles). }
  destruct (obj_get path treeFiles) as [oldFile|]; [|reflexivity].
  now destruct (String.eqb _ _).
Qed.

Lemma diffable_tree path oldFile zipObj :
  diffable treeFiles snapshot path = Some (oldFile, zipObj) ->
  startsWith path "tree/" = true.
Proof.
  unfold diffable.
  destruct (obj_get path snapshot); [|discriminate].
  destruct (obj_get path treeFiles); [|discriminate].
  destruct (startsWith path "tree/"); auto.
  rewrite andb_false_r. discriminate.
Qed.

(** A path under "tree/" is only ever removed, by its own turn. *)
Lemma diff_loop_tree paths q :
  startsWith q "tree/" = true -> forall zip,
  obj_get q (fold_left (diff_turn treeFiles snapshot) paths zip)
  = if existsb (String.eqb q) paths && removes treeFiles snapshot q
    then None else obj_get q zip.
Proof.
  intros Hq. induction paths as [|p paths IH]; intros zip; simpl; auto.
  rewrite IH, diff_turn_cases. unfold removes.
  destruct (String.eqb_spec q p) as [<-|Hne]; simpl.
  - destruct (diffable treeFiles snapshot q) as [[oldFile zipObj]|].
    + destruct (same_hash oldFile zipObj).
      * rewrite obj_get_del_eq. now destruct (existsb _ _).
      * rewrite andb_false_r. unfold zipAddFile.
        rewrite obj_get_set_neq; auto.
        intros E. rewrite <- E, bakPath_not_tree in Hq. discriminate.
    + now rewrite andb_false_r.
  - destruct (existsb (String.eqb q) paths && _); auto.
    destruct (diffable treeFiles snapshot p) as [[oldFile zipObj]|] eqn:D; auto.
    destruct (same_hash oldFile zipObj).
    + apply obj_get_del_neq. congruence.
    + unfold zipAddFile. apply obj_get_set_neq.
      intros E. rewrite <- E, bakPath_not_tree in Hq. discriminate.
Qed.

(** The backup counterpart of a path is only ever written, by that
    path's turn. *)
Lemma diff_loop_bak paths q :
  startsWith q "tree/" = true -> forall zip,
  obj_get (bakPath_of q) (fold_left (diff_turn treeFiles snapshot) paths zip)
  = match (if existsb (String.eqb q) paths then backs treeFiles snapshot q else None) with
    | Some oldFile => Some (mkZipEntry false oldFile)
    | None => obj_get (bakPath_of q) zip
    end.
Proof.
  intros Hq. induction paths as [|p paths IH]; intros zip; simpl; auto.
  rewrite IH, diff_turn_cases. unfold backs.
  destruct (String.eqb_spec q p) as [<-|Hne]; simpl.
  - destruct (diffable treeFiles snapshot q) as [[oldFile zipObj]|].
    + destruct (same_hash oldFile zipObj).
      * destruct (existsb _ _); apply obj_get_del_neq;
          intros E; rewrite E, bakPath_not_tree in Hq; discriminate.
      * unfold zipAddFile. rewrite obj_get_set_eq. now destruct (existsb _ _).
    + now destruct (existsb _ _).
  - destruct (if existsb (String.eqb q) paths then _ else None); auto.
    destruct (diffable treeFiles snapshot p) as [[oldFile zipObj]|] eqn:D; auto.
    pose proof (diffable_tree _ D) as Hp.
    destruct (same_hash oldFile zipObj).
    + apply obj_get_del_neq. intros E. rewrite E, bakPath_not_tree in Hp. discriminate.
    + unfold zipAddFile. apply obj_get_set_neq.
      intros E. apply bakPath_inj in E; auto.
Qed.

End DiffFacts.

Lemma startsWith_cache_tree path :
  startsWith path "tree/cache/" = true -> startsWith path "tree/" = true.
Proof.
  unfold startsWith. intros H. apply prefix_app in H. rewrite H. reflexivity.
Qed.

(** C6 (as amended).  For a file written to the archive under "tree/" and
    outside "tree/cache/" that existed before: equal hashes remove the path
    from the archive and leave its backup counterpart as it was; different
    hashes keep the new file and stage the previous one under "tree.bak/".
    The subtree left out of the comparison is "tree/cache/" (the favicon
    cache, under "tree/favicon/", is compared like the rest). *)
Theorem diff_and_backup_delta {host : Host} (treeFiles : JsObj File) (zip : Zip)
        (path : string) (zipObj : ZipEntry) (oldFile : File) :
  obj_get path zip = Some zipObj ->
  z_dir zipObj = false ->
  startsWith path "tree/" = true ->
  startsWith path "tree/cache/" = false ->
  obj_get path treeFiles = Some oldFile ->
  let out := diff_and_backup treeFiles zip in
  (sha1 (f_bytes oldFile) = sha1 (f_bytes (z_file zipObj)) ->
   obj_get path out = None
   /\ obj_get (bakPath_of path) out = obj_get (bakPath_of path) zip)
  /\ (sha1 (f_bytes oldFile) <> sha1 (f_bytes (z_file zipObj)) ->
      obj_get path out = Some zipObj
      /\ obj_get (bakPath_of path) out = Some (mkZipEntry false oldFile))
  /\ (forall cached, startsWith cached "tree/cache/" = true ->
        obj_get cached out = obj_get cached zip
        /\ obj_get (bakPath_of cached) out = obj_get (bakPath_of cached) zip).
Proof.
  intros Hz Hdir Htree Hcache Hold out.
  assert (Hin : existsb (String.eqb path) (obj_keys zip) = true).
  { apply existsb_exists. exists path. split; [|apply String.eqb_refl].
    eapply obj_get_in_keys; eauto. }
  assert (D : diffable treeFiles zip path = Some (oldFile, zipObj)).
  { unfold diffable. now rewrite Hz, Hold, Hdir, Htree, Hcache. }
  unfold out, diff_and_backup.
  split; [|split].
  - intros E. rewrite diff_loop_tree, diff_loop_bak by assumption.
    unfold removes, backs, same_hash. rewrite Hin, D.
    apply String.eqb_eq in E. now rewrite E.
  - intros E. rewrite diff_loop_tree, diff_loop_bak by assumption.
    unfold removes, backs, same_hash. rewrite Hin, D.
    apply String.eqb_neq in E. now rewrite E.
  - intros cached Hc. pose proof (startsWith_cache_tree _ Hc) as Ht.
    rewrite diff_loop_tree, diff_loop_bak by assumption.
    assert (Dc : diffable treeFiles zip cached = None).
    { unfold diffable. rewrite Hc, Ht.
      destruct (obj_get cached zip); auto. destruct (obj_get cached treeFiles); auto.
      now rewrite andb_false_r. }
    unfold removes, backs. rewrite Dc, andb_false_r.
    split; [reflexivity|]. now destruct (existsb (String.eqb cached) (obj_keys zip)).
Qed.

(** C6, the sentence as written, fails for the favicon cache: a cached
    favicon no item refers to is overwritten with an empty file by the
    sweep, and the comparison then stages the old favicon as a backup. *)
Lemma favicon_cache_is_diffed :
  ~ @favicon_cache_never_diffed (Sample.host Unbound) Sample.previous_tree
      (@sweep_favicons Sample.previous_tree [] []).
Proof.
  intros H. destruct (H "tree/favicon/old.png" eq_refl) as [_ Hbak].
  vm_compute in Hbak. discriminate Hbak.
Qed.

Lemma diff_and_backup_delta_witness :
  let host := Sample.host Unbound in
  let zip := [("tree/meta.js", Sample.new_meta_js)] in
  let out := diff_and_backup Sample.previous_tree zip in
  obj_get "tree/meta.js" zip = Some Sample.new_meta_js
  /\ obj_get "tree/meta.js" out = Some Sample.new_meta_js
  /\ obj_get "tree.bak/meta.js" out
     = Some (mkZipEntry false (mkFile "" "application/javascript" "m0")).
Proof.
  intros host zip out. split; [reflexivity|].
  apply (@diff_and_backup_delta host Sample.previous_tree zip "tree/meta.js"
           Sample.new_meta_js (mkFile "" "application/javascript" "m0"));
    try reflexivity.
  vm_compute. discriminate.
Defined.

(** ** The metadata pass *)

Section MetadataFacts.
Context {host : Host}.

Lemma truthy_or_empty v : truthy (Some (or_empty v)) = truthy v.
Proof. now destruct v. Qed.

Lemma js_or_empty_default v : js_or v (Some "") = Some (or_empty v).
Proof.
  unfold js_or. destruct v as [s|]; simpl; auto.
  destruct (String.eqb_spec s ""); simpl; congruence.
Qed.

Lemma title_fallback id (title source type : option string) (toName : string -> string) :
  js_or (js_or title
               (Some (if negb (String.eqb (or_empty source) "")
                      then toName (or_empty source) else "")))
        (Some (if negb (String.eqb (or_empty type) "separator") then id else ""))
  = (if truthy title then title
     else if truthy source && negb (String.eqb (toName (or_empty source)) "")
          then Some (toName (or_empty source))
          else if String.eqb (or_empty type) "separator" then Some "" else Some id).
Proof.
  change (negb (String.eqb (or_empty source) "")) with (truthy (Some (or_empty source))).
  rewrite truthy_or_empty.
  unfold js_or at 2. destruct (truthy title) eqn:Tt.
  - unfold js_or. now rewrite Tt.
  - unfold js_or. destruct (truthy source); simpl.
    + destruct (negb (String.eqb (toName (or_empty source)) "")); auto.
      now destruct (String.eqb (or_empty type) "separator").
    + now destruct (String.eqb (or_empty type) "separator").
Qed.

(** Lines 805-831, field by field. *)
Lemma fix_fields_fallback id meta tick :
  fallback_of (dateToId (clock tick)) id meta (fst (fix_fields id meta tick)).
Proof.
  unfold fix_fields, fallback_of.
  destruct (truthy (m_modify meta)) eqn:Tm; simpl;
    rewrite ?or_empty_js_or, ?js_or_empty_default;
    (split; [|split; [|split; [|split; [|split; [|split]]]]]);
    try reflexivity; try apply title_fallback.
Qed.

Lemma fallback_of_fix_index id meta dataDirs meta1 now id' after :
  fix_index id meta dataDirs = Some meta1 ->
  fallback_of now id' meta1 after -> fallback_of now id' meta after.
Proof.
  unfold fix_index. intros H F.
  destruct (negb (is_container (m_type meta))); [|now injection H as <-].
  destruct (dirs_lookup id dataDirs) as [itemFiles|]; [|discriminate].
  destruct (_ || _); [|now injection H as <-].
  destruct (getIndexPath itemFiles id); injection H as <-; exact F.
Qed.

(** The rest of a turn always goes on to the next item; it touches the
    entry under [id] only. *)
Lemma finish_turn_spec meta id attached st :
  exists st1,
    finish_turn meta id attached st = Next st1
    /\ (forall id', id' <> id ->
                    obj_get id' (fx_meta st1) = obj_get id' (fx_meta st))
    /\ (forall m, obj_get id (fx_meta st1) = Some m ->
          (attached = true
           /\ exists tick, fallback_of (dateToId (clock tick)) id meta m)
          \/ (attached = false /\ obj_get id (fx_meta st) = Some m)).
Proof.
  unfold finish_turn.
  destruct (fix_index id meta (fx_dirs st)) as [meta1|] eqn:FI.
  - pose proof (fix_fields_fallback id meta1 (fx_tick st)) as F.
    destruct (fix_fields id meta1 (fx_tick st)) as [meta2 tick'].
    eexists. split; [reflexivity|]. simpl. destruct attached.
    + split.
      * intros id' Hne. apply obj_get_set_neq. congruence.
      * intros m. rewrite obj_get_set_eq. intros [= <-]. left. split; auto.
        exists (fx_tick st). eapply fallback_of_fix_index; eauto.
    + split; auto.
  - eexists. split; [reflexivity|]. simpl. split.
    + intros id' Hne. apply obj_get_del_neq. congruence.
    + intros m. rewrite obj_get_del_eq. discriminate.
Qed.

Lemma truthy_Some v : truthy v = true -> v = Some (or_empty v).
Proof. destruct v; simpl; [reflexivity|discriminate]. Qed.

(** One turn that goes on keeps the unvisited entries and settles its own. *)
Lemma meta_turn_step (metas0 : Metas) i rest st st1 :
  ~ In i rest ->
  (forall id, In id (i :: rest) -> obj_get id metas0 <> None) ->
  (forall id, In id (i :: rest) -> obj_get id (fx_meta st) = obj_get id metas0) ->
  (forall id m, obj_get id (fx_meta st) = Some m ->
                In id (i :: rest) \/ fallback_done metas0 id m) ->
  meta_turn i st = Next st1 ->
  (forall id, In id rest -> obj_get id (fx_meta st1) = obj_get id metas0)
  /\ (forall id m, obj_get id (fx_meta st1) = Some m ->
                   In id rest \/ fallback_done metas0 id m).
Proof.
  intros Hni Hsome Hsame Hcover Hturn.
  assert (Hne : forall id, In id rest -> id <> i) by (intros id Hin ->; tauto).
  unfold meta_turn in Hturn.
  assert (Hi : obj_get i (fx_meta st) = obj_get i metas0) by (apply Hsame; now left).
  destruct (obj_get i (fx_meta st)) as [meta|] eqn:Gi.
  2:{ exfalso. apply (Hsome i); [now left|congruence]. }
  destruct (declares_other_id i meta) eqn:Cond.
  - apply andb_true_iff in Cond. destruct Cond as [Tid _].
    apply truthy_Some in Tid. set (newId := or_empty (m_id meta)) in *.
    destruct (obj_get newId (fx_meta st)) as [occupant|] eqn:Gn.
    + destruct outer_index as [|index]; [discriminate|].
      destruct (strict_eq (m_index occupant) index); [discriminate|].
      destruct (finish_turn_spec meta i false
                  (mkFix (obj_del i (fx_meta st)) (fx_dirs st) (fx_tick st)))
        as (st2 & E & Hoth & Hself).
      rewrite E in Hturn. injection Hturn as <-. simpl in *. split.
      * intros id Hin. rewrite Hoth by auto. rewrite obj_get_del_neq by (apply not_eq_sym; auto).
        apply Hsame. now right.
      * intros id m Hg. destruct (string_dec id i) as [->|Hd].
        -- apply Hself in Hg. destruct Hg as [[? _]|[_ Hg]]; [discriminate|].
           rewrite obj_get_del_eq in Hg. discriminate.
        -- rewrite Hoth, obj_get_del_neq in Hg by congruence.
           destruct (Hcover _ _ Hg) as [[?|?]|?]; [congruence|auto|auto].
    + destruct (finish_turn_spec meta newId true
                  (mkFix (obj_del i (obj_set newId meta (fx_meta st)))
                         (repoint_dirs i newId (fx_dirs st)) (fx_tick st)))
        as (st2 & E & Hoth & Hself).
      rewrite E in Hturn. injection Hturn as <-. simpl in *.
      assert (Hnew : forall id, In id rest -> id <> newId).
      { intros id Hin ->. apply (Hsome newId); [now right|].
        rewrite <- Hsame by now right. exact Gn. }
      split.
      * intros id Hin. rewrite Hoth by auto.
        rewrite obj_get_del_neq by (apply not_eq_sym; auto).
        rewrite obj_get_set_neq by (apply not_eq_sym; auto).
        apply Hsame. now right.
      * intros id m Hg. destruct (string_dec id newId) as [->|Hd].
        -- apply Hself in Hg. destruct Hg as [[_ [tick F]]|[? _]]; [|discriminate].
           right. exists i, meta, tick.
           split; [congruence|]. split; [now right|exact F].
        -- rewrite Hoth in Hg by auto.
           destruct (string_dec i id) as [->|Hd2].
           ++ rewrite obj_get_del_eq in Hg. discriminate.
           ++ rewrite obj_get_del_neq, obj_get_set_neq in Hg by congruence.
              destruct (Hcover _ _ Hg) as [[?|?]|?]; [congruence|auto|auto].
  - destruct (finish_turn_spec meta i true st) as (st2 & E & Hoth & Hself).
    rewrite E in Hturn. injection Hturn as <-. split.
    + intros id Hin. rewrite Hoth by auto. apply Hsame. now right.
    + intros id m Hg. destruct (string_dec id i) as [->|Hd].
      * apply Hself in Hg. destruct Hg as [[_ [tick F]]|[? _]]; [|discriminate].
        right. exists i, meta, tick.
        split; [congruence|]. split; [now left|exact F].
      * rewrite Hoth in Hg by auto.
        destruct (Hcover _ _ Hg) as [[?|?]|?]; [congruence|auto|auto].
Qed.

Lemma meta_loop_settles (metas0 : Metas) ids :
  NoDup ids -> forall st st',
  (forall id, In id ids -> obj_get id metas0 <> None) ->
  (forall id, In id ids -> obj_get id (fx_meta st) = obj_get id metas0) ->
  (forall id m, obj_get id (fx_meta st) = Some m ->
                In id ids \/ fallback_done metas0 id m) ->
  meta_loop ids st = Next st' ->
  forall id m, obj_get id (fx_meta st') = Some m -> fallback_done metas0 id m.
Proof.
  induction 1 as [|i rest Hni Hnd IH]; intros st st' Hsome Hsame Hcover Hloop; simpl in Hloop.
  - injection Hloop as <-. intros id m Hg. destruct (Hcover _ _ Hg) as [[]|]; auto.
  - destruct (meta_turn i st) as [st1| |] eqn:T; try discriminate.
    destruct (@meta_turn_step metas0 i rest st st1 Hni Hsome Hsame Hcover T)
      as [Hsame1 Hcover1].
    eapply IH; eauto. intros id Hin. apply Hsome. now right.
Qed.

Lemma meta_loop_completes (metas0 : Metas) ids :
  NoDup ids -> forall st,
  (forall id, In id ids -> obj_get id (fx_meta st) = obj_get id metas0) ->
  (forall id meta, obj_get id metas0 = Some meta -> declares_other_id id meta = false) ->
  exists st', meta_loop ids st = Next st'.
Proof.
  induction 1 as [|i rest Hni Hnd IH]; intros st Hsame Hown; simpl.
  - eauto.
  - assert (T : exists st1, meta_turn i st = Next st1
                 /\ forall id, id <> i ->
                      obj_get id (fx_meta st1) = obj_get id (fx_meta st)).
    { unfold meta_turn. destruct (obj_get i (fx_meta st)) as [meta|] eqn:G; [|eauto].
      rewrite (Hown i meta) by (rewrite <- Hsame by (now left); exact G).
      destruct (finish_turn_spec meta i true st) as (st1 & E & Hoth & _). eauto. }
    destruct T as (st1 & -> & Hoth). apply IH; auto.
    intros id Hin. rewrite Hoth by (intros ->; tauto). apply Hsame. now right.
Qed.

(** When the metadata pass runs to its end, every entry it leaves in the
    metadata map has been through the fallbacks.  The pass does run to its
    end when no entry declares an identifier other than its key. *)
Lemma meta_pass_fallbacks (st : FixState) :
  (forall st', fix_metadata st = Next st' ->
     forall id meta', obj_get id (fx_meta st') = Some meta' ->
                      fallback_done (fx_meta st) id meta')
  /\ ((forall id meta, obj_get id (fx_meta st) = Some meta ->
                       declares_other_id id meta = false) ->
      exists st', fix_metadata st = Next st').
Proof.
  unfold fix_metadata. split.
  - intros st' Hloop id meta' Hg.
    eapply (@meta_loop_settles (fx_meta st) (obj_keys (fx_meta st))); eauto.
    + apply obj_keys_NoDup.
    + intros k Hin. apply obj_keys_get in Hin. destruct Hin as [v ->]. discriminate.
    + intros k m Hk. left. eapply obj_get_in_keys; eauto.
  - intros Hown. eapply meta_loop_completes; eauto. apply obj_keys_NoDup.
Qed.

End MetadataFacts.

(** ** Pruning the table of contents *)

Section PruneFacts.
Variable metas : Metas.

Lemma set_has_In id (s : IdSet) : set_has id s = true <-> In id s.
Proof.
  unfold set_has. rewrite existsb_exists. split.
  - intros (x & Hin & E). apply String.eqb_eq in E. now subst.
  - intros H. exists id. split; auto. apply String.eqb_refl.
Qed.

Lemma filter_refs_spec refs : forall referred titles,
  let '(kept, referred', titles') := filter_refs metas refs referred titles in
  kept = pruned_refs metas refs
  /\ (forall c, In c referred' <-> In c kept \/ In c referred).
Proof.
  induction refs as [|refId refs IH]; intros referred titles; simpl.
  - split; auto. intros c. tauto.
  - unfold obj_has. destruct (obj_get refId metas) as [meta|]; simpl.
    + destruct (is_reserved refId); simpl.
      * apply IH.
      * specialize (IH (refId :: referred) ((m_title meta, refId) :: titles)).
        destruct (filter_refs metas refs (refId :: referred) _) as [[kept referred'] titles'].
        destruct IH as [-> IH]. split; auto.
        intros c. rewrite IH. simpl. tauto.
    + apply IH.
Qed.

(** One turn rewrites the entry of its own key and adds the children it
    keeps to the referred set. *)
Lemma prune_turn_spec st id :
  let st' := prune_turn metas st id in
  obj_get id (pr_toc st') = pruned_entry metas id (obj_get id (pr_toc st))
  /\ (forall k, k <> id -> obj_get k (pr_toc st') = obj_get k (pr_toc st))
  /\ (forall c, In c (pr_referred st')
                <-> In c (pr_referred st)
                    \/ exists refs, obj_get id (pr_toc st') = Some refs /\ In c refs).
Proof.
  unfold prune_turn, pruned_entry.
  destruct (obj_get id (pr_toc st)) as [refs|] eqn:G.
  2:{ rewrite G. repeat split; auto. intros [?|(refs & E & _)]; auto. congruence. }
  destruct (negb (obj_has id metas) && negb (is_reserved id)); simpl.
  { rewrite obj_get_del_eq. repeat split; auto.
    - intros k Hk. apply obj_get_del_neq. congruence.
    - intros [?|(r & E & _)]; auto. discriminate. }
  pose proof (filter_refs_spec refs (pr_referred st) (pr_titles st)) as F.
  destruct (filter_refs metas refs (pr_referred st) (pr_titles st))
    as [[kept referred] titles].
  destruct F as [-> F].
  destruct (Nat.eqb (List.length (pruned_refs metas refs)) 0 && negb (is_reserved id)) eqn:E;
    simpl.
  - rewrite obj_get_del_eq. repeat split; auto.
    + intros k Hk. rewrite obj_get_del_neq, obj_get_set_neq by congruence. reflexivity.
    + rewrite F. apply andb_true_iff in E. destruct E as [E _].
      apply Nat.eqb_eq in E. apply length_zero_iff_nil in E. rewrite E.
      simpl. tauto.
    + intros [?|(r & E' & _)]; [|discriminate]. apply F. now right.
  - rewrite obj_get_set_eq. repeat split; auto.
    + intros k Hk. apply obj_get_set_neq. congruence.
    + rewrite F. intros [?|?]; eauto.
    + intros [?|(r & [= <-] & Hr)]; apply F; auto.
Qed.

Lemma prune_loop_spec ids :
  NoDup ids -> forall st,
  let r := fold_left (prune_turn metas) ids st in
  (forall k, In k ids ->
             obj_get k (pr_toc r) = pruned_entry metas k (obj_get k (pr_toc st)))
  /\ (forall k, ~ In k ids -> obj_get k (pr_toc r) = obj_get k (pr_toc st))
  /\ (forall c, In c (pr_referred r)
                <-> In c (pr_referred st)
                    \/ exists k refs, In k ids /\ obj_get k (pr_toc r) = Some refs
                                      /\ In c refs).
Proof.
  induction 1 as [|id ids Hni Hnd IH]; intros st; simpl.
  - repeat split; auto; try tauto. intros [?|(k & refs & [] & _)]; auto.
  - destruct (prune_turn_spec st id) as (Hself & Hoth & Href).
    destruct (IH (prune_turn metas st id)) as (Hin & Hout & Hr).
    split; [|split].
    + intros k [<-|Hk].
      * rewrite Hout by assumption. exact Hself.
      * rewrite Hin by assumption. rewrite Hoth; auto. intros ->. tauto.
    + intros k Hk. rewrite Hout by tauto. apply Hoth. intros ->. tauto.
    + intros c. rewrite Hr, Href. rewrite <- (Hout id Hni). split.
      * intros [[?|(refs & E & Hc)]|(k & refs & Hk & E & Hc)];
          [now left | right; exists id, refs; auto | right; exists k, refs; auto].
      * intros [?|(k & refs & [<-|Hk] & E & Hc)]; eauto 8.
Qed.

End PruneFacts.

Lemma prune_toc_spec (metas : Metas) (toc : Toc) :
  let pr := prune_toc metas toc in
  (forall k, obj_get k (pr_toc pr) = pruned_entry metas k (obj_get k toc))
  /\ (forall c, In c (pr_referred pr)
                <-> exists k refs, obj_get k (pr_toc pr) = Some refs /\ In c refs).
Proof.
  unfold prune_toc.
  destruct (@prune_loop_spec metas (obj_keys toc) (obj_keys_NoDup toc) (mkPrune toc [] []))
    as (Hin & Hout & Href).
  simpl in *.
  assert (Hget : forall k,
             obj_get k (pr_toc (fold_left (prune_turn metas) (obj_keys toc)
                                          (mkPrune toc [] [])))
             = pruned_entry metas k (obj_get k toc)).
  { intros k. destruct (in_dec string_dec k (obj_keys toc)) as [Hk|Hk]; auto.
    rewrite Hout by assumption.
    destruct (obj_get k toc) eqn:G; auto.
    exfalso. apply Hk. eapply obj_get_in_keys; eauto. }
  split; auto.
  intros c. rewrite Href. split.
  - intros [[]|(k & refs & _ & E & Hc)]. eauto.
  - intros (k & refs & E & Hc). right. exists k, refs. repeat split; auto.
    rewrite Hget in E. destruct (obj_get k toc) eqn:G; [|discriminate].
    eapply obj_get_in_keys; eauto.
Qed.

Lemma pruned_entry_children metas k entry refs c :
  pruned_entry metas k entry = Some refs -> In c refs ->
  obj_has c metas = true /\ is_reserved c = false.
Proof.
  unfold pruned_entry. destruct entry as [refs0|]; [|discriminate].
  destruct (_ && _); [discriminate|]. destruct (_ && _); [discriminate|].
  intros [= <-] Hc. unfold pruned_refs in Hc. apply filter_In in Hc.
  destruct Hc as [_ Hc]. apply andb_true_iff in Hc. destruct Hc as [H1 H2].
  apply negb_true_iff in H2. auto.
Qed.

Lemma pruned_entry_key metas k entry refs :
  pruned_entry metas k entry = Some refs -> is_reserved k = false ->
  obj_has k metas = true /\ refs <> [].
Proof.
  unfold pruned_entry. destruct entry as [refs0|]; [|discriminate].
  intros H Hr. rewrite Hr in H. simpl in H. rewrite !andb_true_r in H.
  destruct (obj_has k metas); simpl in H; [|discriminate].
  destruct (Nat.eqb_spec (List.length (pruned_refs metas refs0)) 0) as [E|E];
    [discriminate|].
  injection H as <-. split; auto. intros E'. rewrite E' in E. auto.
Qed.

Lemma pruned_entry_reserved metas k refs :
  is_reserved k = true ->
  pruned_entry metas k (Some refs) = Some (pruned_refs metas refs).
Proof.
  unfold pruned_entry. intros ->. simpl. now rewrite !andb_false_r.
Qed.

(** ** Fresh identifiers *)

Section UniqueIdFacts.
Context {host : Host}.
Hypothesis dateToId_inj : forall t1 t2 : N, dateToId t1 = dateToId t2 -> t1 = t2.

Lemma obj_has_in_fst (V : Type) k (o : JsObj V) :
  obj_has k o = true -> In k (map fst o).
Proof.
  intros H. apply obj_has_get in H. destruct H as [v H].
  apply obj_get_In in H. now apply (in_map fst) in H.
Qed.

(** The loop ends before its fuel: the candidates are distinct and each
    taken one uses up a key of the map. *)
Lemma getUniqueId_loop_ok (metas : Metas) fuel : forall v keys,
  (forall t, (v < t)%N -> obj_has (dateToId t) metas = true -> In (dateToId t) keys) ->
  List.length keys < fuel ->
  exists k, (0 < k)%N
    /\ getUniqueId_loop fuel v metas = Ok (dateToId (v + k))
    /\ obj_has (dateToId (v + k)) metas = false
    /\ forall j, (0 < j < k)%N -> obj_has (dateToId (v + j)) metas = true.
Proof.
  induction fuel as [|fuel IH]; intros v keys Hkeys Hlen; [lia|]. simpl.
  destruct (obj_has (dateToId (v + 1)) metas) eqn:Hhas.
  - destruct (IH (v + 1)%N (remove string_dec (dateToId (v + 1)) keys))
      as (k & Hk & E & Hfree & Hused).
    + intros t Ht Hh. apply in_in_remove.
      * intros Heq. apply dateToId_inj in Heq. lia.
      * apply Hkeys; auto. lia.
    + assert (In (dateToId (v + 1)) keys) by (apply Hkeys; auto; lia).
      pose proof (remove_length_lt string_dec keys (dateToId (v + 1)) H). lia.
    + exists (1 + k)%N. replace (v + (1 + k))%N with (v + 1 + k)%N by lia.
      repeat split; auto; try lia.
      intros j Hj. destruct (N.eq_dec j 1) as [->|Hne]; auto.
      replace (v + j)%N with (v + 1 + (j - 1))%N by lia. apply Hused. lia.
  - exists 1%N. repeat split; auto; try lia.
Qed.

(** [getUniqueId] returns, and returns an identifier that is not in use:
    the one given, or the first free one among the following instants. *)
Lemma getUniqueId_ok (metas : Metas) (id : string) :
  exists fresh, getUniqueId id metas = Ok fresh
    /\ obj_has fresh metas = false
    /\ (fresh = id
        \/ exists k, (0 < k)%N /\ fresh = dateToId (idToDate id + k)
             /\ obj_has id metas = true
             /\ forall j, (0 < j < k)%N ->
                          obj_has (dateToId (idToDate id + j)) metas = true).
Proof.
  unfold getUniqueId. destruct (obj_has id metas) eqn:Hhas; simpl.
  - destruct (@getUniqueId_loop_ok metas (S (List.length metas)) (idToDate id)
                                   (map fst metas))
      as (k & Hk & E & Hfree & Hused).
    + intros t _ Ht. now apply obj_has_in_fst.
    + rewrite length_map. lia.
    + eexists. split; [exact E|]. split; auto. right. exists k. auto.
  - eauto.
Qed.

Lemma generateFolder_ok (title : string) (metas : Metas) (tick : nat) :
  exists folderId,
    generateFolder title metas tick
    = Ok (folderId, obj_set folderId (folder_meta title folderId) metas, S tick)
    /\ getUniqueId (dateToId (clock tick)) metas = Ok folderId
    /\ obj_has folderId metas = false.
Proof.
  unfold generateFolder.
  destruct (getUniqueId_ok metas (dateToId (clock tick))) as (fresh & E & Hf & _).
  rewrite E. simpl. unfold folder_meta. eauto.
Qed.

End UniqueIdFacts.

(** ** Inserting the items the table of contents does not list *)

Section InsertFacts.
Context {host : Host}.
Hypothesis dateToId_inj : forall t1 t2 : N, dateToId t1 = dateToId t2 -> t1 = t2.

(** The two ways a segment of the folder hint is resolved. *)
Lemma resolve_segment_cases parentId st folder siblings :
  obj_get parentId (ts_toc st) = Some siblings ->
  (exists folderId,
      titleIdMap_get (Some folder) (ts_titles st) = Some folderId
      /\ obj_has folderId (ts_meta st) = true
      /\ In folderId siblings
      /\ resolve_segment (Ok (parentId, st)) folder
         = Ok (folderId,
               mkTocSt (ensure_list folderId (ts_toc st))
                       (ts_meta st) (ts_titles st) (ts_tick st)))
  \/ ((forall folderId,
          titleIdMap_get (Some folder) (ts_titles st) = Some folderId ->
          obj_has folderId (ts_meta st) = false \/ ~ In folderId siblings)
      /\ exists folderId,
           getUniqueId (dateToId (clock (ts_tick st))) (ts_meta st) = Ok folderId
           /\ obj_has folderId (ts_meta st) = false
           /\ let toc := obj_set parentId (siblings ++ [folderId])%list (ts_toc st) in
              resolve_segment (Ok (parentId, st)) folder
              = Ok (folderId,
                    mkTocSt (ensure_list folderId toc)
                            (obj_set folderId (folder_meta folder folderId) (ts_meta st))
                            ((Some folder, folderId) :: ts_titles st)
                            (S (ts_tick st)))).
Proof.
  intros Hp. unfold resolve_segment. simpl. rewrite Hp. simpl.
  destruct (titleIdMap_get (Some folder) (ts_titles st)) as [found|] eqn:Ht.
  - destruct (obj_has found (ts_meta st)) eqn:Hm; simpl.
    + destruct (existsb (String.eqb found) siblings) eqn:Hs; simpl.
      * left. exists found. repeat split; auto. now apply set_has_In.
      * right. split.
        { intros f [= <-]. right. intros Hin. apply set_has_In in Hin.
          unfold set_has in Hin. congruence. }
        destruct (generateFolder_ok dateToId_inj folder (ts_meta st) (ts_tick st))
          as (F & E & Eu & Hf).
        exists F. rewrite E. simpl. unfold toc_push. rewrite Hp. simpl. auto.
    + right. split.
      { intros f [= <-]. now left. }
      destruct (generateFolder_ok dateToId_inj folder (ts_meta st) (ts_tick st))
        as (F & E & Eu & Hf).
      exists F. rewrite E. simpl. unfold toc_push. rewrite Hp. simpl. auto.
  - right. split; [discriminate|].
    destruct (generateFolder_ok dateToId_inj folder (ts_meta st) (ts_tick st))
      as (F & E & Eu & Hf).
    exists F. rewrite E. simpl. unfold toc_push. rewrite Hp. simpl. auto.
Qed.

Lemma get_ensured (f : string) (toc : Toc) k :
  obj_get k (ensure_list f toc)
  = match obj_get k toc with
    | Some refs => Some refs
    | None => if String.eqb f k then Some [] else None
    end.
Proof.
  unfold ensure_list, obj_has. destruct (obj_get f toc) eqn:G.
  - destruct (obj_get k toc) eqn:Gk; auto.
    destruct (String.eqb_spec f k); congruence.
  - rewrite obj_get_set. destruct (String.eqb_spec f k) as [<- | ]; [now rewrite G|].
    now destruct (obj_get k toc).
Qed.

Lemma has_ensured (f : string) (toc : Toc) :
  obj_has f (ensure_list f toc) = true.
Proof.
  unfold ensure_list. destruct (obj_has f toc) eqn:H; auto.
  rewrite obj_has_set. now rewrite String.eqb_refl.
Qed.

Lemma st_extends_refl st : st_extends st st.
Proof.
  repeat split; auto. intros k refs H. exists []. now rewrite app_nil_r.
Qed.

Lemma listed_grows id toc toc' : listed id toc -> toc_grows toc toc' -> listed id toc'.
Proof.
  intros (k & refs & G & Hin) Hg. destruct (Hg _ _ G) as (extra & G').
  exists k, (refs ++ extra)%list. split; auto. apply in_or_app. now left.
Qed.

Lemma st_extends_trans st1 st2 st3 :
  st_extends st1 st2 -> st_extends st2 st3 -> st_extends st1 st3.
Proof.
  intros (G1 & M1 & N1) (G2 & M2 & N2). repeat split.
  - intros k refs H. destruct (G1 _ _ H) as (e1 & H1). destruct (G2 _ _ H1) as (e2 & H2).
    exists (e1 ++ e2)%list. now rewrite app_assoc.
  - auto.
  - intros k H. destruct (N2 _ H) as [H2|H2]; auto.
    destruct (N1 _ H2) as [H1|H1]; auto. right. eapply listed_grows; eauto.
Qed.

(** A segment keeps the integrity of the table of contents, moving the
    folder being filled from the parent to the folder it resolved to. *)
Lemma resolve_segment_inv parentId st folder :
  seg_inv parentId st ->
  exists folderId st',
    resolve_segment (Ok (parentId, st)) folder = Ok (folderId, st')
    /\ seg_inv folderId st' /\ st_extends st st'.
Proof.
  intros (Hc & Hk & Hp). apply obj_has_get in Hp. destruct Hp as [siblings Hp].
  destruct (@resolve_segment_cases parentId st folder siblings Hp)
    as [(f & _ & Hm & Hin & E)|(_ & F & _ & Hfresh & E)].
  - exists f. eexists. split; [exact E|]. unfold seg_inv, st_extends. simpl.
    split; [split; [|split]|split; [|split]].
    + intros k refs c G Hi. rewrite get_ensured in G.
      destruct (obj_get k (ts_toc st)) as [r|] eqn:Gk.
      * injection G as <-. eauto.
      * destruct (String.eqb f k); [|discriminate]. injection G as <-. destruct Hi.
    + intros k refs G Hr. rewrite get_ensured in G.
      destruct (obj_get k (ts_toc st)) as [r|] eqn:Gk.
      * injection G as <-. destruct (Hk _ _ Gk Hr) as [Hkm [Hne | ->]]; auto.
        split; auto. left. rewrite Hp in Gk. injection Gk as <-.
        intros ->. destruct Hin.
      * destruct (String.eqb_spec f k) as [<- | ]; [|discriminate]. auto.
    + apply has_ensured.
    + intros k refs G. exists []. rewrite get_ensured, G. now rewrite app_nil_r.
    + auto.
    + auto.
  - exists F. eexists. split; [exact E|]. unfold seg_inv, st_extends. simpl.
    assert (Gp : obj_get parentId
                   (ensure_list F (obj_set parentId (siblings ++ [F])%list (ts_toc st)))
                 = Some (siblings ++ [F])%list).
    { now rewrite get_ensured, obj_get_set_eq. }
    split; [split; [|split]|split; [|split]].
    + intros k refs c G Hi. rewrite obj_has_set. apply orb_true_iff.
      rewrite get_ensured, obj_get_set in G.
      destruct (String.eqb_spec parentId k) as [<-|Hne].
      * injection G as <-. apply in_app_or in Hi. destruct Hi as [Hi|[<-|[]]].
        -- right. eauto.
        -- left. apply String.eqb_refl.
      * destruct (obj_get k (ts_toc st)) as [r|] eqn:Gk.
        -- injection G as <-. right. eauto.
        -- destruct (String.eqb F k); [|discriminate]. injection G as <-. destruct Hi.
    + intros k refs G Hr. rewrite obj_has_set.
      rewrite get_ensured, obj_get_set in G.
      destruct (String.eqb_spec parentId k) as [<-|Hne].
      * injection G as <-. destruct (Hk _ _ Hp Hr) as [Hkm _]. rewrite Hkm.
        split; [apply orb_true_r|]. left. now destruct siblings.
      * destruct (obj_get k (ts_toc st)) as [r|] eqn:Gk.
        -- injection G as <-. destruct (Hk _ _ Gk Hr) as [Hkm [Hn | ->]]; [|congruence].
           rewrite Hkm. split; [apply orb_true_r|auto].
        -- destruct (String.eqb_spec F k) as [<- | ]; [|discriminate]. auto.
    + apply has_ensured.
    + intros k refs G. rewrite get_ensured, obj_get_set.
      destruct (String.eqb_spec parentId k) as [<-|Hne].
      * rewrite Hp in G. injection G as <-. eauto.
      * rewrite G. exists []. now rewrite app_nil_r.
    + intros k Hh. rewrite obj_has_set, Hh. apply orb_true_r.
    + intros k Hh. rewrite obj_has_set in Hh. apply orb_true_iff in Hh.
      destruct Hh as [Hh|Hh]; auto. apply String.eqb_eq in Hh. subst k.
      right. exists parentId, (siblings ++ [F])%list. split; auto.
      apply in_or_app. right. now left.
Qed.

Lemma resolve_path_inv segments : forall parentId st,
  seg_inv parentId st ->
  exists folderId st',
    fold_left resolve_segment segments (Ok (parentId, st)) = Ok (folderId, st')
    /\ seg_inv folderId st' /\ st_extends st st'.
Proof.
  induction segments as [|folder segments IH]; intros parentId st Hinv; cbn [fold_left].
  - exists parentId, st. split; auto. split; auto. apply st_extends_refl.
  - destruct (@resolve_segment_inv parentId st folder Hinv) as (f & st1 & E & Hinv1 & Hext1).
    rewrite E. destruct (IH f st1 Hinv1) as (f' & st2 & E2 & Hinv2 & Hext2).
    exists f', st2. split; auto. split; auto. eapply st_extends_trans; eauto.
Qed.

(** Appending an item to the folder being filled settles that folder. *)
Lemma toc_push_inv parentId id st :
  seg_inv parentId st ->
  obj_has id (ts_meta st) = true ->
  exists toc,
    toc_push parentId id (ts_toc st) = Ok toc
    /\ (forall pending,
          obj_has pending toc = true ->
          seg_inv pending (mkTocSt toc (ts_meta st) (ts_titles st) (ts_tick st)))
    /\ toc_grows (ts_toc st) toc
    /\ listed id toc.
Proof.
  intros (Hc & Hk & Hp) Hid. apply obj_has_get in Hp. destruct Hp as [siblings Hp].
  unfold toc_push. rewrite Hp. eexists. split; [reflexivity|].
  split; [|split].
  - intros pending Hpend. unfold seg_inv. simpl. split; [|split; auto].
    + intros k refs c G Hi. rewrite obj_get_set in G.
      destruct (String.eqb_spec parentId k) as [<- | Hne]; [|eauto].
      injection G as <-. apply in_app_or in Hi. destruct Hi as [Hi|[<-|[]]]; eauto.
    + intros k refs G Hr. rewrite obj_get_set in G.
      destruct (String.eqb_spec parentId k) as [<- | Hne].
      * injection G as <-. destruct (Hk _ _ Hp Hr) as [Hkm _].
        split; auto. left. now destruct siblings.
      * destruct (Hk _ _ G Hr) as [Hkm [Hn | ->]]; [auto|congruence].
  - intros k refs G. rewrite obj_get_set.
    destruct (String.eqb_spec parentId k) as [<- | Hne].
    + rewrite Hp in G. injection G as <-. eauto.
    + rewrite G. exists []. now rewrite app_nil_r.
  - exists parentId, (siblings ++ [id])%list. rewrite obj_get_set_eq. split; auto.
    apply in_or_app. right. now left.
Qed.

Lemma toc_grows_has toc toc' k :
  toc_grows toc toc' -> obj_has k toc = true -> obj_has k toc' = true.
Proof.
  intros Hg Hk. apply obj_has_get in Hk. destruct Hk as [refs Hk].
  destruct (Hg _ _ Hk) as (extra & E). apply obj_has_get. eauto.
Qed.

Lemma insertToToc_inv id st :
  seg_inv "root" st ->
  obj_has id (ts_meta st) = true ->
  exists st',
    insertToToc id st = Ok st'
    /\ seg_inv "root" st' /\ st_extends st st' /\ listed id (ts_toc st').
Proof.
  intros Hinv Hid. unfold insertToToc.
  pose proof Hid as Hid'. apply obj_has_get in Hid'. destruct Hid' as [meta Hmeta].
  rewrite Hmeta. destruct (negb (truthy (m_folder meta))).
  - destruct (@toc_push_inv "root" id st Hinv Hid) as (toc & E & Hseg & Hg & Hl).
    rewrite E. simpl. eexists. split; [reflexivity|].
    split; [|split; auto].
    + apply Hseg. eapply toc_grows_has; eauto. apply Hinv.
    + repeat split; auto.
  - destruct (@resolve_path_inv (split_path (or_empty (m_folder meta))) "root" st Hinv)
      as (parentId & st1 & E & Hinv1 & Hext1).
    rewrite E. simpl.
    assert (Hid1 : obj_has id (ts_meta st1) = true) by (apply Hext1; auto).
    destruct (@toc_push_inv parentId id st1 Hinv1 Hid1) as (toc & E2 & Hseg & Hg & Hl).
    rewrite E2. simpl. eexists. split; [reflexivity|].
    split; [|split; auto].
    + apply Hseg. eapply toc_grows_has; eauto.
      eapply toc_grows_has; [apply Hext1|apply Hinv].
    + eapply st_extends_trans; eauto. repeat split; auto.
Qed.

Lemma obj_has_set_present (V : Type) k id (v : V) (o : JsObj V) :
  obj_has id o = true -> obj_has k (obj_set id v o) = obj_has k o.
Proof.
  intros H. rewrite obj_has_set. destruct (String.eqb_spec id k) as [<- | ]; auto.
Qed.

(** One turn of the loop over the sorted identifiers. *)
Lemma insert_turn_inv referred id st :
  seg_inv "root" st ->
  obj_has id (ts_meta st) = true ->
  exists st',
    insert_turn referred (Ok st) id = Ok st'
    /\ seg_inv "root" st' /\ st_extends st st'
    /\ (set_has id referred = false -> is_reserved id = false ->
        listed id (ts_toc st')).
Proof.
  intros Hinv Hid. unfold insert_turn. simpl.
  assert (Hstrip : forall st1 : TocState,
             seg_inv "root" st1 -> obj_has id (ts_meta st1) = true ->
             exists st',
               match obj_get id (ts_meta st1) with
               | Some meta =>
                   Ok (mkTocSt (ts_toc st1)
                               (obj_set id (strip_transient meta) (ts_meta st1))
                               (ts_titles st1) (ts_tick st1))
               | None => Fail TypeError
               end = Ok st'
               /\ seg_inv "root" st' /\ st_extends st1 st'
               /\ ts_toc st' = ts_toc st1).
  { intros st1 (Hc & Hk & Hr) H1. pose proof H1 as H1'.
    apply obj_has_get in H1'. destruct H1' as [meta ->].
    eexists. split; [reflexivity|]. unfold seg_inv, st_extends. simpl.
    repeat split; auto.
    - intros k refs c G Hi. rewrite obj_has_set_present by assumption. eauto.
    - rewrite obj_has_set_present by assumption. eapply Hk; eauto.
    - eapply Hk; eauto.
    - intros k refs G. exists []. now rewrite app_nil_r.
    - intros k Hh. now rewrite obj_has_set_present.
    - intros k Hh. rewrite obj_has_set_present in Hh by assumption. auto. }
  destruct (negb (set_has id referred) && negb (is_reserved id)) eqn:Orphan.
  - destruct (@insertToToc_inv id st Hinv Hid) as (st1 & E & Hinv1 & Hext1 & Hl).
    rewrite E. simpl.
    assert (Hid1 : obj_has id (ts_meta st1) = true) by (apply Hext1; auto).
    pose proof Hid1 as Hid1'. apply obj_has_get in Hid1'. destruct Hid1' as [meta Hmeta].
    rewrite Hmeta. simpl.
    destruct (Hstrip (mkTocSt (ts_toc st1) (ts_meta st1)
                              ((m_title meta, id) :: ts_titles st1) (ts_tick st1)))
      as (st' & E' & Hinv' & Hext' & Htoc); auto.
    simpl in E'. exists st'. split; auto. split; auto. split.
    + eapply st_extends_trans; eauto.
    + intros _ _. now rewrite Htoc.
  - simpl. destruct (Hstrip st Hinv Hid) as (st' & E' & Hinv' & Hext' & Htoc).
    exists st'. split; [exact E'|]. split; [exact Hinv'|]. split; [exact Hext'|].
    intros H1 H2. rewrite H1, H2 in Orphan. discriminate.
Qed.

Lemma insert_loop_inv referred ids : forall st,
  seg_inv "root" st ->
  (forall id, In id ids -> obj_has id (ts_meta st) = true) ->
  exists st',
    fold_left (insert_turn referred) ids (Ok st) = Ok st'
    /\ seg_inv "root" st' /\ st_extends st st'
    /\ (forall id, In id ids -> set_has id referred = false -> is_reserved id = false ->
                   listed id (ts_toc st')).
Proof.
  induction ids as [|id ids IH]; intros st Hinv Hids; cbn [fold_left].
  - exists st. split; [reflexivity|]. split; [exact Hinv|].
    split; [apply st_extends_refl|]. intros ? [].
  - destruct (@insert_turn_inv referred id st Hinv) as (st1 & E & Hinv1 & Hext1 & Hl1).
    { apply Hids. now left. }
    rewrite E. destruct (IH st1 Hinv1) as (st' & E' & Hinv' & Hext' & Hl').
    { intros k Hk. apply Hext1. apply Hids. now right. }
    exists st'. split; auto. split; auto. split.
    + eapply st_extends_trans; eauto.
    + intros k [<-|Hk] Hr Hres; auto.
      eapply listed_grows; [apply Hl1; auto|apply Hext'].
Qed.

End InsertFacts.

Lemma sort_insert_In key x l y : In y (sort_insert key x l) <-> y = x \/ In y l.
Proof.
  induction l as [|z l IH]; simpl.
  - intuition.
  - destruct (js_compare (key x) (key z)); simpl; rewrite ?IH; intuition.
Qed.

Lemma sort_by_In key l y : In y (sort_by key l) <-> In y l.
Proof.
  induction l as [|x l IH]; simpl; [tauto|].
  unfold sort_by in *. simpl. rewrite sort_insert_In, IH. intuition.
Qed.

(** ** The reserved root *)

Lemma seq_push_has_root toc edge :
  obj_has "root" toc = true -> obj_has "root" (seq_push toc edge) = true.
Proof.
  destruct edge as [id refId]. intros H.
  assert (Hpush : forall toc1 : Toc,
             obj_has "root" toc1 = true ->
             obj_has "root" match obj_get id toc1 with
                            | Some refs => obj_set id (refs ++ [refId])%list toc1
                            | None => toc1
                            end = true).
  { intros toc1 H1. destruct (obj_get id toc1); auto.
    rewrite obj_has_set, H1. apply orb_true_r. }
  unfold seq_push. apply Hpush. unfold ensure_list.
  destruct (obj_has id toc); auto. rewrite obj_has_set, H. apply orb_true_r.
Qed.

Lemma obj_assign_has (V : Type) k (src o : JsObj V) :
  obj_has k o = true -> obj_has k (obj_assign o src) = true.
Proof.
  unfold obj_assign. revert o. induction src as [|[k' v] src IH]; intros o H; simpl; auto.
  apply IH. rewrite obj_has_set, H. apply orb_true_r.
Qed.

Lemma import_toc_has_root seq tocFiles : obj_has "root" (import_toc seq tocFiles) = true.
Proof.
  unfold import_toc.
  assert (H : obj_has "root" (fold_left seq_push seq init_toc) = true).
  { generalize init_toc (eq_refl : obj_has "root" init_toc = true).
    induction seq as [|e seq IH]; intros toc H; simpl; auto.
    apply IH. now apply seq_push_has_root. }
  revert H. generalize (fold_left seq_push seq init_toc).
  induction tocFiles as [|data tocFiles IH]; intros toc H; simpl; auto.
  apply IH. now apply obj_assign_has.
Qed.

Lemma prune_keeps_reserved metas toc k :
  is_reserved k = true -> obj_has k toc = true ->
  obj_has k (pr_toc (prune_toc metas toc)) = true.
Proof.
  intros Hr Hk. destruct (prune_toc_spec metas toc) as [Hget _].
  apply obj_has_get in Hk. destruct Hk as [refs Hk].
  apply obj_has_get. rewrite Hget, Hk, pruned_entry_reserved by assumption. eauto.
Qed.

(** After the pruning the table of contents is sound for the insertion. *)
Lemma prune_seg_inv metas toc titles tick :
  obj_has "root" toc = true ->
  seg_inv "root" (mkTocSt (pr_toc (prune_toc metas toc)) metas titles tick).
Proof.
  intros Hroot. destruct (prune_toc_spec metas toc) as [Hget _].
  unfold seg_inv. simpl. split; [|split].
  - intros k refs c G Hi. rewrite Hget in G.
    eapply pruned_entry_children; eauto.
  - intros k refs G Hr. rewrite Hget in G.
    destruct (pruned_entry_key _ _ _ G Hr). auto.
  - now apply prune_keeps_reserved.
Qed.

(** The two passes over the table of contents, run one after the other:
    the insertion returns, and extends the pruned table. *)
Lemma prune_then_insert {host : Host}
      (dateToId_inj : forall t1 t2 : N, dateToId t1 = dateToId t2 -> t1 = t2)
      (metas : Metas) (toc : Toc) (tick : nat) :
  obj_has "root" toc = true ->
  let pr := prune_toc metas toc in
  let st := mkTocSt (pr_toc pr) metas (pr_titles pr) tick in
  exists st',
    insert_orphans (pr_referred pr) st = Ok st'
    /\ seg_inv "root" st' /\ st_extends st st'
    /\ forall id, obj_has id (ts_meta st') = true -> is_reserved id = false ->
                  listed id (ts_toc st').
Proof.
  intros Hroot pr st. unfold insert_orphans.
  pose proof (@prune_seg_inv metas toc (pr_titles pr) tick Hroot) as Hinv.
  fold pr st in Hinv.
  destruct (@insert_loop_inv host dateToId_inj (pr_referred pr)
              (sort_by (sort_token (ts_meta st)) (obj_keys (ts_meta st))) st Hinv)
    as (st' & E & Hinv' & Hext & Hl).
  { intros id Hin. apply sort_by_In in Hin. apply obj_keys_get in Hin.
    apply obj_has_get. exact Hin. }
  exists st'. split; auto. split; auto. split; auto.
  intros id Hid Hres. destruct Hext as (Hgrow & _ & Hnew).
  destruct (Hnew _ Hid) as [Hold|]; auto.
  destruct (set_has id (pr_referred pr)) eqn:Href.
  - apply set_has_In in Href. apply (proj2 (prune_toc_spec metas toc)) in Href.
    eapply listed_grows; eauto.
  - apply Hl; auto. apply sort_by_In. apply obj_has_get in Hold.
    destruct Hold as [m Hm]. eapply obj_get_in_keys; eauto.
Qed.

(** C9. The key "root" is in the table of contents at every stage: it is
    there, with an empty list, at the start; the import of the legacy
    sequences and of the [tree/toc] files keeps it; the pruning never
    removes "root" or "hidden"; the insertion returns and only appends to
    the list of "root"; and so the whole step, however it ends, leaves the
    key in place. *)
Theorem root_always_present {host : Host}
        (dateToId_inj : forall t1 t2 : N, dateToId t1 = dateToId t2 -> t1 = t2) :
  obj_get "root" init_toc = Some []
  /\ (forall seq tocFiles, obj_has "root" (import_toc seq tocFiles) = true)
  /\ (forall metas toc k,
        is_reserved k = true -> obj_has k toc = true ->
        obj_has k (pr_toc (prune_toc metas toc)) = true)
  /\ (forall metas toc tick,
        obj_has "root" toc = true ->
        let pr := prune_toc metas toc in
        exists st' kept extra,
          insert_orphans (pr_referred pr) (mkTocSt (pr_toc pr) metas (pr_titles pr) tick)
          = Ok st'
          /\ obj_get "root" (pr_toc pr) = Some kept
          /\ obj_get "root" (ts_toc st') = Some (kept ++ extra)%list)
  /\ (forall s,
        obj_has "root" (rs_toc s) = true ->
        match fix_meta_and_toc s with
        | Finished s' | LeftEarly s' => obj_has "root" (rs_toc s') = true
        | Aborted => True
        end).
Proof.
  split; [reflexivity|]. split; [apply import_toc_has_root|].
  split; [apply prune_keeps_reserved|].
  assert (Hins : forall metas toc tick,
             obj_has "root" toc = true ->
             let pr := prune_toc metas toc in
             exists st' kept extra,
               insert_orphans (pr_referred pr)
                              (mkTocSt (pr_toc pr) metas (pr_titles pr) tick) = Ok st'
               /\ obj_get "root" (pr_toc pr) = Some kept
               /\ obj_get "root" (ts_toc st') = Some (kept ++ extra)%list).
  { intros metas toc tick Hroot pr.
    destruct (@prune_then_insert host dateToId_inj metas toc tick Hroot)
      as (st' & E & _ & (Hgrow & _) & _).
    fold pr in E, Hgrow. simpl in Hgrow.
    pose proof (@prune_keeps_reserved metas toc "root" eq_refl Hroot) as Hk.
    fold pr in Hk. apply obj_has_get in Hk. destruct Hk as [kept Hk].
    destruct (Hgrow _ _ Hk) as (extra & Hx). exists st', kept, extra. auto. }
  split; [exact Hins|].
  intros s Hroot. unfold fix_meta_and_toc.
  destruct (fix_metadata _) as [st1|st1|st1]; auto.
  destruct (Hins (fx_meta st1) (rs_toc s) (fx_tick st1) Hroot)
    as (st' & kept & extra & E & _ & Hx).
  rewrite E. simpl. apply obj_has_get. eauto.
Qed.

(** ** Listing every item once *)

Lemma occ_ensure id f toc k : occ id (ensure_list f toc) k = occ id toc k.
Proof.
  unfold occ. rewrite get_ensured. destruct (obj_get k toc); auto.
  now destruct (String.eqb f k).
Qed.

Lemma occ_push id p x refs (toc : Toc) k :
  obj_get p toc = Some refs ->
  occ id (obj_set p (refs ++ [x])%list toc) k
  = occ id toc k + (if String.eqb p k && String.eqb x id then 1 else 0).
Proof.
  intros Hp. unfold occ. rewrite obj_get_set.
  destruct (String.eqb_spec p k) as [<- | Hne]; simpl; [|lia].
  rewrite Hp, count_occ_app. simpl.
  destruct (string_dec x id) as [-> | Hx].
  - now rewrite String.eqb_refl.
  - destruct (String.eqb_spec x id); [congruence|reflexivity].
Qed.

Lemma unlisted_occ id toc k refs :
  unlisted id toc -> obj_get k toc = Some refs -> ~ In id refs.
Proof.
  intros H G Hin. specialize (H k). unfold occ in H. rewrite G in H.
  apply (count_occ_In string_dec) in Hin. lia.
Qed.

Lemma not_listed_unlisted id toc : ~ listed id toc -> unlisted id toc.
Proof.
  intros H k. unfold occ. destruct (obj_get k toc) as [refs|] eqn:G; auto.
  apply count_occ_not_In. intros Hin. apply H. exists k, refs. auto.
Qed.

Lemma listed_not_unlisted id toc : listed id toc -> ~ unlisted id toc.
Proof.
  intros (k & refs & G & Hin) H. eapply unlisted_occ; eauto.
Qed.

Lemma listed_once_listed id toc : listed_once id toc -> listed id toc.
Proof.
  intros (k & H1 & _). unfold occ in H1.
  destruct (obj_get k toc) as [refs|] eqn:G; [|discriminate].
  exists k, refs. split; auto. apply (count_occ_In string_dec). lia.
Qed.

Lemma listed_alike_once id toc toc' :
  listed_alike id toc toc' -> listed_once id toc -> listed_once id toc'.
Proof.
  intros Ha (k & H1 & H0). exists k. split.
  - now rewrite Ha.
  - intros k' Hk. rewrite Ha. auto.
Qed.

Lemma listed_alike_unlisted id toc toc' :
  listed_alike id toc toc' -> unlisted id toc -> unlisted id toc'.
Proof. intros Ha H k. rewrite Ha. apply H. Qed.

Lemma listed_alike_trans id toc1 toc2 toc3 :
  listed_alike id toc1 toc2 -> listed_alike id toc2 toc3 -> listed_alike id toc1 toc3.
Proof. intros H1 H2 k. now rewrite H2, H1. Qed.

Lemma adds_once_nil toc toc' :
  (forall id, listed_alike id toc toc') -> adds_once [] toc toc'.
Proof. intros H. split; [auto | intros id []]. Qed.

Lemma adds_once_ensure f toc : adds_once [] toc (ensure_list f toc).
Proof. apply adds_once_nil. intros id k. apply occ_ensure. Qed.

Lemma adds_once_push p x refs (toc : Toc) :
  obj_get p toc = Some refs ->
  adds_once [x] toc (obj_set p (refs ++ [x])%list toc).
Proof.
  intros Hp. split.
  - intros id Hni k. rewrite (@occ_push id p x refs toc k Hp).
    destruct (String.eqb_spec x id) as [-> | ]; [simpl in Hni; tauto|].
    rewrite andb_false_r. lia.
  - intros id [<- | []] Hun. exists p. split.
    + rewrite (@occ_push x p x refs toc p Hp), !String.eqb_refl, (Hun p). reflexivity.
    + intros k' Hk. rewrite (@occ_push x p x refs toc k' Hp), (Hun k').
      destruct (String.eqb_spec p k'); [congruence|reflexivity].
Qed.

Lemma adds_once_trans X1 X2 toc1 toc2 toc3 :
  adds_once X1 toc1 toc2 -> adds_once X2 toc2 toc3 ->
  (forall x, In x X2 -> ~ In x X1) ->
  adds_once (X1 ++ X2) toc1 toc3.
Proof.
  intros [F1 O1] [F2 O2] Hdis. split.
  - intros id Hni. eapply listed_alike_trans; [apply F1|apply F2];
      intros Hin; apply Hni; apply in_or_app; auto.
  - intros id Hin Hun. destruct (in_dec string_dec id X2) as [H2|H2].
    + apply O2; auto. eapply listed_alike_unlisted; [apply F1|]; auto.
    + apply in_app_or in Hin. destruct Hin as [H1|]; [|tauto].
      eapply listed_alike_once; [apply F2|]; auto.
Qed.

Section InsertOnceFacts.
Context {host : Host}.
Hypothesis dateToId_inj : forall t1 t2 : N, dateToId t1 = dateToId t2 -> t1 = t2.

Lemma resolve_segment_adds parentId st folder folderId st' :
  seg_inv parentId st ->
  resolve_segment (Ok (parentId, st)) folder = Ok (folderId, st') ->
  exists added, adds_new added st st'.
Proof.
  intros (_ & _ & Hp) E. apply obj_has_get in Hp. destruct Hp as [siblings Hp].
  destruct (@resolve_segment_cases host dateToId_inj parentId st folder siblings Hp)
    as [(f & _ & _ & _ & E1)|(_ & F & _ & Hfresh & E1)];
    rewrite E1 in E; injection E as <- <-.
  - exists []. split; [apply adds_once_ensure|]. simpl. split; [intros x []|auto].
  - exists [F]. unfold adds_new. simpl. split; [|split].
    + change [F] with ([F] ++ [])%list. eapply adds_once_trans.
      * apply adds_once_push. exact Hp.
      * apply adds_once_ensure.
      * intros x [].
    + intros x [<- | []]. split; auto. rewrite obj_has_set. now rewrite String.eqb_refl.
    + intros k Hk. rewrite obj_has_set in Hk. apply orb_true_iff in Hk.
      destruct Hk as [Hk|Hk]; auto. apply String.eqb_eq in Hk. auto.
Qed.

Lemma adds_new_trans X1 X2 st1 st2 st3 :
  adds_new X1 st1 st2 -> adds_new X2 st2 st3 ->
  (forall k, obj_has k (ts_meta st1) = true -> obj_has k (ts_meta st2) = true) ->
  (forall k, obj_has k (ts_meta st2) = true -> obj_has k (ts_meta st3) = true) ->
  adds_new (X1 ++ X2) st1 st3.
Proof.
  intros (A1 & F1 & N1) (A2 & F2 & N2) M1 M2. split; [|split].
  - eapply adds_once_trans; eauto. intros x H2 H1.
    destruct (F1 x H1) as [_ Ht]. destruct (F2 x H2) as [Hf _]. congruence.
  - intros x Hin. apply in_app_or in Hin. destruct Hin as [H1|H2].
    + destruct (F1 x H1). split; auto.
    + destruct (F2 x H2) as [Hf Ht]. split; auto.
      destruct (obj_has x (ts_meta st1)) eqn:Hx; auto. apply M1 in Hx. congruence.
  - intros k Hk. destruct (N2 k Hk) as [H2|H2]; [|right; apply in_or_app; auto].
    destruct (N1 k H2) as [H1|H1]; [auto|right; apply in_or_app; auto].
Qed.

Lemma resolve_path_adds segments : forall parentId st folderId st',
  seg_inv parentId st ->
  fold_left resolve_segment segments (Ok (parentId, st)) = Ok (folderId, st') ->
  exists added, adds_new added st st'.
Proof.
  induction segments as [|folder segments IH]; intros parentId st folderId st' Hinv E;
    cbn [fold_left] in E.
  - injection E as <- <-. exists []. split; [|split]; simpl; auto.
    + apply adds_once_nil. intros id k. reflexivity.
    + intros x [].
  - destruct (@resolve_segment_inv host dateToId_inj parentId st folder Hinv)
      as (f & st1 & E1 & Hinv1 & Hext1).
    rewrite E1 in E.
    destruct (@resolve_segment_adds parentId st folder f st1 Hinv E1) as (X1 & A1).
    destruct (IH f st1 folderId st' Hinv1 E) as (X2 & A2).
    destruct (@resolve_path_inv host dateToId_inj segments f st1 Hinv1)
      as (f' & st2 & E2 & _ & Hext2).
    rewrite E2 in E. injection E as <- <-.
    exists (X1 ++ X2)%list. eapply adds_new_trans; eauto.
    + apply Hext1.
    + apply Hext2.
Qed.

Lemma insertToToc_adds id st st' :
  seg_inv "root" st ->
  obj_has id (ts_meta st) = true ->
  insertToToc id st = Ok st' ->
  exists folders,
    adds_once (folders ++ [id]) (ts_toc st) (ts_toc st')
    /\ (forall x, In x folders ->
                  obj_has x (ts_meta st) = false /\ obj_has x (ts_meta st') = true)
    /\ (forall k, obj_has k (ts_meta st') = true ->
                  obj_has k (ts_meta st) = true \/ In k folders).
Proof.
  intros Hinv Hid E. unfold insertToToc in E.
  pose proof Hid as Hid'. apply obj_has_get in Hid'. destruct Hid' as [meta Hmeta].
  rewrite Hmeta in E. destruct (negb (truthy (m_folder meta))).
  - destruct Hinv as (_ & _ & Hroot). apply obj_has_get in Hroot.
    destruct Hroot as [roots Hroot].
    unfold toc_push in E. rewrite Hroot in E. simpl in E. injection E as <-.
    exists []. simpl. split; [now apply adds_once_push|]. split; [intros x []|auto].
  - destruct (@resolve_path_inv host dateToId_inj
                (split_path (or_empty (m_folder meta))) "root" st Hinv)
      as (parentId & st1 & E1 & Hinv1 & Hext1).
    destruct (@resolve_path_adds _ "root" st parentId st1 Hinv E1) as (X & A & F & Nw).
    rewrite E1 in E. simpl in E.
    destruct Hinv1 as (_ & _ & Hp). apply obj_has_get in Hp. destruct Hp as [refs Hp].
    unfold toc_push in E. rewrite Hp in E. simpl in E. injection E as <-.
    exists X. simpl. split; [|split; auto].
    eapply adds_once_trans; eauto.
    + now apply adds_once_push.
    + intros x [Hx | []] Hin. subst x. destruct (F id Hin). congruence.
Qed.

Lemma insert_turn_adds referred id st st' :
  seg_inv "root" st ->
  obj_has id (ts_meta st) = true ->
  insert_turn referred (Ok st) id = Ok st' ->
  exists folders,
    adds_once (folders ++ (if negb (set_has id referred) && negb (is_reserved id)
                           then [id] else []))
              (ts_toc st) (ts_toc st')
    /\ (forall x, In x folders ->
                  obj_has x (ts_meta st) = false /\ obj_has x (ts_meta st') = true)
    /\ (forall k, obj_has k (ts_meta st') = true ->
                  obj_has k (ts_meta st) = true \/ In k folders).
Proof.
  intros Hinv Hid E. unfold insert_turn in E. cbn [bind] in E.
  destruct (negb (set_has id referred) && negb (is_reserved id)).
  - destruct (@insertToToc_inv host dateToId_inj id st Hinv Hid)
      as (st1 & E1 & Hinv1 & Hext1 & _).
    destruct (@insertToToc_adds id st st1 Hinv Hid E1) as (X & A & F & Nw).
    rewrite E1 in E. cbn [bind] in E.
    assert (Hid1 : obj_has id (ts_meta st1) = true) by (apply Hext1; auto).
    pose proof Hid1 as Hid1'. apply obj_has_get in Hid1'. destruct Hid1' as [meta1 Hm1].
    rewrite Hm1 in E. cbn [bind ts_meta ts_toc ts_titles ts_tick] in E.
    rewrite Hm1 in E. injection E as <-. cbn [ts_toc ts_meta].
    exists X. split; [exact A|]. split.
    + intros x Hx. destruct (F x Hx). split; auto.
      now rewrite obj_has_set_present.
    + intros k Hk. rewrite obj_has_set_present in Hk by assumption. auto.
  - pose proof Hid as Hid'. apply obj_has_get in Hid'. destruct Hid' as [meta Hm].
    cbn [bind] in E. rewrite Hm in E. injection E as <-. cbn [ts_toc ts_meta].
    exists []. simpl. split; [|split].
    + apply adds_once_nil. intros i k. reflexivity.
    + intros x [].
    + intros k Hk. rewrite obj_has_set_present in Hk by assumption. auto.
Qed.

Lemma sort_insert_NoDup key x l :
  NoDup l -> ~ In x l -> NoDup (sort_insert key x l).
Proof.
  induction l as [|y l IH]; simpl; intros Hnd Hni.
  - constructor; auto.
  - destruct (js_compare (key x) (key y));
      [constructor; auto | constructor; auto |].
    inversion Hnd as [|? ? Hy Hl]; subst. constructor.
    + rewrite sort_insert_In. intros [-> | H]; [apply Hni; now left | auto].
    + apply IH; auto.
Qed.

Lemma sort_by_NoDup key l : NoDup l -> NoDup (sort_by key l).
Proof.
  induction 1 as [|x l Hni Hnd IH]; simpl; [constructor|].
  apply sort_insert_NoDup; auto. now rewrite sort_by_In.
Qed.

(** The loop over the sorted identifiers: an item the pruned table [toc0]
    lists stays listed as it is; any other is listed once when its turn
    has passed, and so is every folder created on the way. *)
Lemma insert_loop_once referred (toc0 : Toc) ids :
  NoDup ids ->
  (forall id, set_has id referred = true <-> listed id toc0) ->
  forall st st',
  seg_inv "root" st ->
  (forall id, In id ids -> obj_has id (ts_meta st) = true) ->
  (forall id, listed id toc0 -> obj_has id (ts_meta st) = true) ->
  (forall id, listed id toc0 -> listed_alike id toc0 (ts_toc st)) ->
  (forall id, obj_has id (ts_meta st) = true -> is_reserved id = false ->
              ~ listed id toc0 ->
              (In id ids /\ unlisted id (ts_toc st))
              \/ (~ In id ids /\ listed_once id (ts_toc st))) ->
  fold_left (insert_turn referred) ids (Ok st) = Ok st' ->
  (forall id, listed id toc0 -> listed_alike id toc0 (ts_toc st'))
  /\ (forall id, obj_has id (ts_meta st') = true -> is_reserved id = false ->
                 ~ listed id toc0 -> listed_once id (ts_toc st')).
Proof.
  intros Hnd Href. induction Hnd as [|cur rest Hni Hnd IH];
    intros st st' Hinv Hids Hknown Hsame Hq E; cbn [fold_left] in E.
  - injection E as <-. split; auto.
    intros id H1 H2 H3. destruct (Hq id H1 H2 H3) as [[[] _]|[_ ?]]; auto.
  - assert (Hcur : obj_has cur (ts_meta st) = true) by (apply Hids; now left).
    destruct (@insert_turn_inv host dateToId_inj referred cur st Hinv Hcur)
      as (st1 & E1 & Hinv1 & Hext1 & _).
    destruct (@insert_turn_adds referred cur st st1 Hinv Hcur E1) as (X & A & F & Nw).
    rewrite E1 in E. destruct Hext1 as (_ & Hmono & _).
    destruct A as [Hframe Honce].
    assert (Horphan : forall id, is_reserved id = false -> ~ listed id toc0 ->
                                 negb (set_has id referred) && negb (is_reserved id) = true).
    { intros id Hr Hl. rewrite Hr. destruct (set_has id referred) eqn:Hs; auto.
      apply Href in Hs. tauto. }
    assert (Hids1 : forall id, In id rest -> obj_has id (ts_meta st1) = true).
    { intros id Hin. apply Hmono. apply Hids. now right. }
    assert (Hknown1 : forall id, listed id toc0 -> obj_has id (ts_meta st1) = true).
    { intros id Hl. apply Hmono. auto. }
    assert (Hsame1 : forall id, listed id toc0 -> listed_alike id toc0 (ts_toc st1)).
    { intros id Hl k. rewrite <- (Hsame id Hl k). apply Hframe.
      intros Hin. apply in_app_or in Hin. destruct Hin as [Hin|Hin].
      - destruct (F id Hin) as [Hf _]. rewrite (Hknown id Hl) in Hf. discriminate.
      - destruct (negb (set_has cur referred) && negb (is_reserved cur)) eqn:Hc;
          [|destruct Hin].
        destruct Hin as [Hx | []]. subst id.
        apply andb_true_iff in Hc. destruct Hc as [Hc _].
        apply negb_true_iff in Hc. apply Href in Hl. congruence. }
    apply (IH st1 st' Hinv1 Hids1 Hknown1 Hsame1); [|exact E].
    intros id Hm Hr Hl.
    destruct (in_dec string_dec id X) as [HX|HX].
    { destruct (F id HX) as [Hf _]. right. split.
      - intros Hin. rewrite (Hids id) in Hf; [discriminate|now right].
      - apply Honce; [apply in_or_app; auto|].
        apply not_listed_unlisted. intros (k & refs & G & Hin).
        destruct Hinv as (Hc & _). rewrite (Hc _ _ _ G Hin) in Hf. discriminate. }
    assert (Hm0 : obj_has id (ts_meta st) = true).
    { destruct (Nw id Hm); [auto|tauto]. }
    destruct (string_dec id cur) as [-> | Hne].
    { right. split; auto. apply Honce.
      - apply in_or_app. right. rewrite (Horphan cur Hr Hl). now left.
      - destruct (Hq cur Hm0 Hr Hl) as [[_ Hu]|[Hn _]]; auto.
        exfalso. apply Hn. now left. }
    assert (Hfr : listed_alike id (ts_toc st) (ts_toc st1)).
    { apply Hframe. intros Hin. apply in_app_or in Hin. destruct Hin as [|Hin]; [tauto|].
      destruct (negb (set_has cur referred) && negb (is_reserved cur)); [|destruct Hin].
      destruct Hin as [Hx | []]. congruence. }
    destruct (Hq id Hm0 Hr Hl) as [[[?|Hin] Hu]|[Hn Ho]]; [congruence| |].
    + left. split; auto. eapply listed_alike_unlisted; eauto.
    + right. split; [intros Hin; apply Hn; now right|].
      eapply listed_alike_once; eauto.
Qed.

End InsertOnceFacts.

Lemma prune_then_insert_once {host : Host}
      (dateToId_inj : forall t1 t2 : N, dateToId t1 = dateToId t2 -> t1 = t2)
      (metas : Metas) (toc : Toc) (tick : nat) (st' : TocState) :
  obj_has "root" toc = true ->
  let pr := prune_toc metas toc in
  insert_orphans (pr_referred pr) (mkTocSt (pr_toc pr) metas (pr_titles pr) tick) = Ok st' ->
  (forall id, listed id (pr_toc pr) -> listed_alike id (pr_toc pr) (ts_toc st'))
  /\ (forall id, obj_has id (ts_meta st') = true -> is_reserved id = false ->
                 ~ listed id (pr_toc pr) -> listed_once id (ts_toc st')).
Proof.
  intros Hroot pr E. unfold insert_orphans in E. cbn [ts_meta] in E.
  pose proof (@prune_seg_inv metas toc (pr_titles pr) tick Hroot) as Hinv. fold pr in Hinv.
  refine (@insert_loop_once host dateToId_inj (pr_referred pr) (pr_toc pr)
            (sort_by (sort_token metas) (obj_keys metas))
            _ _ _ st' Hinv _ _ _ _ E).
  - apply sort_by_NoDup, obj_keys_NoDup.
  - intros id. rewrite set_has_In. apply (proj2 (prune_toc_spec metas toc)).
  - intros id Hin. apply sort_by_In in Hin. apply obj_keys_get in Hin.
    apply obj_has_get. exact Hin.
  - intros id (k & refs & G & Hin). destruct Hinv as (Hc & _). exact (Hc _ _ _ G Hin).
  - intros id _ k. reflexivity.
  - intros id Hm _ Hl. left. split.
    + apply sort_by_In. apply obj_has_get in Hm. destruct Hm as [m Hm].
      eapply obj_get_in_keys; eauto.
    + now apply not_listed_unlisted.
Qed.

(** ** Integrity of the table of contents *)

(** C1 (as amended).  For a collection whose identifiers are none of the
    names an object inherits (the tests of lines 840 and 847 read
    [scrapbookData.meta[id]], which such a name makes true without any
    entry): whenever the metadata pass runs to its end, the step finishes,
    and then: every child listed in the table of contents has a metadata
    entry; every key other than "root" and "hidden" has a metadata entry
    and a non-empty list; and every metadata entry, of any type, other than
    "root" and "hidden" is listed as a child: exactly once if the table
    read from the input, once pruned, did not list it, and otherwise under
    every key exactly as often as that pruned table lists it. *)
Theorem toc_integrity {host : Host}
        (dateToId_inj : forall t1 t2 : N, dateToId t1 = dateToId t2 -> t1 = t2)
        (dateToId_plain : forall t : N, inherited (dateToId t) = false)
        (s : RunState) (st1 : FixState) :
  plain_run s ->
  obj_has "root" (rs_toc s) = true ->
  fix_metadata (mkFix (rs_meta s) (rs_dirs s) (rs_tick s)) = Next st1 ->
  exists s',
    fix_meta_and_toc s = Finished s'
    /\ children_known (rs_meta s') (rs_toc s')
    /\ keys_settled (rs_meta s') (rs_toc s')
    /\ forall id, obj_has id (rs_meta s') = true -> is_reserved id = false ->
         let pruned := pr_toc (prune_toc (fx_meta st1) (rs_toc s)) in
         listed id (rs_toc s')
         /\ (listed id pruned -> listed_alike id pruned (rs_toc s'))
         /\ (~ listed id pruned -> listed_once id (rs_toc s')).
Proof.
  intros _ Hroot Hfix. unfold fix_meta_and_toc. rewrite Hfix.
  destruct (@prune_then_insert host dateToId_inj (fx_meta st1) (rs_toc s) (fx_tick st1) Hroot)
    as (st' & E & (Hc & Hk & _) & _ & Hl).
  destruct (@prune_then_insert_once host dateToId_inj (fx_meta st1) (rs_toc s)
              (fx_tick st1) st' Hroot E) as (Hsame & Honce).
  rewrite E. eexists. split; [reflexivity|]. simpl.
  split; [exact Hc|]. split.
  - intros k refs G Hr. destruct (Hk _ _ G Hr) as [Hm [Hn|Hroot']]; auto.
    subst k. discriminate Hr.
  - intros id Hm Hr. split; [auto|]. split; auto.
Qed.

(** ** The model at work on the sample collections *)

Lemma decimalId_inj (t1 t2 : N) : Sample.decimalId t1 = Sample.decimalId t2 -> t1 = t2.
Proof.
  unfold Sample.decimalId. intros E.
  apply (f_equal NilEmpty.uint_of_string) in E. rewrite !NilEmpty.usu in E.
  injection E as E. now apply Unsigned.to_uint_inj.
Qed.

Lemma decimalId_plain (t : N) : inherited (Sample.decimalId t) = false.
Proof.
  unfold inherited, inherited_names, Sample.decimalId. cbn [existsb].
  repeat (apply orb_false_iff; split); try reflexivity;
    apply String.eqb_neq; intros E;
    apply (f_equal NilEmpty.uint_of_string) in E; rewrite NilEmpty.usu in E;
    discriminate E.
Qed.

Lemma hinted_plain : plain_run Sample.hinted.
Proof.
  split.
  - intros id meta G. apply obj_get_In in G. vm_compute in G.
    destruct G as [G|[]]. injection G as <- <-. repeat split; reflexivity.
  - intros k refs G. apply obj_get_In in G. vm_compute in G.
    destruct G as [G|[]]. injection G as <- <-. split; [reflexivity|intros c []].
Qed.

(** C1, the sentence as written, fails when the table of contents read
    from [tree/toc.js] lists a page twice: the page stays listed twice. *)
Lemma twice_listed_stays_twice :
  exists s',
    @fix_meta_and_toc (Sample.host Unbound) Sample.twice_listed = Finished s'
    /\ ~ listed_exactly_once (rs_meta s') (rs_toc s').
Proof.
  eexists. split; [vm_compute; reflexivity|].
  intros H. destruct (H "A" _ eq_refl eq_refl eq_refl) as (k & Hone & _).
  unfold occ in Hone. cbn [rs_toc obj_get] in Hone.
  destruct (String.eqb "root" k); vm_compute in Hone; discriminate Hone.
Qed.

Lemma toc_integrity_witness :
  exists s',
    @fix_meta_and_toc (Sample.host Unbound) Sample.hinted = Finished s'
    /\ children_known (rs_meta s') (rs_toc s')
    /\ keys_settled (rs_meta s') (rs_toc s')
    /\ listed_once "X" (rs_toc s').
Proof.
  destruct (@toc_integrity (Sample.host Unbound) decimalId_inj decimalId_plain Sample.hinted
              (mkFix (obj_set "X" (fst (@fix_fields (Sample.host Unbound) "X"
                                          Sample.hinted_meta 0)) (rs_meta Sample.hinted))
                     (rs_dirs Sample.hinted) 1))
    as (s' & E & Hc & Hk & Hl).
  - exact hinted_plain.
  - reflexivity.
  - vm_compute. reflexivity.
  - exists s'. split; [exact E|]. split; [exact Hc|]. split; [exact Hk|].
    assert (Hx : obj_has "X" (rs_meta s') = true).
    { vm_compute in E. injection E as <-. reflexivity. }
    destruct (Hl "X" Hx eq_refl) as (_ & _ & Honce). apply Honce.
    intros (k & refs & G & Hin). apply obj_get_In in G. vm_compute in G.
    destruct G as [G|[]]. injection G as _ <-. destruct Hin.
Defined.

Lemma root_always_present_witness :
  obj_has "root" (rs_toc Sample.hinted) = true
  /\ match @fix_meta_and_toc (Sample.host Unbound) Sample.hinted with
     | Finished s' | LeftEarly s' => obj_has "root" (rs_toc s') = true
     | Aborted => True
     end.
Proof.
  split; [reflexivity|].
  destruct (@root_always_present (Sample.host Unbound) decimalId_inj)
    as (_ & _ & _ & _ & H).
  apply H. reflexivity.
Defined.

(** C7, the sentence as written, fails on the folders the insertion
    creates: after the repair the folder made for the hint "Work" has no
    source, comment, icon or modify at all. *)
Lemma synthesized_folder_not_defaulted :
  exists s',
    @fix_meta_and_toc (Sample.host Unbound) Sample.hinted = Finished s'
    /\ ~ every_entry_defaulted (rs_meta s').
Proof.
  eexists. split; [vm_compute; reflexivity|].
  intros H. destruct (H "20200101000000000" _ eq_refl) as (_ & Hsource & _).
  now apply Hsource.
Qed.

Lemma favicon_dedup_witness :
  let host := Sample.host Unbound in
  let r := cache_favicons [] Sample.icons [] in
  count_occ string_dec (ic_fetched r) "http://x/a.png" = 1
  /\ exists n ext meta1' meta2',
       let path := "tree/favicon/" ++ ("http://x/a.png" ++ Sample.decimalId (N.of_nat n))
                                   ++ ext in
       obj_get "P" (ic_meta r) = Some meta1'
       /\ obj_get "Q" (ic_meta r) = Some meta2'
       /\ m_icon meta1' = Some ("../../" ++ path)
       /\ m_icon meta2' = Some ("../" ++ path)
       /\ obj_has path (ic_zip r) = true.
Proof.
  intros host r.
  destruct (@favicon_dedup host [] Sample.icons [] "P" "Q" "http://x/a.png"
              Sample.icon_P Sample.icon_Q)
    as (Hone & n & meta1' & meta2' & G1 & G2 & Hok & _);
    try reflexivity.
  - intros uri file [= <-]. exists ".png". reflexivity.
  - split; [exact Hone|].
    destruct (Hok ("http://x/a.png" ++ Sample.decimalId (N.of_nat n)))
      as (ext & H1 & H2 & Hs).
    + eexists. split; [reflexivity|]. split; [reflexivity|]. now left.
    + exists n, ext, meta1', meta2'. cbv zeta. split; [exact G1|]. split; [exact G2|].
      split; [exact H1|]. split; [exact H2|].
      destruct Hs as [Hz|(old & Hold & _)]; [exact Hz|discriminate Hold].
Defined.

Lemma favicon_pass_frame_witness :
  exists meta',
    obj_get "R" (ic_meta (@cache_favicons (Sample.host Unbound) [] Sample.icons []))
    = Some meta'
    /\ m_icon meta' = Some "favicon.ico".
Proof.
  destruct (@favicon_pass_frame (Sample.host Unbound) [] Sample.icons [] "R"
              Sample.icon_R eq_refl) as (meta' & G & _ & Hkeep & _).
  exists meta'. split; [exact G|].
  apply Hkeep; [reflexivity | discriminate | reflexivity].
Defined.

(** C2. On the collection [Sample.duplicate_id] the duplicate-id branch
    does not go on to the remaining items, whatever the free identifier
    [index] of line 770 stands for.  Unbound (the script declares no such
    global): the comparison throws and the run is aborted.  Bound to the
    index of the occupant: the data files are repointed, then [return]
    leaves the whole step; the item "C" after it gets no fallback and the
    table of contents keeps its reference to the unknown "Z".  Bound to
    anything else, here [undefined]: the entry is dropped as a bad entry
    and the data files are not repointed. *)
Theorem duplicate_id_stops_the_pass :
  @fix_meta_and_toc (Sample.host Unbound) Sample.duplicate_id = Aborted
  /\ (exists s',
        @fix_meta_and_toc (Sample.host (Bound (Some "B/index.html"))) Sample.duplicate_id
        = LeftEarly s'
        /\ dirs_lookup "B" (rs_dirs s') = Sample.dir ["A/index.html"]
        /\ obj_get "C" (rs_meta s') = Some (Sample.page None None None None None)
        /\ obj_get "root" (rs_toc s') = Some ["B"; "Z"])
  /\ (exists s',
        @fix_meta_and_toc (Sample.host (Bound None)) Sample.duplicate_id = Finished s'
        /\ obj_get "A" (rs_meta s') = None
        /\ dirs_lookup "B" (rs_dirs s') = None).
Proof.
  split; [vm_compute; reflexivity|]. split.
  - eexists. split; [vm_compute; reflexivity|]. repeat split.
  - eexists. split; [vm_compute; reflexivity|]. repeat split.
Qed.

(** ** The title map *)

Lemma strict_eq_true a b : strict_eq a b = true -> a = b.
Proof.
  destruct a, b; simpl; try discriminate; auto.
  intros H. apply String.eqb_eq in H. now subst.
Qed.

Lemma titleIdMap_get_In title titles id :
  titleIdMap_get title titles = Some id -> In (title, id) titles.
Proof.
  induction titles as [|[t i] titles IH]; simpl; [discriminate|].
  destruct (strict_eq t title) eqn:E.
  - intros [= <-]. apply strict_eq_true in E. subst. now left.
  - intros H. right. auto.
Qed.

Lemma filter_refs_titles metas refs : forall referred titles,
  titles_sound metas titles ->
  titles_sound metas (snd (filter_refs metas refs referred titles)).
Proof.
  induction refs as [|refId refs IH]; intros referred titles Hs; simpl; auto.
  destruct (obj_get refId metas) as [meta|] eqn:G; [|now apply IH].
  destruct (is_reserved refId); [now apply IH|].
  specialize (IH (refId :: referred) ((m_title meta, refId) :: titles)).
  destruct (filter_refs metas refs (refId :: referred) _) as [[kept referred'] titles'].
  simpl in *. apply IH. intros t id [[= <- <-]|Hin]; eauto.
Qed.

Lemma prune_titles_sound metas toc :
  titles_sound metas (pr_titles (prune_toc metas toc)).
Proof.
  unfold prune_toc.
  assert (H : titles_sound metas (pr_titles (mkPrune toc [] []))) by (intros t id []).
  revert H. generalize (mkPrune toc [] []).
  induction (obj_keys toc) as [|k keys IH]; intros st Hs; simpl; auto.
  apply IH. unfold prune_turn.
  destruct (obj_get k (pr_toc st)) as [refs|]; auto.
  destruct (_ && _); auto.
  pose proof (@filter_refs_titles metas refs (pr_referred st) (pr_titles st) Hs) as F.
  destruct (filter_refs metas refs (pr_referred st) (pr_titles st))
    as [[kept referred] titles].
  simpl in F. now destruct (_ && _).
Qed.

Section TitleFacts.
Context {host : Host}.
Hypothesis dateToId_inj : forall t1 t2 : N, dateToId t1 = dateToId t2 -> t1 = t2.

Lemma titles_sound_new metas titles folder folderId :
  titles_sound metas titles ->
  obj_has folderId metas = false ->
  titles_sound (obj_set folderId (folder_meta folder folderId) metas)
               ((Some folder, folderId) :: titles).
Proof.
  intros Hs Hf t id [[= <- <-]|Hin].
  - rewrite obj_get_set_eq. eauto.
  - destruct (Hs t id Hin) as (m & G & Ht). exists m. split; auto.
    rewrite obj_get_set_neq; auto. intros <-.
    apply obj_has_false in Hf. congruence.
Qed.

Lemma resolve_segment_titles parentId st folder folderId st' :
  seg_inv parentId st ->
  titles_sound (ts_meta st) (ts_titles st) ->
  resolve_segment (Ok (parentId, st)) folder = Ok (folderId, st') ->
  titles_sound (ts_meta st') (ts_titles st').
Proof.
  intros (_ & _ & Hp) Hs E. apply obj_has_get in Hp. destruct Hp as [siblings Hp].
  destruct (@resolve_segment_cases host dateToId_inj parentId st folder siblings Hp)
    as [(f & _ & _ & _ & E1)|(_ & F & _ & Hfresh & E1)];
    rewrite E1 in E; injection E as <- <-; simpl; auto.
  now apply titles_sound_new.
Qed.

Lemma resolve_path_titles segments : forall parentId st folderId st',
  seg_inv parentId st ->
  titles_sound (ts_meta st) (ts_titles st) ->
  fold_left resolve_segment segments (Ok (parentId, st)) = Ok (folderId, st') ->
  titles_sound (ts_meta st') (ts_titles st').
Proof.
  induction segments as [|folder segments IH]; intros parentId st folderId st' Hinv Hs E;
    cbn [fold_left] in E.
  - now injection E as <- <-.
  - destruct (@resolve_segment_inv host dateToId_inj parentId st folder Hinv)
      as (f & st1 & E1 & Hinv1 & _).
    rewrite E1 in E. apply (IH f st1 folderId st' Hinv1); auto.
    exact (@resolve_segment_titles parentId st folder f st1 Hinv Hs E1).
Qed.

(** A turn of the insertion keeps the title map sound: whatever identifier
    it gives for a title, the entry of that identifier bears the title. *)
Lemma insert_turn_titles referred id st st' :
  seg_inv "root" st ->
  obj_has id (ts_meta st) = true ->
  titles_sound (ts_meta st) (ts_titles st) ->
  insert_turn referred (Ok st) id = Ok st' ->
  titles_sound (ts_meta st') (ts_titles st').
Proof.
  intros Hinv Hid Hs E. unfold insert_turn in E. cbn [bind] in E.
  assert (Hstrip : forall metas titles meta,
             titles_sound metas titles -> obj_get id metas = Some meta ->
             titles_sound (obj_set id (strip_transient meta) metas) titles).
  { intros metas titles meta H G t i Hin. destruct (H t i Hin) as (m & Gm & Ht).
    rewrite obj_get_set. destruct (String.eqb_spec id i) as [<- | ]; eauto.
    rewrite G in Gm. injection Gm as <-. eauto. }
  destruct (negb (set_has id referred) && negb (is_reserved id)).
  - destruct (@insertToToc_inv host dateToId_inj id st Hinv Hid)
      as (st1 & E1 & Hinv1 & Hext1 & _).
    assert (Hs1 : titles_sound (ts_meta st1) (ts_titles st1)).
    { clear E. unfold insertToToc in E1.
      pose proof Hid as Hid'. apply obj_has_get in Hid'. destruct Hid' as [meta Hmeta].
      rewrite Hmeta in E1. destruct (negb (truthy (m_folder meta))).
      - destruct (toc_push "root" id (ts_toc st)); [|discriminate].
        now injection E1 as <-.
      - destruct (@resolve_path_inv host dateToId_inj
                    (split_path (or_empty (m_folder meta))) "root" st Hinv)
          as (p & st2 & E2 & _ & _).
        pose proof (@resolve_path_titles _ "root" st p st2 Hinv Hs E2) as Hs2.
        rewrite E2 in E1. simpl in E1.
        destruct (toc_push p id (ts_toc st2)); [|discriminate].
        now injection E1 as <-. }
    rewrite E1 in E. cbn [bind] in E.
    assert (Hid1 : obj_has id (ts_meta st1) = true) by (apply Hext1; auto).
    apply obj_has_get in Hid1. destruct Hid1 as [meta1 Hm1].
    rewrite Hm1 in E. cbn [bind ts_meta ts_toc ts_titles ts_tick] in E.
    rewrite Hm1 in E. injection E as <-. cbn [ts_meta ts_titles].
    apply Hstrip; auto. intros t i [[= <- <-]|Hin]; eauto.
  - apply obj_has_get in Hid. destruct Hid as [meta Hm].
    cbn [bind] in E. rewrite Hm in E. injection E as <-. cbn [ts_meta ts_titles].
    now apply Hstrip.
Qed.

End TitleFacts.

(** ** The folder hint *)

Section FolderHintFacts.
Context {host : Host}.
Hypothesis dateToId_inj : forall t1 t2 : N, dateToId t1 = dateToId t2 -> t1 = t2.
Hypothesis dateToId_not_reserved : forall t : N, is_reserved (dateToId t) = false.

Lemma getUniqueId_not_reserved (metas : Metas) tick fresh :
  getUniqueId (dateToId (clock tick)) metas = Ok fresh -> is_reserved fresh = false.
Proof.
  intros E.
  destruct (getUniqueId_ok dateToId_inj metas (dateToId (clock tick)))
    as (f & E' & _ & [-> | (k & _ & -> & _)]);
    rewrite E in E'; injection E' as ->; apply dateToId_not_reserved.
Qed.

Lemma not_reserved_root f : is_reserved f = false -> "root" <> f.
Proof. intros H <-. discriminate H. Qed.

(** The hint "Work", tab, "Projects" on an item, when no child of the root
    is titled "Work". *)
Lemma nested_folders_created (st : TocState) (id : string) (meta : Meta)
      (roots : list string) :
  obj_get id (ts_meta st) = Some meta ->
  m_folder meta = Some ("Work" ++ String TAB "Projects") ->
  obj_get "root" (ts_toc st) = Some roots ->
  titles_sound (ts_meta st) (ts_titles st) ->
  (forall child entry,
      In child roots -> obj_get child (ts_meta st) = Some entry ->
      m_title entry <> Some "Work") ->
  (forall k, obj_has k (ts_toc st) = true ->
             obj_has k (ts_meta st) = true \/ is_reserved k = true) ->
  exists work projects st',
    insertToToc id st = Ok st'
    /\ obj_has work (ts_meta st) = false
    /\ obj_has projects (ts_meta st) = false
    /\ work <> projects
    /\ obj_get work (ts_meta st') = Some (folder_meta "Work" work)
    /\ obj_get projects (ts_meta st') = Some (folder_meta "Projects" projects)
    /\ obj_get "root" (ts_toc st') = Some (roots ++ [work])%list
    /\ obj_get work (ts_toc st') = Some [projects]
    /\ obj_get projects (ts_toc st') = Some [id].
Proof.
  intros Hmeta Hfolder Hroot Hsound Huntitled Hkeys.
  assert (Hnone : forall folderId,
             titleIdMap_get (Some "Work") (ts_titles st) = Some folderId ->
             ~ In folderId roots).
  { intros f Hf Hin. apply titleIdMap_get_In in Hf.
    destruct (Hsound _ _ Hf) as (entry & G & Ht). exact (Huntitled f entry Hin G Ht). }
  assert (Habsent : forall f, obj_has f (ts_meta st) = false ->
                              is_reserved f = false -> obj_get f (ts_toc st) = None).
  { intros f Hf Hr. apply obj_has_false.
    destruct (obj_has f (ts_toc st)) eqn:Ht; auto.
    destruct (Hkeys f Ht); congruence. }
  unfold insertToToc. rewrite Hmeta, Hfolder.
  change (truthy (Some ("Work" ++ String TAB "Projects"))) with true.
  change (split_path (or_empty (Some ("Work" ++ String TAB "Projects"))))
    with ["Work"; "Projects"].
  cbn [negb fold_left].
  destruct (@resolve_segment_cases host dateToId_inj "root" st "Work" roots Hroot)
    as [(f & Ht & Hm & Hin & _) | (_ & work & Eu1 & Hf1 & E1)].
  { destruct (Hnone f Ht Hin). }
  rewrite E1. clear E1.
  pose proof (getUniqueId_not_reserved _ _ Eu1) as Hr1.
  pose proof (@not_reserved_root work Hr1) as Hroot1.
  set (toc1 := obj_set "root" (roots ++ [work])%list (ts_toc st)).
  set (toc1' := ensure_list work toc1).
  set (metas1 := obj_set work (folder_meta "Work" work) (ts_meta st)).
  assert (Gw1 : obj_get work toc1' = Some []).
  { unfold toc1'. rewrite get_ensured. unfold toc1.
    rewrite obj_get_set_neq, (Habsent work), String.eqb_refl; auto. }
  destruct (@resolve_segment_cases host dateToId_inj work
              (mkTocSt toc1' metas1 ((Some "Work", work) :: ts_titles st) (S (ts_tick st)))
              "Projects" [] Gw1)
    as [(f & _ & _ & [] & _) | (_ & projects & Eu2 & Hf2 & E2)].
  rewrite E2. clear E2. simpl in Eu2, Hf2.
  pose proof (getUniqueId_not_reserved _ _ Eu2) as Hr2.
  pose proof (@not_reserved_root projects Hr2) as Hroot2.
  unfold metas1 in Hf2. rewrite obj_has_set in Hf2. apply orb_false_iff in Hf2.
  destruct Hf2 as [Hne Hf2]. apply String.eqb_neq in Hne.
  cbn [ts_toc ts_meta ts_titles ts_tick app].
  set (toc2 := obj_set work [projects] toc1').
  set (toc2' := ensure_list projects toc2).
  assert (Gp2 : obj_get projects toc2' = Some []).
  { unfold toc2'. rewrite get_ensured. unfold toc2.
    rewrite obj_get_set_neq by assumption. unfold toc1'. rewrite get_ensured.
    unfold toc1. rewrite obj_get_set_neq, (Habsent projects) by auto.
    destruct (String.eqb_spec work projects); [congruence|].
    now rewrite String.eqb_refl. }
  cbn [bind]. unfold toc_push. cbn [ts_toc ts_meta ts_titles ts_tick].
  rewrite Gp2. cbn [bind app].
  exists work, projects. eexists. split; [reflexivity|].
  cbn [ts_toc ts_meta].
  split; [assumption|]. split; [assumption|]. split; [assumption|].
  split; [|split; [|split; [|split]]].
  - rewrite obj_get_set_neq by congruence. unfold metas1. apply obj_get_set_eq.
  - apply obj_get_set_eq.
  - rewrite obj_get_set_neq by congruence. unfold toc2'. rewrite get_ensured.
    unfold toc2. rewrite obj_get_set_neq by congruence.
    unfold toc1'. rewrite get_ensured. unfold toc1. now rewrite obj_get_set_eq.
  - rewrite obj_get_set_neq by congruence. unfold toc2'. rewrite get_ensured.
    unfold toc2. now rewrite obj_get_set_eq.
  - apply obj_get_set_eq.
Qed.

End FolderHintFacts.

(** ** Splitting a folder hint *)

Lemma skip_path_seps_length s : String.length (skip_path_seps s) <= String.length s.
Proof.
  induction s as [|a s IH]; cbn [skip_path_seps]; [lia|].
  destruct (is_path_sep a); cbn [String.length]; lia.
Qed.

Lemma split_path_aux_S fuel a s :
  split_path_aux (S fuel) (String a s)
  = if is_path_sep a then "" :: split_path_aux fuel (skip_path_seps s)
    else match split_path_aux fuel s with
         | [] => [String a ""]
         | w :: ws => String a w :: ws
         end.
Proof. reflexivity. Qed.

Lemma split_path_aux_fuel fuel : forall fuel' s,
  String.length s < fuel -> String.length s < fuel' ->
  split_path_aux fuel s = split_path_aux fuel' s.
Proof.
  induction fuel as [|fuel IH]; intros fuel' s H H'; [lia|].
  destruct fuel' as [|fuel']; [lia|].
  destruct s as [|a s]; [reflexivity|]. cbn [String.length] in H, H'.
  rewrite !split_path_aux_S.
  destruct (is_path_sep a).
  - f_equal. pose proof (skip_path_seps_length s). apply IH; lia.
  - rewrite (IH fuel' s) by lia. reflexivity.
Qed.

Lemma split_path_cons a s :
  split_path (String a s)
  = if is_path_sep a then "" :: split_path (skip_path_seps s)
    else match split_path s with
         | [] => [String a ""]
         | w :: ws => String a w :: ws
         end.
Proof.
  unfold split_path. change (String.length (String a s)) with (S (String.length s)).
  rewrite split_path_aux_S.
  pose proof (skip_path_seps_length s).
  destruct (is_path_sep a).
  - f_equal. apply split_path_aux_fuel; lia.
  - reflexivity.
Qed.

(** The five characters of the class, one by one. *)
Lemma is_path_sep_In a :
  is_path_sep a = true <-> In a [TAB; LF; CR; VT; FF].
Proof.
  unfold is_path_sep. rewrite !orb_true_iff, !Ascii.eqb_eq. cbn [In]. intuition congruence.
Qed.

Lemma split_path_word w :
  (forall c, In c [TAB; LF; CR; VT; FF] -> contains_char c w = false) ->
  split_path w = [w].
Proof.
  induction w as [|a w IH]; intros H; [reflexivity|].
  rewrite split_path_cons.
  assert (Ha : is_path_sep a = false).
  { destruct (is_path_sep a) eqn:E; [|reflexivity].
    apply is_path_sep_In in E. specialize (H a E). cbn [contains_char] in H.
    now rewrite Ascii.eqb_refl in H. }
  rewrite Ha, IH; [reflexivity|].
  intros c Hc. specialize (H c Hc). cbn [contains_char] in H.
  destruct (Ascii.eqb a c); [discriminate|exact H].
Qed.

Lemma skip_path_seps_run run tail :
  (forall c, contains_char c run = true -> In c [TAB; LF; CR; VT; FF]) ->
  (forall a tail', tail = String a tail' -> ~ In a [TAB; LF; CR; VT; FF]) ->
  skip_path_seps (run ++ tail) = tail.
Proof.
  intros Hrun Htail. induction run as [|a run IH]; cbn [append skip_path_seps].
  - destruct tail as [|a tail']; [reflexivity|]. cbn [skip_path_seps].
    destruct (is_path_sep a) eqn:E; [|reflexivity].
    apply is_path_sep_In in E. destruct (Htail a tail' eq_refl E).
  - assert (Ha : is_path_sep a = true).
    { apply is_path_sep_In. apply Hrun. cbn [contains_char]. now rewrite Ascii.eqb_refl. }
    rewrite Ha. apply IH. intros c Hc. apply Hrun. cbn [contains_char].
    now destruct (Ascii.eqb a c).
Qed.

Lemma split_path_segment w c run tail :
  (forall c', In c' [TAB; LF; CR; VT; FF] -> contains_char c' w = false) ->
  In c [TAB; LF; CR; VT; FF] ->
  (forall c', contains_char c' run = true -> In c' [TAB; LF; CR; VT; FF]) ->
  (forall a tail', tail = String a tail' -> ~ In a [TAB; LF; CR; VT; FF]) ->
  split_path (w ++ String c (run ++ tail)) = w :: split_path tail.
Proof.
  intros Hw Hc Hrun Htail. induction w as [|a w IH].
  - cbn [append]. rewrite split_path_cons.
    rewrite (proj2 (is_path_sep_In c) Hc). now rewrite skip_path_seps_run.
  - cbn [append]. rewrite split_path_cons.
    assert (Ha : is_path_sep a = false).
    { destruct (is_path_sep a) eqn:E; [|reflexivity].
      apply is_path_sep_In in E. specialize (Hw a E). cbn [contains_char] in Hw.
      now rewrite Ascii.eqb_refl in Hw. }
    rewrite Ha, IH; [reflexivity|].
    intros c' Hc'. specialize (Hw c' Hc'). cbn [contains_char] in Hw.
    destruct (Ascii.eqb a c'); [discriminate|exact Hw].
Qed.

(** ** The title map *)

Lemma strict_eq_refl a : strict_eq a a = true.
Proof. destruct a; cbn; [apply String.eqb_refl|reflexivity]. Qed.

Lemma titleIdMap_get_latest title folderId newer older :
  (forall t i, In (t, i) newer -> t <> title) ->
  titleIdMap_get title (newer ++ (title, folderId) :: older)%list = Some folderId.
Proof.
  intros H. induction newer as [|[t i] newer IH]; cbn [app titleIdMap_get].
  - now rewrite strict_eq_refl.
  - destruct (strict_eq t title) eqn:E.
    + exfalso. apply (H t i); [now left|]. now apply strict_eq_true.
    + apply IH. intros t' i' Hin. apply (H t' i'). now right.
Qed.

Lemma titleIdMap_get_absent title (titles : TitleMap) :
  (forall t i, In (t, i) titles -> t <> title) ->
  titleIdMap_get title titles = None.
Proof.
  intros H. induction titles as [|[t i] titles IH]; cbn [titleIdMap_get]; [reflexivity|].
  destruct (strict_eq t title) eqn:E.
  - exfalso. apply (H t i); [now left|]. now apply strict_eq_true.
  - apply IH. intros t' i' Hin. apply (H t' i'). now right.
Qed.

(** ** The folder hint, segment by segment *)

Section HintFacts.
Context {host : Host}.
Hypothesis dateToId_inj : forall t1 t2 : N, dateToId t1 = dateToId t2 -> t1 = t2.

(** With a hint, the item is appended to the folder its last segment
    resolves to. *)
Lemma insertToToc_hinted id st meta :
  seg_inv "root" st ->
  obj_get id (ts_meta st) = Some meta ->
  truthy (m_folder meta) = true ->
  exists parentId st1 siblings,
    fold_left resolve_segment (split_path (or_empty (m_folder meta))) (Ok ("root", st))
    = Ok (parentId, st1)
    /\ obj_get parentId (ts_toc st1) = Some siblings
    /\ insertToToc id st
       = Ok (mkTocSt (obj_set parentId (siblings ++ [id])%list (ts_toc st1))
                     (ts_meta st1) (ts_titles st1) (ts_tick st1)).
Proof.
  intros Hinv G T.
  destruct (@resolve_path_inv host dateToId_inj (split_path (or_empty (m_folder meta)))
              "root" st Hinv) as (parentId & st1 & E & (_ & _ & Hp) & _).
  apply obj_has_get in Hp. destruct Hp as [siblings Hp].
  exists parentId, st1, siblings. split; [exact E|]. split; [exact Hp|].
  unfold insertToToc. rewrite G, T. cbn [negb]. rewrite E. cbn [bind].
  unfold toc_push. rewrite Hp. reflexivity.
Qed.

Lemma insertToToc_unhinted id st meta roots :
  obj_get id (ts_meta st) = Some meta ->
  truthy (m_folder meta) = false ->
  obj_get "root" (ts_toc st) = Some roots ->
  insertToToc id st
  = Ok (mkTocSt (obj_set "root" (roots ++ [id])%list (ts_toc st))
                (ts_meta st) (ts_titles st) (ts_tick st)).
Proof.
  intros G T Hr. unfold insertToToc. rewrite G, T. cbn [negb].
  unfold toc_push. rewrite Hr. reflexivity.
Qed.

(** The two ways of a segment, told by what the title map holds: the
    identifier written last for the title counts. *)
Lemma resolve_segment_latest parentId st folder siblings newer folderId older :
  obj_get parentId (ts_toc st) = Some siblings ->
  ts_titles st = (newer ++ (Some folder, folderId) :: older)%list ->
  (forall t i, In (t, i) newer -> t <> Some folder) ->
  if obj_has folderId (ts_meta st) && existsb (String.eqb folderId) siblings
  then resolve_segment (Ok (parentId, st)) folder
       = Ok (folderId,
             mkTocSt (ensure_list folderId (ts_toc st))
                     (ts_meta st) (ts_titles st) (ts_tick st))
  else exists fresh,
         getUniqueId (dateToId (clock (ts_tick st))) (ts_meta st) = Ok fresh
         /\ obj_has fresh (ts_meta st) = false
         /\ resolve_segment (Ok (parentId, st)) folder
            = Ok (fresh,
                  mkTocSt (ensure_list fresh
                             (obj_set parentId (siblings ++ [fresh])%list (ts_toc st)))
                          (obj_set fresh (folder_meta folder fresh) (ts_meta st))
                          ((Some folder, fresh) :: ts_titles st)
                          (S (ts_tick st))).
Proof.
  intros Hp Ht Hnewer.
  pose proof (@titleIdMap_get_latest (Some folder) folderId newer older Hnewer) as Hget.
  rewrite <- Ht in Hget.
  destruct (@resolve_segment_cases host dateToId_inj parentId st folder siblings Hp)
    as [(f & Hf & Hm & Hin & E) | (Hno & fresh & Eu & Hfresh & E)].
  - rewrite Hget in Hf. injection Hf as <-. rewrite Hm.
    assert (Hex : existsb (String.eqb folderId) siblings = true).
    { apply existsb_exists. exists folderId. split; [exact Hin|apply String.eqb_refl]. }
    rewrite Hex. exact E.
  - destruct (obj_has folderId (ts_meta st) && existsb (String.eqb folderId) siblings) eqn:C.
    + exfalso. apply andb_true_iff in C. destruct C as [Hm Hex].
      apply existsb_exists in Hex. destruct Hex as (x & Hin & Ex).
      apply String.eqb_eq in Ex. subst x.
      destruct (Hno folderId Hget) as [H|H]; [congruence|contradiction].
    + exists fresh. auto.
Qed.

Lemma resolve_segment_untitled parentId st folder siblings :
  obj_get parentId (ts_toc st) = Some siblings ->
  (forall t i, In (t, i) (ts_titles st) -> t <> Some folder) ->
  exists fresh,
    getUniqueId (dateToId (clock (ts_tick st))) (ts_meta st) = Ok fresh
    /\ obj_has fresh (ts_meta st) = false
    /\ resolve_segment (Ok (parentId, st)) folder
       = Ok (fresh,
             mkTocSt (ensure_list fresh
                        (obj_set parentId (siblings ++ [fresh])%list (ts_toc st)))
                     (obj_set fresh (folder_meta folder fresh) (ts_meta st))
                     ((Some folder, fresh) :: ts_titles st)
                     (S (ts_tick st))).
Proof.
  intros Hp Hnone.
  pose proof (@titleIdMap_get_absent (Some folder) (ts_titles st) Hnone) as Hget.
  destruct (@resolve_segment_cases host dateToId_inj parentId st folder siblings Hp)
    as [(f & Hf & _) | (_ & fresh & Eu & Hfresh & E)].
  - rewrite Hget in Hf. discriminate Hf.
  - exists fresh. auto.
Qed.

End HintFacts.

(** C4 (as amended).  The folder hint of an item is cut at every run of
    tabs, line feeds, carriage returns, vertical tabs and form feeds, and
    the item is appended to the folder its last segment resolves to, or to
    the root when it has no hint.  A segment is resolved, under the current
    parent, to the identifier written last in the title map for its text,
    when that identifier has a metadata entry and is already a child of the
    parent; the type of that child is not looked at.  Otherwise, and when
    the map has nothing for the text, to a new folder, whose identifier is
    not in use (the current time as an identifier, or the first unused one
    among the following instants), which gets a folder entry with the
    segment as title and is appended to the parent.  In particular, for the
    hint "Work", tab, "Projects" with no child of the root, of any type,
    titled "Work", two folders are created, "Projects" under "Work" under
    the root, and the item is appended to "Projects"; there the title map
    is taken to be sound, which it is after the pruning and stays through
    every turn of the insertion.  The identifiers are taken to be none of
    the names an object inherits. *)
Theorem folder_hint_insertion {host : Host}
        (dateToId_inj : forall t1 t2 : N, dateToId t1 = dateToId t2 -> t1 = t2)
        (dateToId_not_reserved : forall t : N, is_reserved (dateToId t) = false)
        (dateToId_plain : forall t : N, inherited (dateToId t) = false) :
  ((forall w, (forall c, In c [TAB; LF; CR; VT; FF] -> contains_char c w = false) ->
              split_path w = [w])
   /\ (forall w c run tail,
         (forall c', In c' [TAB; LF; CR; VT; FF] -> contains_char c' w = false) ->
         In c [TAB; LF; CR; VT; FF] ->
         (forall c', contains_char c' run = true -> In c' [TAB; LF; CR; VT; FF]) ->
         (forall a tail', tail = String a tail' -> ~ In a [TAB; LF; CR; VT; FF]) ->
         split_path (w ++ String c (run ++ tail)) = w :: split_path tail))
  /\ ((forall id st meta,
         seg_inv "root" st ->
         obj_get id (ts_meta st) = Some meta ->
         truthy (m_folder meta) = true ->
         exists parentId st1 siblings,
           fold_left resolve_segment (split_path (or_empty (m_folder meta)))
                     (Ok ("root", st)) = Ok (parentId, st1)
           /\ obj_get parentId (ts_toc st1) = Some siblings
           /\ insertToToc id st
              = Ok (mkTocSt (obj_set parentId (siblings ++ [id])%list (ts_toc st1))
                            (ts_meta st1) (ts_titles st1) (ts_tick st1)))
      /\ (forall id st meta roots,
            obj_get id (ts_meta st) = Some meta ->
            truthy (m_folder meta) = false ->
            obj_get "root" (ts_toc st) = Some roots ->
            insertToToc id st
            = Ok (mkTocSt (obj_set "root" (roots ++ [id])%list (ts_toc st))
                          (ts_meta st) (ts_titles st) (ts_tick st))))
  /\ ((forall parentId st folder siblings newer folderId older,
         obj_get parentId (ts_toc st) = Some siblings ->
         ts_titles st = (newer ++ (Some folder, folderId) :: older)%list ->
         (forall t i, In (t, i) newer -> t <> Some folder) ->
         inherited folderId = false ->
         if obj_has folderId (ts_meta st) && existsb (String.eqb folderId) siblings
         then resolve_segment (Ok (parentId, st)) folder
              = Ok (folderId,
                    mkTocSt (ensure_list folderId (ts_toc st))
                            (ts_meta st) (ts_titles st) (ts_tick st))
         else exists fresh,
                getUniqueId (dateToId (clock (ts_tick st))) (ts_meta st) = Ok fresh
                /\ obj_has fresh (ts_meta st) = false
                /\ resolve_segment (Ok (parentId, st)) folder
                   = Ok (fresh,
                         mkTocSt (ensure_list fresh
                                    (obj_set parentId (siblings ++ [fresh])%list
                                             (ts_toc st)))
                                 (obj_set fresh (folder_meta folder fresh) (ts_meta st))
                                 ((Some folder, fresh) :: ts_titles st)
                                 (S (ts_tick st))))
      /\ (forall parentId st folder siblings,
            obj_get parentId (ts_toc st) = Some siblings ->
            (forall t i, In (t, i) (ts_titles st) -> t <> Some folder) ->
            exists fresh,
              getUniqueId (dateToId (clock (ts_tick st))) (ts_meta st) = Ok fresh
              /\ obj_has fresh (ts_meta st) = false
              /\ resolve_segment (Ok (parentId, st)) folder
                 = Ok (fresh,
                       mkTocSt (ensure_list fresh
                                  (obj_set parentId (siblings ++ [fresh])%list (ts_toc st)))
                               (obj_set fresh (folder_meta folder fresh) (ts_meta st))
                               ((Some folder, fresh) :: ts_titles st)
                               (S (ts_tick st)))))
  /\ (forall id metas,
        exists fresh,
          getUniqueId id metas = Ok fresh
          /\ obj_has fresh metas = false
          /\ (fresh = id
              \/ exists k, (0 < k)%N /\ fresh = dateToId (idToDate id + k)
                   /\ obj_has id metas = true
                   /\ forall j, (0 < j < k)%N ->
                                obj_has (dateToId (idToDate id + j)) metas = true))
  /\ (forall st id meta roots,
        obj_get id (ts_meta st) = Some meta ->
        m_folder meta = Some ("Work" ++ String TAB "Projects") ->
        obj_get "root" (ts_toc st) = Some roots ->
        titles_sound (ts_meta st) (ts_titles st) ->
        (forall child entry,
            In child roots -> obj_get child (ts_meta st) = Some entry ->
            m_title entry <> Some "Work") ->
        (forall k, obj_has k (ts_toc st) = true ->
                   obj_has k (ts_meta st) = true \/ is_reserved k = true) ->
        exists work projects st',
          insertToToc id st = Ok st'
          /\ obj_has work (ts_meta st) = false
          /\ obj_has projects (ts_meta st) = false
          /\ work <> projects
          /\ obj_get work (ts_meta st') = Some (folder_meta "Work" work)
          /\ obj_get projects (ts_meta st') = Some (folder_meta "Projects" projects)
          /\ obj_get "root" (ts_toc st') = Some (roots ++ [work])%list
          /\ obj_get work (ts_toc st') = Some [projects]
          /\ obj_get projects (ts_toc st') = Some [id])
  /\ (forall metas toc, titles_sound metas (pr_titles (prune_toc metas toc)))
  /\ (forall referred id st st',
        seg_inv "root" st ->
        obj_has id (ts_meta st) = true ->
        titles_sound (ts_meta st) (ts_titles st) ->
        insert_turn referred (Ok st) id = Ok st' ->
        titles_sound (ts_meta st') (ts_titles st')).
Proof.
  split; [|split; [|split; [|split; [|split; [|split]]]]].
  - split; [exact split_path_word|exact split_path_segment].
  - split.
    + intros id st meta. exact (@insertToToc_hinted host dateToId_inj id st meta).
    + intros id st meta roots. exact (@insertToToc_unhinted host id st meta roots).
  - split.
    + intros parentId st folder siblings newer folderId older Hp Ht Hn _.
      exact (@resolve_segment_latest host dateToId_inj parentId st folder siblings
               newer folderId older Hp Ht Hn).
    + intros parentId st folder siblings.
      exact (@resolve_segment_untitled host dateToId_inj parentId st folder siblings).
  - intros id metas. exact (@getUniqueId_ok host dateToId_inj metas id).
  - intros st id meta roots.
    exact (@nested_folders_created host dateToId_inj dateToId_not_reserved st id meta roots).
  - exact prune_titles_sound.
  - intros referred id st st'.
    exact (@insert_turn_titles host dateToId_inj referred id st st').
Qed.

Lemma decimalId_not_reserved (t : N) : is_reserved (Sample.decimalId t) = false.
Proof.
  unfold is_reserved, Sample.decimalId.
  apply orb_false_iff. split; apply String.eqb_neq; intros E;
    apply (f_equal NilEmpty.uint_of_string) in E; rewrite NilEmpty.usu in E;
    discriminate E.
Qed.

(** C4, the sentence as written, fails when the root lists a bookmark
    titled "Work": no folder bears that title, yet the bookmark is taken
    for the folder of the first segment and one folder is made, not two. *)
Lemma bookmark_titled_work_is_reused :
  exists s',
    @fix_meta_and_toc (Sample.host Unbound) Fixture.bookmark_work = Finished s'
    /\ ~ scenario_D Fixture.bookmark_work s'.
Proof.
  eexists. split; [vm_compute; reflexivity|].
  intros H. destruct (H "X" Sample.hinted_meta eq_refl eq_refl)
    as (work & projects & roots & Hne & Hw0 & Hp0 & Hw & Hp & _).
  - intros roots child entry Hr Hin G Ht.
    vm_compute in Hr. injection Hr as <-. destruct Hin as [<- | []].
    vm_compute in G. injection G as <-. discriminate Ht.
  - assert (Hnew : forall k, obj_has k (rs_meta Fixture.bookmark_work) = false ->
                             obj_has k
                               [("W", Sample.hinted_meta); ("X", Sample.hinted_meta);
                                ("20200101000000000", Sample.hinted_meta)] = true ->
                             k = "20200101000000000").
    { intros k H0 H1. unfold obj_has in H0, H1. cbn [Fixture.bookmark_work rs_meta obj_get] in H0, H1.
      destruct (String.eqb "W" k); [discriminate H0|].
      destruct (String.eqb "X" k); [discriminate H0|].
      destruct (String.eqb_spec "20200101000000000" k); [congruence|discriminate H1]. }
    apply Hne. transitivity "20200101000000000".
    + apply Hnew; [exact Hw0|]. unfold obj_has in *. cbn [rs_meta obj_get] in *.
      destruct (String.eqb "W" work); [reflexivity|].
      destruct (String.eqb "X" work); [reflexivity|].
      destruct (String.eqb "20200101000000000" work); [reflexivity|discriminate Hw].
    + symmetry. apply Hnew; [exact Hp0|]. unfold obj_has in *. cbn [rs_meta obj_get] in *.
      destruct (String.eqb "W" projects); [reflexivity|].
      destruct (String.eqb "X" projects); [reflexivity|].
      destruct (String.eqb "20200101000000000" projects); [reflexivity|discriminate Hp].
Qed.

(** The fixture is a state the insertion can start from. *)
Lemma busy_state_inv : seg_inv "root" Fixture.busy_state.
Proof.
  split; [|split; [|reflexivity]].
  - intros k refs c G Hin. unfold obj_has.
    cbn [Fixture.busy_state ts_toc ts_meta obj_get] in *.
    destruct (String.eqb "root" k).
    + injection G as <-. destruct Hin as [<- |[<- |[]]]; reflexivity.
    + destruct (String.eqb "F" k); [|discriminate G].
      injection G as <-. destruct Hin as [<- |[]]; reflexivity.
  - intros k refs G Hr. unfold obj_has.
    cbn [Fixture.busy_state ts_toc ts_meta obj_get] in *.
    destruct (String.eqb_spec "root" k) as [E | _].
    + subst k. discriminate Hr.
    + destruct (String.eqb_spec "F" k) as [E | _]; [|discriminate G].
      subst k. injection G as <-. split; [reflexivity|left; discriminate].
Qed.

Lemma folder_hint_insertion_witness :
  (exists work projects st',
    @insertToToc (Sample.host Unbound) "X" Fixture.busy_state = Ok st'
    /\ work <> projects
    /\ obj_get "root" (ts_toc st') = Some ["P"; "F"; work]
    /\ obj_get work (ts_toc st') = Some [projects]
    /\ obj_get projects (ts_toc st') = Some ["X"])
  /\ (exists parentId st1 siblings,
        fold_left (@resolve_segment (Sample.host Unbound))
                  (split_path ("Work" ++ String TAB "Projects"))
                  (Ok ("root", Fixture.busy_state)) = Ok (parentId, st1)
        /\ obj_get parentId (ts_toc st1) = Some siblings
        /\ @insertToToc (Sample.host Unbound) "X" Fixture.busy_state
           = Ok (mkTocSt (obj_set parentId (siblings ++ ["X"])%list (ts_toc st1))
                         (ts_meta st1) (ts_titles st1) (ts_tick st1))).
Proof.
  destruct (@folder_hint_insertion (Sample.host Unbound) decimalId_inj
              decimalId_not_reserved decimalId_plain) as (_ & [H2 _] & _ & _ & H & _).
  split.
  - destruct (H Fixture.busy_state "X" Sample.hinted_meta ["P"; "F"])
      as (work & projects & st' & E & _ & _ & Hne & _ & _ & Hr & Hw & Hp).
    + reflexivity.
    + reflexivity.
    + reflexivity.
    + intros title f Hin. cbn [Fixture.busy_state ts_titles ts_meta] in *.
      destruct Hin as [Hin|[Hin|[Hin|[]]]]; injection Hin as <- <-;
        eexists; split; reflexivity.
    + intros child entry Hin G. cbn [Fixture.busy_state ts_meta] in G.
      destruct Hin as [<- |[<- |[]]]; vm_compute in G; injection G as <-; discriminate.
    + intros k Hk. unfold obj_has in *. cbn [Fixture.busy_state ts_toc ts_meta obj_get] in *.
      destruct (String.eqb_spec "root" k) as [E | _]; [rewrite <- E; now right|].
      destruct (String.eqb_spec "F" k) as [E | _]; [rewrite <- E; now left|discriminate Hk].
    + exists work, projects, st'. auto.
  - exact (H2 "X" Fixture.busy_state Sample.hinted_meta busy_state_inv eq_refl eq_refl).
Defined.

(** ** Items without data files, and the index file *)

Section IndexFacts.
Context {host : Host}.

Lemma truthy_append a b : truthy (Some b) = true -> truthy (Some (a ++ b)) = true.
Proof. destruct a; simpl; auto. Qed.

Lemma getIndexPath_found (itemFiles : ItemFiles) id index :
  getIndexPath itemFiles id = Some index ->
  obj_has index itemFiles = true /\ truthy (Some index) = true.
Proof.
  unfold getIndexPath. cbv zeta.
  repeat match goal with
         | |- context [if obj_has ?p itemFiles then _ else _] =>
             let E := fresh "E" in
             destruct (obj_has p itemFiles) eqn:E;
             [intros H; injection H as <-; split; [exact E|now apply truthy_append]|]
         end.
  discriminate.
Qed.

Lemma is_container_or_empty type : is_container (Some (or_empty type)) = is_container type.
Proof. destruct type; reflexivity. Qed.

Lemma fix_index_settled id meta dataDirs meta1 :
  fix_index id meta dataDirs = Some meta1 ->
  m_type meta1 = m_type meta /\ index_settled dataDirs id meta1.
Proof.
  unfold fix_index, index_settled.
  destruct (is_container (m_type meta)) eqn:C; simpl.
  - intros [= <-]. split; [reflexivity|]. congruence.
  - destruct (dirs_lookup id dataDirs) as [itemFiles|]; [|discriminate].
    destruct (negb (truthy (m_index meta))
              || negb (obj_has (or_empty (m_index meta)) itemFiles)) eqn:B.
    + destruct (getIndexPath itemFiles id) as [index|] eqn:G.
      * intros [= <-]. simpl. split; [reflexivity|]. intros _.
        exists itemFiles. split; [reflexivity|]. left. exists index.
        split; [reflexivity|]. now apply getIndexPath_found in G.
      * intros [= <-]. split; [reflexivity|]. intros _. exists itemFiles. auto.
    + intros [= <-]. split; [reflexivity|]. intros _. exists itemFiles.
      split; [reflexivity|]. left.
      apply orb_false_iff in B. destruct B as [B1 B2].
      apply negb_false_iff in B1, B2. apply truthy_Some in B1.
      exists (or_empty (m_index meta)). split; assumption.
Qed.

Lemma fix_fields_keeps id meta tick :
  m_index (fst (fix_fields id meta tick)) = m_index meta
  /\ is_container (m_type (fst (fix_fields id meta tick))) = is_container (m_type meta).
Proof.
  unfold fix_fields. destruct (truthy (m_modify meta)); simpl; split; auto;
    rewrite or_empty_js_or; apply is_container_or_empty.
Qed.

Lemma finish_turn_index meta id attached st :
  exists st1,
    finish_turn meta id attached st = Next st1
    /\ fx_dirs st1 = fx_dirs st
    /\ (forall id', id' <> id -> obj_get id' (fx_meta st1) = obj_get id' (fx_meta st))
    /\ (forall m, obj_get id (fx_meta st1) = Some m ->
          (attached = true /\ index_settled (fx_dirs st) id m)
          \/ (attached = false /\ obj_get id (fx_meta st) = Some m)).
Proof.
  unfold finish_turn. destruct (fix_index id meta (fx_dirs st)) as [meta1|] eqn:F.
  - destruct (fix_fields id meta1 (fx_tick st)) as [meta2 tick'] eqn:E.
    eexists. split; [reflexivity|]. simpl. split; [reflexivity|].
    destruct attached.
    + split.
      * intros id' Hne. now apply obj_get_set_neq.
      * intros m. rewrite obj_get_set_eq. intros [= <-]. left. split; [reflexivity|].
        destruct (@fix_index_settled id meta (fx_dirs st) meta1 F) as [Ht Hs].
        destruct (fix_fields_keeps id meta1 (fx_tick st)) as [Hi Hc].
        rewrite E in Hi, Hc. simpl in Hi, Hc.
        intros C. rewrite Hc in C. destruct (Hs C) as (files & L & H).
        exists files. split; [assumption|]. now rewrite Hi.
    + split; auto.
  - eexists. split; [reflexivity|]. simpl. split; [reflexivity|]. split.
    + intros id' Hne. now apply obj_get_del_neq.
    + intros m. now rewrite obj_get_del_eq.
Qed.

Lemma dirs_lookup_repoint id newId k dataDirs :
  k <> id -> k <> newId ->
  dirs_lookup k (repoint_dirs id newId dataDirs) = dirs_lookup k dataDirs.
Proof.
  intros H1 H2. unfold dirs_lookup, repoint_dirs.
  rewrite obj_get_del_neq, obj_get_set_neq; auto.
Qed.

Lemma dirs_lookup_repointed id newId dataDirs :
  newId <> id ->
  dirs_lookup newId (repoint_dirs id newId dataDirs) = dirs_lookup id dataDirs.
Proof.
  intros H. unfold dirs_lookup at 1, repoint_dirs.
  rewrite obj_get_del_neq, obj_get_set_eq; auto.
Qed.

Lemma index_settled_frame dataDirs dataDirs' id meta :
  dirs_lookup id dataDirs' = dirs_lookup id dataDirs ->
  index_settled dataDirs id meta -> index_settled dataDirs' id meta.
Proof. unfold index_settled. intros ->. auto. Qed.

Lemma declares_other_id_neq id meta :
  declares_other_id id meta = true -> or_empty (m_id meta) <> id.
Proof.
  unfold declares_other_id. intros H. apply andb_true_iff in H. destruct H as [T H].
  apply negb_true_iff in H. destruct (m_id meta) as [n|]; simpl in *.
  - now apply String.eqb_neq.
  - discriminate T.
Qed.

Lemma meta_turn_index i rest st st1 :
  ~ In i rest ->
  (forall id m, obj_get id (fx_meta st) = Some m ->
                In id (i :: rest) \/ index_settled (fx_dirs st) id m) ->
  meta_turn i st = Next st1 ->
  forall id m, obj_get id (fx_meta st1) = Some m ->
               In id rest \/ index_settled (fx_dirs st1) id m.
Proof.
  intros Hi Hinv. unfold meta_turn.
  destruct (obj_get i (fx_meta st)) as [meta|] eqn:G.
  2:{ intros [= <-] id m Hm. destruct (Hinv _ _ Hm) as [[<- | H]|H]; auto. congruence. }
  destruct (declares_other_id i meta) eqn:D.
  - pose proof (@declares_other_id_neq i meta D) as Hne.
    set (newId := or_empty (m_id meta)) in *.
    destruct (obj_get newId (fx_meta st)) as [occupant|] eqn:O.
    + destruct outer_index as [|index]; [discriminate|].
      destruct (strict_eq (m_index occupant) index); [discriminate|].
      destruct (finish_turn_index meta i false
                  (mkFix (obj_del i (fx_meta st)) (fx_dirs st) (fx_tick st)))
        as (st2 & E & Hd & Hother & Hself).
      rewrite E. intros [= <-] id m Hm. simpl in *. rewrite Hd.
      destruct (String.eqb_spec id i) as [-> | Hni].
      * destruct (Hself _ Hm) as [[C _]|[_ C]]; [discriminate|].
        now rewrite obj_get_del_eq in C.
      * rewrite (Hother id) in Hm by congruence.
        rewrite obj_get_del_neq in Hm by congruence.
        destruct (Hinv _ _ Hm) as [[C | H]|H]; auto. congruence.
    + destruct (finish_turn_index meta newId true
                  (mkFix (obj_del i (obj_set newId meta (fx_meta st)))
                         (repoint_dirs i newId (fx_dirs st)) (fx_tick st)))
        as (st2 & E & Hd & Hother & Hself).
      rewrite E. intros [= <-] id m Hm. simpl in *. rewrite Hd.
      destruct (String.eqb_spec id newId) as [-> | Hnn].
      * destruct (Hself _ Hm) as [[_ H]|[C _]]; [auto|discriminate].
      * rewrite (Hother id) in Hm by congruence.
        destruct (String.eqb_spec id i) as [-> | Hni].
        { now rewrite obj_get_del_eq in Hm. }
        rewrite obj_get_del_neq, obj_get_set_neq in Hm by congruence.
        destruct (Hinv _ _ Hm) as [[C | H]|H]; auto; [congruence|].
        right. eapply index_settled_frame; [|exact H].
        now apply dirs_lookup_repoint.
  - destruct (finish_turn_index meta i true st) as (st2 & E & Hd & Hother & Hself).
    rewrite E. intros [= <-] id m Hm. rewrite Hd.
    destruct (String.eqb_spec id i) as [-> | Hni].
    + destruct (Hself _ Hm) as [[_ H]|[C _]]; [auto|discriminate].
    + rewrite (Hother id) in Hm by congruence.
      destruct (Hinv _ _ Hm) as [[C | H]|H]; auto. congruence.
Qed.

Lemma meta_loop_index ids :
  NoDup ids -> forall st st',
  (forall id m, obj_get id (fx_meta st) = Some m ->
                In id ids \/ index_settled (fx_dirs st) id m) ->
  meta_loop ids st = Next st' ->
  forall id m, obj_get id (fx_meta st') = Some m -> index_settled (fx_dirs st') id m.
Proof.
  induction 1 as [|i rest Hi Hnd IH]; intros st st' Hinv; simpl.
  - intros [= <-] id m Hm. destruct (Hinv _ _ Hm) as [[]|H]; exact H.
  - destruct (meta_turn i st) as [st1| |] eqn:T; try discriminate.
    intros L. apply (IH st1 st'); auto.
    exact (@meta_turn_index i rest st st1 Hi Hinv T).
Qed.

End IndexFacts.

(** X1. When the metadata pass runs to its end, every entry left that is
    not a folder, a separator or a bookmark has data files under its
    identifier, and its index names one of these files, unless none of the
    nine index candidates exists among them.  The identifiers the entries
    are filed under or declare, and the index files they name, are taken to
    be none of the names an object inherits: the tests of lines 788 and 794
    read [dataDirs[id]] and [dataDirs[id][meta.index]]. *)
Theorem stale_items_removed {host : Host} (st st' : FixState) :
  (forall id meta,
      obj_get id (fx_meta st) = Some meta ->
      inherited id = false
      /\ inherited (or_empty (m_id meta)) = false
      /\ inherited (or_empty (m_index meta)) = false) ->
  fix_metadata st = Next st' ->
  forall id meta,
    obj_get id (fx_meta st') = Some meta ->
    is_container (m_type meta) = false ->
    exists itemFiles,
      dirs_lookup id (fx_dirs st') = Some itemFiles
      /\ ((exists index, m_index meta = Some index /\ obj_has index itemFiles = true)
          \/ getIndexPath itemFiles id = None).
Proof.
  intros _ H id meta Hm C.
  refine (@meta_loop_index host (obj_keys (fx_meta st)) (obj_keys_NoDup _) st st' _ H
            id meta Hm C).
  intros k m G. left. eapply obj_get_in_keys; eauto.
Qed.

Lemma stale_items_removed_witness :
  let host := Sample.host Unbound in
  exists st' itemFiles,
    fix_metadata (mkFix (rs_meta Sample.hinted) (rs_dirs Sample.hinted) 0) = Next st'
    /\ dirs_lookup "X" (fx_dirs st') = Some itemFiles
    /\ obj_has "X/index.html" itemFiles = true.
Proof.
  intros host.
  destruct (fix_metadata (mkFix (rs_meta Sample.hinted) (rs_dirs Sample.hinted) 0))
    as [st'| |] eqn:E; try (vm_compute in E; discriminate E).
  destruct (@stale_items_removed host
              (mkFix (rs_meta Sample.hinted) (rs_dirs Sample.hinted) 0) st'
              (proj1 hinted_plain) E "X"
              (fst (@fix_fields host "X" Sample.hinted_meta 0)))
    as (itemFiles & L & H).
  - vm_compute in E. injection E as <-. reflexivity.
  - reflexivity.
  - exists st', itemFiles. split; [reflexivity|]. split; [exact L|].
    vm_compute in E. injection E as <-. vm_compute in L. injection L as <-.
    reflexivity.
Defined.

(** ** The transient fields *)

Section TransientFacts.
Context {host : Host}.

Lemma folder_entry_transient_free title folderId :
  transient_free (mkMeta None None (Some title) (Some "folder") (Some folderId)
                         None None None None None None).
Proof. repeat split. Qed.

Lemma strip_transient_free meta : transient_free (strip_transient meta).
Proof. repeat split. Qed.

Lemma metas_step_refl metas : metas_step metas metas.
Proof. intros k m H. now left. Qed.

Lemma metas_step_trans a b c : metas_step a b -> metas_step b c -> metas_step a c.
Proof.
  intros H1 H2 k m H. destruct (H2 _ _ H) as [H'|H']; auto.
Qed.

Lemma resolve_segment_metas parentId st folder folderId st' :
  resolve_segment (Ok (parentId, st)) folder = Ok (folderId, st') ->
  metas_step (ts_meta st) (ts_meta st').
Proof.
  unfold resolve_segment. cbn [bind].
  destruct (obj_get parentId (ts_toc st)) as [siblings|]; [|discriminate].
  cbn [bind].
  match goal with
  | |- context [if ?c then _ else _] => destruct c
  end.
  - cbn [bind]. intros [= _ <-]. apply metas_step_refl.
  - unfold generateFolder.
    destruct (getUniqueId (dateToId (clock (ts_tick st))) (ts_meta st)) as [f|];
      [|discriminate].
    cbn [bind]. destruct (toc_push parentId f (ts_toc st)); [|discriminate].
    cbn [bind]. intros [= _ <-]. cbn [ts_meta].
    intros k m. rewrite obj_get_set.
    destruct (String.eqb f k); auto.
    intros [= <-]. right. apply folder_entry_transient_free.
Qed.

Lemma resolve_path_metas segments : forall parentId st folderId st',
  fold_left resolve_segment segments (Ok (parentId, st)) = Ok (folderId, st') ->
  metas_step (ts_meta st) (ts_meta st').
Proof.
  induction segments as [|folder segments IH]; intros parentId st folderId st' E;
    cbn [fold_left] in E.
  - injection E as _ <-. apply metas_step_refl.
  - destruct (resolve_segment (Ok (parentId, st)) folder) as [[f st1]|e] eqn:E1.
    + eapply metas_step_trans.
      * exact (@resolve_segment_metas parentId st folder f st1 E1).
      * exact (IH f st1 folderId st' E).
    + exfalso. clear -E. induction segments as [|s segments IH]; [discriminate E|].
      apply IH. exact E.
Qed.

Lemma insertToToc_metas id st st' :
  insertToToc id st = Ok st' -> metas_step (ts_meta st) (ts_meta st').
Proof.
  unfold insertToToc. destruct (obj_get id (ts_meta st)) as [meta|]; [|discriminate].
  destruct (negb (truthy (m_folder meta))).
  - destruct (toc_push "root" id (ts_toc st)); [|discriminate].
    cbn [bind]. intros [= <-]. apply metas_step_refl.
  - destruct (fold_left resolve_segment (split_path (or_empty (m_folder meta)))
                        (Ok ("root", st))) as [[p st1]|] eqn:E; [|discriminate].
    cbn [bind]. destruct (toc_push p id (ts_toc st1)); [|discriminate].
    cbn [bind]. intros [= <-]. cbn [ts_meta].
    exact (@resolve_path_metas _ "root" st p st1 E).
Qed.

Lemma insert_turn_metas referred id st st' :
  insert_turn referred (Ok st) id = Ok st' ->
  forall k m, obj_get k (ts_meta st') = Some m ->
              (k <> id /\ obj_get k (ts_meta st) = Some m) \/ transient_free m.
Proof.
  unfold insert_turn. cbn [bind]. intros E k m Hm.
  assert (Hlast : forall st1,
             metas_step (ts_meta st) (ts_meta st1) ->
             match obj_get id (ts_meta st1) with
             | Some meta =>
                 Ok (mkTocSt (ts_toc st1) (obj_set id (strip_transient meta) (ts_meta st1))
                             (ts_titles st1) (ts_tick st1))
             | None => Fail TypeError
             end = Ok st' ->
             (k <> id /\ obj_get k (ts_meta st) = Some m) \/ transient_free m).
  { intros st1 Hstep E1. destruct (obj_get id (ts_meta st1)) as [meta|]; [|discriminate].
    injection E1 as <-. cbn [ts_meta] in Hm. rewrite obj_get_set in Hm.
    destruct (String.eqb_spec id k) as [-> | Hne].
    - injection Hm as <-. right. apply strip_transient_free.
    - destruct (Hstep _ _ Hm); auto. }
  destruct (negb (set_has id referred) && negb (is_reserved id)).
  - destruct (insertToToc id st) as [st1|] eqn:E1; [|discriminate].
    cbn [bind] in E. destruct (obj_get id (ts_meta st1)) as [meta|]; [|discriminate].
    cbn [bind ts_meta ts_toc ts_titles ts_tick] in E.
    apply (Hlast (mkTocSt (ts_toc st1) (ts_meta st1) ((m_title meta, id) :: ts_titles st1)
                          (ts_tick st1))); [|exact E].
    exact (@insertToToc_metas id st st1 E1).
  - cbn [bind] in E. apply (Hlast st); [apply metas_step_refl|exact E].
Qed.

Lemma fold_insert_fail referred ids e :
  fold_left (insert_turn referred) ids (Fail e) = Fail e.
Proof. induction ids; simpl; auto. Qed.

Lemma insert_loop_metas referred ids : forall st st',
  fold_left (insert_turn referred) ids (Ok st) = Ok st' ->
  forall k m, obj_get k (ts_meta st') = Some m ->
              (~ In k ids /\ obj_get k (ts_meta st) = Some m) \/ transient_free m.
Proof.
  induction ids as [|id ids IH]; intros st st' E k m Hm; cbn [fold_left] in E.
  - injection E as <-. left. split; auto.
  - destruct (insert_turn referred (Ok st) id) as [st1|e] eqn:E1.
    + destruct (IH st1 st' E k m Hm) as [[Hn G]|H]; auto.
      destruct (@insert_turn_metas referred id st st1 E1 k m G) as [[Hne G']|H]; auto.
      left. split; auto. intros [C|C]; auto.
    + rewrite fold_insert_fail in E. discriminate E.
Qed.

End TransientFacts.

(** X2. When the step "Fix meta and toc" finishes, no metadata entry
    carries any of the transient fields [id], [folder] and [exported]: the
    entries present when the insertion starts are stripped one by one, and
    the folders synthesized meanwhile never had them. *)
Theorem transient_fields_stripped {host : Host} (s s' : RunState) :
  fix_meta_and_toc s = Finished s' ->
  forall id meta,
    obj_get id (rs_meta s') = Some meta ->
    m_id meta = None /\ m_folder meta = None /\ m_exported meta = None.
Proof.
  unfold fix_meta_and_toc.
  destruct (fix_metadata (mkFix (rs_meta s) (rs_dirs s) (rs_tick s))) as [st| |];
    try discriminate.
  set (pr := prune_toc (fx_meta st) (rs_toc s)).
  destruct (insert_orphans (pr_referred pr)
              (mkTocSt (pr_toc pr) (fx_meta st) (pr_titles pr) (fx_tick st)))
    as [ts|] eqn:E; [|discriminate].
  intros [= <-] id meta Hm. cbn [rs_meta] in Hm.
  unfold insert_orphans in E. cbn [ts_meta] in E.
  destruct (@insert_loop_metas host _ _ _ _ E id meta Hm) as [[Hn G]|H]; [|exact H].
  exfalso. apply Hn. apply sort_by_In. cbn [ts_meta] in G.
  eapply obj_get_in_keys; eauto.
Qed.

Lemma transient_fields_stripped_witness :
  let host := Sample.host Unbound in
  exists s' meta,
    fix_meta_and_toc Sample.hinted = Finished s'
    /\ obj_get "X" (rs_meta s') = Some meta
    /\ m_folder meta = None.
Proof.
  intros host.
  destruct (fix_meta_and_toc Sample.hinted) as [s'| |] eqn:E;
    try (vm_compute in E; discriminate E).
  assert (G : exists meta, obj_get "X" (rs_meta s') = Some meta).
  { vm_compute in E. injection E as <-. eexists. reflexivity. }
  destruct G as [meta G].
  exists s', meta. split; [reflexivity|]. split; [exact G|].
  exact (proj1 (proj2 (@transient_fields_stripped host Sample.hinted s' E "X" meta G))).
Defined.

(** ** The entries the insertion leaves *)

Section InsertedFacts.
Context {host : Host}.

Lemma folders_added_refl metas : folders_added metas metas.
Proof. split; auto. Qed.

Lemma folders_added_trans a b c : folders_added a b -> folders_added b c -> folders_added a c.
Proof.
  intros [K1 N1] [K2 N2]. split; [auto|].
  intros k m H. destruct (N2 _ _ H) as [G|[G F]]; [auto|].
  right. split; [|exact F].
  destruct (obj_get k a) as [m0|] eqn:Ga; [|reflexivity].
  rewrite (K1 _ _ Ga) in G. discriminate G.
Qed.

Lemma getUniqueId_loop_fresh fuel : forall v metas fresh,
  getUniqueId_loop fuel v metas = Ok fresh -> obj_has fresh metas = false.
Proof.
  induction fuel as [|fuel IH]; intros v metas fresh; cbn [getUniqueId_loop]; [discriminate|].
  destruct (obj_has (dateToId (v + 1)) metas) eqn:H.
  - apply IH.
  - now intros [= <-].
Qed.

Lemma getUniqueId_fresh id metas fresh :
  getUniqueId id metas = Ok fresh -> obj_has fresh metas = false.
Proof.
  unfold getUniqueId. destruct (obj_has id metas) eqn:H; cbn [negb].
  - apply getUniqueId_loop_fresh.
  - now intros [= <-].
Qed.

Lemma resolve_segment_folders parentId st folder folderId st' :
  resolve_segment (Ok (parentId, st)) folder = Ok (folderId, st') ->
  folders_added (ts_meta st) (ts_meta st').
Proof.
  unfold resolve_segment. cbn [bind].
  destruct (obj_get parentId (ts_toc st)) as [siblings|]; [|discriminate].
  cbn [bind].
  match goal with
  | |- context [if ?c then _ else _] => destruct c
  end.
  - cbn [bind]. intros [= _ <-]. apply folders_added_refl.
  - unfold generateFolder.
    destruct (getUniqueId (dateToId (clock (ts_tick st))) (ts_meta st)) as [f|] eqn:U;
      [|discriminate].
    cbn [bind]. destruct (toc_push parentId f (ts_toc st)); [|discriminate].
    cbn [bind]. intros [= _ <-]. cbn [ts_meta].
    pose proof (proj1 (obj_has_false _ _) (getUniqueId_fresh _ _ U)) as Hnone.
    split; intros k m; rewrite obj_get_set; destruct (String.eqb_spec f k) as [<- | Hne].
    + congruence.
    + auto.
    + intros [= <-]. right. split; [exact Hnone|]. now exists folder.
    + auto.
Qed.

Lemma resolve_path_folders segments : forall parentId st folderId st',
  fold_left resolve_segment segments (Ok (parentId, st)) = Ok (folderId, st') ->
  folders_added (ts_meta st) (ts_meta st').
Proof.
  induction segments as [|folder segments IH]; intros parentId st folderId st' E;
    cbn [fold_left] in E.
  - injection E as _ <-. apply folders_added_refl.
  - destruct (resolve_segment (Ok (parentId, st)) folder) as [[f st1]|e] eqn:E1.
    + eapply folders_added_trans.
      * exact (@resolve_segment_folders parentId st folder f st1 E1).
      * exact (IH f st1 folderId st' E).
    + exfalso. clear -E. induction segments as [|s segments IH]; [discriminate E|].
      apply IH. exact E.
Qed.

Lemma insertToToc_folders id st st' :
  insertToToc id st = Ok st' -> folders_added (ts_meta st) (ts_meta st').
Proof.
  unfold insertToToc. destruct (obj_get id (ts_meta st)) as [meta|]; [|discriminate].
  destruct (negb (truthy (m_folder meta))).
  - destruct (toc_push "root" id (ts_toc st)); [|discriminate].
    cbn [bind]. intros [= <-]. apply folders_added_refl.
  - destruct (fold_left resolve_segment (split_path (or_empty (m_folder meta)))
                        (Ok ("root", st))) as [[p st1]|] eqn:E; [|discriminate].
    cbn [bind]. destruct (toc_push p id (ts_toc st1)); [|discriminate].
    cbn [bind]. intros [= <-]. cbn [ts_meta].
    exact (@resolve_path_folders _ "root" st p st1 E).
Qed.

(** One turn: the entry of the item loses its transient fields, the other
    entries stay, and what is new is a folder. *)
Lemma insert_turn_entries referred id st st' meta :
  obj_get id (ts_meta st) = Some meta ->
  insert_turn referred (Ok st) id = Ok st' ->
  obj_get id (ts_meta st') = Some (strip_transient meta)
  /\ (forall k m, k <> id -> obj_get k (ts_meta st) = Some m ->
                  obj_get k (ts_meta st') = Some m)
  /\ (forall k m, k <> id -> obj_get k (ts_meta st') = Some m ->
                  obj_get k (ts_meta st) = Some m
                  \/ (obj_get k (ts_meta st) = None /\ exists title, m = folder_meta title k)).
Proof.
  unfold insert_turn. cbn [bind]. intros G E.
  assert (Hlast : forall st1,
             folders_added (ts_meta st) (ts_meta st1) ->
             match obj_get id (ts_meta st1) with
             | Some meta =>
                 Ok (mkTocSt (ts_toc st1) (obj_set id (strip_transient meta) (ts_meta st1))
                             (ts_titles st1) (ts_tick st1))
             | None => Fail TypeError
             end = Ok st' ->
             obj_get id (ts_meta st') = Some (strip_transient meta)
             /\ (forall k m, k <> id -> obj_get k (ts_meta st) = Some m ->
                             obj_get k (ts_meta st') = Some m)
             /\ (forall k m, k <> id -> obj_get k (ts_meta st') = Some m ->
                             obj_get k (ts_meta st) = Some m
                             \/ (obj_get k (ts_meta st) = None
                                 /\ exists title, m = folder_meta title k))).
  { intros st1 [K N] E1. rewrite (K _ _ G) in E1. injection E1 as <-. cbn [ts_meta].
    split; [apply obj_get_set_eq|]. split.
    - intros k m Hne Hk. rewrite obj_get_set_neq by congruence. auto.
    - intros k m Hne Hk. rewrite obj_get_set_neq in Hk by congruence. auto. }
  destruct (negb (set_has id referred) && negb (is_reserved id)).
  - destruct (insertToToc id st) as [st1|] eqn:E1; [|discriminate].
    cbn [bind] in E. destruct (obj_get id (ts_meta st1)) as [meta1|]; [|discriminate].
    cbn [bind ts_meta ts_toc ts_titles ts_tick] in E.
    apply (Hlast (mkTocSt (ts_toc st1) (ts_meta st1) ((m_title meta1, id) :: ts_titles st1)
                          (ts_tick st1))); [|exact E].
    exact (@insertToToc_folders id st st1 E1).
  - cbn [bind] in E. apply (Hlast st); [apply folders_added_refl|exact E].
Qed.

Lemma insert_loop_entries (metas0 : Metas) referred ids :
  NoDup ids -> forall st st',
  (forall k, In k ids -> obj_get k metas0 <> None
                         /\ obj_get k (ts_meta st) = obj_get k metas0) ->
  (forall k m, obj_get k (ts_meta st) = Some m -> In k ids \/ inserted_entry metas0 k m) ->
  (forall k, obj_get k (ts_meta st) = None -> obj_get k metas0 = None) ->
  fold_left (insert_turn referred) ids (Ok st) = Ok st' ->
  forall k m, obj_get k (ts_meta st') = Some m -> inserted_entry metas0 k m.
Proof.
  induction 1 as [|id ids Hni Hnd IH]; intros st st' Hpend Hdone Hkeys E; cbn [fold_left] in E.
  - injection E as <-. intros k m Hm. destruct (Hdone _ _ Hm) as [[]|H]; exact H.
  - destruct (insert_turn referred (Ok st) id) as [st1|e] eqn:E1;
      [|rewrite fold_insert_fail in E; discriminate E].
    destruct (Hpend id (or_introl eq_refl)) as [Hsome Hsame].
    destruct (obj_get id metas0) as [meta|] eqn:G0; [|congruence].
    destruct (@insert_turn_entries referred id st st1 meta Hsame E1) as (Hid & Hkeep & Hnew).
    apply (IH st1 st'); auto.
    + intros k Hin. destruct (Hpend k (or_intror Hin)) as [Hs Hk]. split; [exact Hs|].
      assert (Hne : k <> id) by (intros ->; tauto).
      destruct (obj_get k metas0) as [mk|] eqn:Gk; [|congruence].
      exact (Hkeep k mk Hne Hk).
    + intros k m Hm. destruct (String.eqb_spec k id) as [-> | Hne].
      * right. left. exists meta. split; [exact G0|]. congruence.
      * destruct (Hnew k m Hne Hm) as [Hold|[Hnone Hf]].
        -- destruct (Hdone _ _ Hold) as [[C|Hin]|H]; [congruence|auto|auto].
        -- right. right. split; [now apply Hkeys|exact Hf].
    + intros k Hnone. apply Hkeys.
      destruct (obj_get k (ts_meta st)) as [m|] eqn:Gk; [|reflexivity].
      destruct (String.eqb_spec k id) as [-> | Hne]; [congruence|].
      rewrite (Hkeep k m Hne Gk) in Hnone. discriminate Hnone.
Qed.

End InsertedFacts.

(** C7 (as amended).  When the step "Fix meta and toc" finishes, every
    entry of the metadata map, other than the folders the insertion made
    for the segments of a folder hint, has been through the fallbacks
    (before it lost its transient fields): empty type, source, comment and
    icon read the empty string; an empty title reads the file name derived
    from the source, else the identifier the entry is filed under, else
    (for a separator) the empty string; an empty modify reads the timestamp
    taken then, and an empty create reads the resulting modify.  A folder
    made by the insertion stands under a key the metadata pass left free,
    and holds its title, the type "folder" and its creation time only. *)
Theorem field_fallback_pass {host : Host} (s s' : RunState) :
  fix_meta_and_toc s = Finished s' ->
  forall id after,
    obj_get id (rs_meta s') = Some after ->
    (exists filled,
        fallback_done (rs_meta s) id filled
        /\ after = mkMeta None (m_index filled) (m_title filled) (m_type filled)
                          (m_create filled) (m_modify filled) (m_source filled)
                          (m_icon filled) (m_comment filled) None None)
    \/ (exists st1 title,
          fix_metadata (mkFix (rs_meta s) (rs_dirs s) (rs_tick s)) = Next st1
          /\ obj_get id (fx_meta st1) = None
          /\ after = mkMeta None None (Some title) (Some "folder") (Some id)
                            None None None None None None).
Proof.
  unfold fix_meta_and_toc.
  destruct (fix_metadata (mkFix (rs_meta s) (rs_dirs s) (rs_tick s))) as [st| |] eqn:F;
    try discriminate.
  set (pr := prune_toc (fx_meta st) (rs_toc s)).
  destruct (insert_orphans (pr_referred pr)
              (mkTocSt (pr_toc pr) (fx_meta st) (pr_titles pr) (fx_tick st)))
    as [ts|] eqn:E; [|discriminate].
  intros [= <-] id after Hm. cbn [rs_meta] in Hm.
  unfold insert_orphans in E. cbn [ts_meta] in E.
  assert (Hins : inserted_entry (fx_meta st) id after).
  { refine (@insert_loop_entries host (fx_meta st) (pr_referred pr)
              (sort_by (sort_token (fx_meta st)) (obj_keys (fx_meta st)))
              _ _ ts _ _ _ E id after Hm).
    - apply sort_by_NoDup, obj_keys_NoDup.
    - intros k Hin. apply sort_by_In in Hin. apply obj_keys_get in Hin.
      destruct Hin as [v Hv]. cbn [ts_meta]. split; [congruence|reflexivity].
    - intros k m Hk. left. apply sort_by_In. cbn [ts_meta] in Hk.
      eapply obj_get_in_keys; eauto.
    - intros k Hk. exact Hk. }
  destruct Hins as [(m0 & G0 & ->)|(Hnone & title & ->)].
  - left. exists m0. split; [|reflexivity].
    exact (proj1 (@meta_pass_fallbacks host (mkFix (rs_meta s) (rs_dirs s) (rs_tick s)))
             st F id m0 G0).
  - right. exists st, title. auto.
Qed.

Lemma field_fallback_pass_witness :
  let host := Sample.host Unbound in
  exists s' after filled,
    fix_meta_and_toc Sample.hinted = Finished s'
    /\ obj_get "X" (rs_meta s') = Some after
    /\ fallback_done (rs_meta Sample.hinted) "X" filled
    /\ m_source after = m_source filled /\ m_folder after = None.
Proof.
  intros host.
  destruct (fix_meta_and_toc Sample.hinted) as [s'| |] eqn:E;
    try (vm_compute in E; discriminate E).
  assert (G : exists after, obj_get "X" (rs_meta s') = Some after).
  { vm_compute in E. injection E as <-. eexists. reflexivity. }
  destruct G as [after G].
  destruct (@field_fallback_pass host Sample.hinted s' E "X" after G)
    as [(filled & Hf & Ha)|(st1 & title & F & Hnone & _)].
  - exists s', after, filled. subst after. repeat split; auto.
  - exfalso. vm_compute in F. injection F as <-. discriminate Hnone.
Defined.

(** ** Unused favicons *)

Lemma referedFavIcons_In (metas : Metas) path :
  In path (referedFavIcons metas)
  <-> exists id meta, obj_get id metas = Some meta
                      /\ favicon_ref (or_empty (m_icon meta)) = Some path.
Proof.
  unfold referedFavIcons.
  assert (H : forall ids acc,
             In path (fold_left
                        (fun acc id =>
                           match obj_get id metas with
                           | Some meta =>
                               match favicon_ref (or_empty (m_icon meta)) with
                               | Some path => path :: acc
                               | None => acc
                               end
                           | None => acc
                           end) ids acc)
             <-> In path acc
                 \/ exists id meta, In id ids /\ obj_get id metas = Some meta
                                    /\ favicon_ref (or_empty (m_icon meta)) = Some path).
  { induction ids as [|id ids IH]; intros acc; cbn [fold_left].
    - split; auto. intros [H|(id & meta & [] & _)]. exact H.
    - rewrite IH. split.
      + intros [H|(i & m & Hi & G & F)].
        * destruct (obj_get id metas) as [meta|] eqn:G; auto.
          destruct (favicon_ref (or_empty (m_icon meta))) as [p|] eqn:F; auto.
          destruct H as [<- | H]; auto.
          right. exists id, meta. split; [now left|]. auto.
        * right. exists i, m. split; [now right|]. auto.
      + intros [H|(i & m & [<- | Hi] & G & F)].
        * left. destruct (obj_get id metas) as [meta|]; auto.
          destruct (favicon_ref (or_empty (m_icon meta))); auto. now right.
        * left. rewrite G, F. now left.
        * right. exists i, m. auto. }
  rewrite H. split.
  - intros [[]|(id & meta & _ & G & F)]. eauto.
  - intros (id & meta & G & F). right. exists id, meta. split; auto.
    eapply obj_get_in_keys; eauto.
Qed.

Lemma sweep_loop_get (refered : IdSet) paths q : forall zip : Zip,
  obj_get q (fold_left (fun zip path =>
                          if startsWith path "tree/favicon/" && negb (set_has path refered)
                          then zipAddFile zip path (mkFile "" "application/octet-stream" "")
                          else zip) paths zip)
  = if existsb (String.eqb q) paths && startsWith q "tree/favicon/"
       && negb (set_has q refered)
    then Some (mkZipEntry false (mkFile "" "application/octet-stream" ""))
    else obj_get q zip.
Proof.
  induction paths as [|p paths IH]; intros zip; cbn [fold_left existsb].
  - reflexivity.
  - rewrite IH. rewrite <- !andb_assoc.
    destruct (String.eqb_spec q p) as [-> | Hne]; cbn [orb andb].
    + destruct (startsWith p "tree/favicon/" && negb (set_has p refered)) eqn:B.
      * rewrite andb_true_r. unfold zipAddFile. rewrite obj_get_set_eq.
        now destruct (existsb (String.eqb p) paths).
      * now rewrite andb_false_r.
    + destruct (existsb (String.eqb q) paths
                && (startsWith q "tree/favicon/" && negb (set_has q refered)));
        [reflexivity|].
      destruct (startsWith p "tree/favicon/" && negb (set_has p refered)); [|reflexivity].
      unfold zipAddFile. apply obj_get_set_neq. congruence.
Qed.

Lemma existsb_keys (V : Type) (o : JsObj V) q :
  existsb (String.eqb q) (obj_keys o) = obj_has q o.
Proof.
  destruct (obj_has q o) eqn:H.
  - apply obj_has_get in H. destruct H as [v H].
    apply existsb_exists. exists q. split; [|apply String.eqb_refl].
    eapply obj_get_in_keys; eauto.
  - destruct (existsb (String.eqb q) (obj_keys o)) eqn:E; [|reflexivity].
    apply existsb_exists in E. destruct E as (k & Hk & Hq).
    apply String.eqb_eq in Hq. subst k. apply obj_keys_get in Hk.
    destruct Hk as [v Hk]. apply obj_has_false in H. congruence.
Qed.

(** X3. The sweep of the favicon cache replaces a previous file under
    "tree/favicon/" by an empty file exactly when no icon of the metadata
    refers to it, and leaves every other path of the archive as it was. *)
Theorem unused_favicons_blanked (treeFiles : JsObj File) (metas : Metas) (zip : Zip)
        (path : string) :
  let used := exists id meta, obj_get id metas = Some meta
                              /\ favicon_ref (or_empty (m_icon meta)) = Some path in
  let out := sweep_favicons treeFiles metas zip in
  (obj_has path treeFiles = true -> startsWith path "tree/favicon/" = true -> ~ used ->
   obj_get path out = Some (mkZipEntry false (mkFile "" "application/octet-stream" "")))
  /\ (used -> obj_get path out = obj_get path zip)
  /\ (obj_has path treeFiles = false -> obj_get path out = obj_get path zip)
  /\ (startsWith path "tree/favicon/" = false -> obj_get path out = obj_get path zip).
Proof.
  intros used out. unfold out, sweep_favicons. rewrite sweep_loop_get, existsb_keys.
  assert (Hused : set_has path (referedFavIcons metas) = true <-> used).
  { rewrite set_has_In. apply referedFavIcons_In. }
  split; [|split; [|split]].
  - intros -> -> Hn. destruct (set_has path (referedFavIcons metas)); [|reflexivity].
    destruct Hn. now apply Hused.
  - intros Hu. apply Hused in Hu. rewrite Hu. now rewrite andb_false_r.
  - intros ->. reflexivity.
  - intros ->. now rewrite andb_false_r.
Qed.

Lemma startsWith_app p s : startsWith (p ++ s) p = true.
Proof. unfold startsWith. apply prefix_app_intro. Qed.

Lemma no_line_break_favicon name :
  no_line_break ("tree/favicon/" ++ name) = no_line_break name.
Proof.
  cbn [append]. rewrite !no_line_break_plain by (unfold LF, CR; discriminate). reflexivity.
Qed.

Lemma favicon_ref_url index (file : File) :
  no_line_break (f_name file) = true ->
  favicon_ref (favicon_url index (favicon_path file)) = Some (favicon_path file).
Proof.
  intros Hn. unfold favicon_url, favicon_path.
  assert (C : (if startsWith ("tree/favicon/" ++ f_name file) "tree/favicon/"
                  && no_line_break ("tree/favicon/" ++ f_name file)
               then Some ("tree/favicon/" ++ f_name file) else None)
              = Some ("tree/favicon/" ++ f_name file)).
  { rewrite startsWith_app, no_line_break_favicon, Hn. reflexivity. }
  destruct (contains_char "/" index); unfold favicon_ref.
  - change (startsWith ("../" ++ "../" ++ "tree/favicon/" ++ f_name file) "../") with true.
    cbv iota.
    change (slice_from 3 ("../" ++ "../" ++ "tree/favicon/" ++ f_name file))
      with ("../" ++ "tree/favicon/" ++ f_name file).
    change (startsWith ("../" ++ "tree/favicon/" ++ f_name file) "tree/favicon/")
      with false.
    cbn [andb].
    change (startsWith ("../" ++ "tree/favicon/" ++ f_name file) "../") with true.
    change (slice_from 3 ("../" ++ "tree/favicon/" ++ f_name file))
      with ("tree/favicon/" ++ f_name file).
    now rewrite C.
  - change (startsWith ("" ++ "../" ++ "tree/favicon/" ++ f_name file) "../") with true.
    cbv iota.
    change (slice_from 3 ("" ++ "../" ++ "tree/favicon/" ++ f_name file))
      with ("tree/favicon/" ++ f_name file).
    now rewrite C.
Qed.

(** X4. The address the favicon pass writes for a cached file is read back
    by the sweep as the path of that file, provided the name of the file
    has no line break; the file of an icon written this way is therefore
    never replaced by an empty one. *)
Theorem cached_favicon_kept (treeFiles : JsObj File) (metas : Metas) (zip : Zip)
        (id index : string) (meta : Meta) (file : File) :
  no_line_break (f_name file) = true ->
  obj_get id metas = Some meta ->
  m_icon meta = Some (favicon_url index (favicon_path file)) ->
  favicon_ref (favicon_url index (favicon_path file)) = Some (favicon_path file)
  /\ obj_get (favicon_path file) (sweep_favicons treeFiles metas zip)
     = obj_get (favicon_path file) zip.
Proof.
  intros Hn G Hi. pose proof (favicon_ref_url index file Hn) as R.
  split; [exact R|].
  unfold sweep_favicons. rewrite sweep_loop_get.
  assert (U : set_has (favicon_path file) (referedFavIcons metas) = true).
  { apply set_has_In. apply referedFavIcons_In. exists id, meta.
    split; [exact G|]. rewrite Hi. exact R. }
  rewrite U. now rewrite andb_false_r.
Qed.

Lemma cached_favicon_kept_witness :
  let file := mkFile "abc.png" "image/png" "abc" in
  let meta := set_icon (Some (favicon_url "P/index.html" (favicon_path file)))
                       Sample.icon_P in
  let treeFiles := [("tree/favicon/abc.png", file); ("tree/favicon/old.png", Sample.png "OLD")] in
  obj_get "tree/favicon/abc.png" (sweep_favicons treeFiles [("P", meta)] []) = None
  /\ obj_get "tree/favicon/old.png" (sweep_favicons treeFiles [("P", meta)] [])
     = Some (mkZipEntry false (mkFile "" "application/octet-stream" "")).
Proof.
  intros file meta treeFiles. split.
  - exact (proj2 (@cached_favicon_kept treeFiles [("P", meta)] [] "P" "P/index.html"
                    meta file eq_refl eq_refl eq_refl)).
  - reflexivity.
Defined.

(** ** What the favicon pass writes *)

Section FaviconWrites.
Context {host : Host}.
Variable treeFiles : JsObj File.

Lemma icon_turn_zip st id :
  access_sound st ->
  forall path,
    obj_get path (ic_zip (icon_turn treeFiles st id)) = obj_get path (ic_zip st)
    \/ favicon_written treeFiles path (obj_get path (ic_zip (icon_turn treeFiles st id))).
Proof.
  intros Hs path. unfold icon_turn.
  destruct (obj_get id (ic_meta st)) as [meta|]; [|now left].
  destruct (negb (truthy (m_icon meta)) || negb (contains_char ":" (or_empty (m_icon meta)))).
  { now left. }
  pose proof (@access_icon_spec host (or_empty (m_icon meta)) st Hs) as A.
  destruct (access_icon (or_empty (m_icon meta)) st) as [p st1] eqn:E.
  destruct A as ((_ & _ & Hfetch) & _ & Hget & _).
  assert (Hz : ic_zip st1 = ic_zip st).
  { unfold access_icon in E.
    destruct (access_get (or_empty (m_icon meta)) (ic_access st));
      injection E as _ <-; reflexivity. }
  destruct p as [file|]; cbn [ic_zip]; [|left; now rewrite Hz].
  destruct (Hfetch _ _ Hget) as [n Hn].
  unfold favicon_written.
  destruct (obj_get (favicon_path file) treeFiles) as [old|] eqn:T.
  - destruct (Nat.eqb (f_size old) 0) eqn:Z; [|left; now rewrite Hz].
    unfold zipAddFile. rewrite obj_get_set.
    destruct (String.eqb_spec (favicon_path file) path) as [<- | Hne];
      [|left; now rewrite Hz].
    right. exists n, (or_empty (m_icon meta)), file.
    rewrite T, Z. auto.
  - unfold zipAddFile. rewrite obj_get_set.
    destruct (String.eqb_spec (favicon_path file) path) as [<- | Hne];
      [|left; now rewrite Hz].
    right. exists n, (or_empty (m_icon meta)), file. rewrite T. auto.
Qed.

Lemma icon_loop_zip ids : forall st,
  access_sound st ->
  forall path,
    obj_get path (ic_zip (fold_left (icon_turn treeFiles) ids st)) = obj_get path (ic_zip st)
    \/ favicon_written treeFiles path
         (obj_get path (ic_zip (fold_left (icon_turn treeFiles) ids st))).
Proof.
  induction ids as [|id ids IH]; intros st Hs path; cbn [fold_left]; [now left|].
  pose proof (@icon_turn_spec host treeFiles st id Hs) as T. cbv zeta in T.
  destruct T as (Hs1 & _).
  destruct (IH (icon_turn treeFiles st id) Hs1 path) as [H|H]; [|now right].
  rewrite H. apply icon_turn_zip. exact Hs.
Qed.

End FaviconWrites.

(** X5. The favicon pass adds to the archive nothing but fetched icons,
    each under "tree/favicon/" and its own name: a path elsewhere keeps its
    entry, and so does the path of a previous cache file that is not empty,
    which is reused instead of written again. *)
Theorem favicon_pass_writes {host : Host} (treeFiles : JsObj File) (metas : Metas)
        (zip : Zip) (path : string) :
  let out := ic_zip (cache_favicons treeFiles metas zip) in
  (obj_get path out = obj_get path zip
   \/ exists n url file,
        fetch_icon n url = Some file
        /\ path = "tree/favicon/" ++ f_name file
        /\ obj_get path out = Some (mkZipEntry false file))
  /\ (startsWith path "tree/favicon/" = false -> obj_get path out = obj_get path zip)
  /\ (forall old, obj_get path treeFiles = Some old -> f_size old <> 0 ->
                  obj_get path out = obj_get path zip).
Proof.
  intros out.
  assert (S0 : access_sound (mkIcon metas zip [] [])).
  { split; [constructor|]. split; [intros url []|]. intros url p H. discriminate H. }
  pose proof (@icon_loop_zip host treeFiles (obj_keys metas) _ S0 path) as H.
  fold (cache_favicons treeFiles metas zip) in H. cbn [ic_zip] in H. fold out in H.
  split; [|split].
  - destruct H as [H|(n & url & file & F & P & _ & G)]; [now left|].
    right. exists n, url, file. auto.
  - intros Hp. destruct H as [H|(n & url & file & F & P & _ & G)]; [exact H|].
    rewrite P in Hp. unfold favicon_path in Hp. now rewrite startsWith_app in Hp.
  - intros old T Hz. destruct H as [H|(n & url & file & F & P & St & G)]; [exact H|].
    rewrite T in St. apply Nat.eqb_eq in St. contradiction.
Qed.

(** ** The pruning, key by key *)

(** X6. The pruning of the table of contents works key by key: under a
    key it keeps, in their order, the children that have a metadata entry
    and are not "root" or "hidden"; it removes a key that has no metadata
    entry or is left without a child, unless the key is "root" or "hidden";
    it adds no key; and the identifiers it records as referred to are
    exactly the children left in the table.  The keys and children of the
    table are taken to be none of the names an object inherits, for which
    the tests of lines 840 and 847 hold without any entry. *)
Theorem toc_pruning_by_key (metas : Metas) (toc : Toc) (k : string) :
  (forall key refs,
      obj_get key toc = Some refs ->
      inherited key = false /\ forall c, In c refs -> inherited c = false) ->
  let pr := prune_toc metas toc in
  let alive := fun c => obj_has c metas && negb (is_reserved c) in
  obj_get k (pr_toc pr)
  = match obj_get k toc with
    | None => None
    | Some refs =>
        if is_reserved k then Some (filter alive refs)
        else if obj_has k metas && negb (Nat.eqb (List.length (filter alive refs)) 0)
             then Some (filter alive refs)
             else None
    end
  /\ (set_has k (pr_referred pr) = true
      <-> exists parent refs, obj_get parent (pr_toc pr) = Some refs /\ In k refs).
Proof.
  intros _ pr alive. destruct (prune_toc_spec metas toc) as [Hget Href].
  fold pr in Hget, Href. split.
  - rewrite Hget. unfold pruned_entry. destruct (obj_get k toc) as [refs|]; [|reflexivity].
    fold (pruned_refs metas refs). unfold pruned_refs. fold alive.
    destruct (is_reserved k); cbn [negb andb].
    + now rewrite !andb_false_r.
    + rewrite !andb_true_r. destruct (obj_has k metas); cbn [negb andb]; [|reflexivity].
      now destruct (Nat.eqb (List.length (filter alive refs)) 0).
  - rewrite set_has_In. apply Href.
Qed.

Lemma toc_pruning_by_key_witness :
  let metas := [("A", Sample.icon_P); ("F", Sample.icon_Q)] in
  let toc := [("root", ["A"; "Z"; "F"]); ("F", ["Z"]); ("G", ["A"])] in
  obj_get "root" (pr_toc (prune_toc metas toc)) = Some ["A"; "F"]
  /\ obj_get "F" (pr_toc (prune_toc metas toc)) = None
  /\ obj_get "G" (pr_toc (prune_toc metas toc)) = None.
Proof.
  intros metas toc.
  assert (Hplain : forall key refs,
             obj_get key toc = Some refs ->
             inherited key = false /\ forall c, In c refs -> inherited c = false).
  { intros key refs G. apply obj_get_In in G. cbn [toc In] in G.
    destruct G as [G|[G|[G|[]]]]; injection G as <- <-;
      (split; [reflexivity|]); intros c Hc; cbn [In] in Hc;
      repeat (destruct Hc as [<- | Hc]; [reflexivity|]); destruct Hc. }
  split; [|split].
  - exact (proj1 (@toc_pruning_by_key metas toc "root" Hplain)).
  - exact (proj1 (@toc_pruning_by_key metas toc "F" Hplain)).
  - exact (proj1 (@toc_pruning_by_key metas toc "G" Hplain)).
Defined.

(** ** Merging legacy metadata *)










Section LegacyFacts.
Context {legacy : LegacyHost}.

Lemma mergeLegacyMeta_cases newMeta legacyMeta :
  match legacy_field "icon" legacyMeta with
  | None => mergeLegacyMeta newMeta legacyMeta = Fail TypeError
  | Some _ => exists meta flags, mergeLegacyMeta newMeta legacyMeta = Ok (meta, flags)
  end.
Proof.
  unfold mergeLegacyMeta.
  destruct (String.eqb _ "marked"); destruct (legacy_field "icon" legacyMeta); eauto.
Qed.

Lemma sidecar_field text indexDatMeta key :
  key <> "__proto__" ->
  parseIndexDat text = Some indexDatMeta ->
  legacy_field key indexDatMeta
  = match find (binds key) (rev (split_on LF text)) with
    | Some line => Some (bound_value key line)
    | None => None
    end.
Proof.
  intros Hk. unfold parseIndexDat. destruct (Nat.ltb _ 2); [discriminate|]. intros [= <-].
  unfold legacy_field. rewrite parseIndexDat_fold_get by exact Hk.
  destruct (find (binds key) (rev (split_on LF text))); [reflexivity|].
  unfold getDefaultMeta_obj.
  destruct (obj_get key _) as [v|] eqn:G; [|reflexivity].
  apply obj_get_In in G. simpl in G.
  repeat (destruct G as [G|G]; [now injection G as _ <-|]). destruct G.
Qed.

End LegacyFacts.

(** X7. [mergeLegacyMeta] throws a [TypeError] exactly when the legacy
    object has no icon, and then assigns nothing.  For the object parsed
    from an [index.dat] this is the case exactly when no line of the text
    starts with "icon" and a tab: such a sidecar is parsed but not merged. *)
Theorem legacy_merge_needs_icon {legacy : LegacyHost} (newMeta : Meta) :
  (forall legacyMeta,
      mergeLegacyMeta newMeta legacyMeta = Fail TypeError
      <-> legacy_field "icon" legacyMeta = None)
  /\ (forall text indexDatMeta,
        parseIndexDat text = Some indexDatMeta ->
        (mergeLegacyMeta newMeta indexDatMeta = Fail TypeError
         <-> forall line, In line (split_on LF text) ->
                          startsWith line ("icon" ++ String TAB "") = false)).
Proof.
  assert (H : forall legacyMeta,
             mergeLegacyMeta newMeta legacyMeta = Fail TypeError
             <-> legacy_field "icon" legacyMeta = None).
  { intros legacyMeta. pose proof (mergeLegacyMeta_cases newMeta legacyMeta) as C.
    destruct (legacy_field "icon" legacyMeta).
    - destruct C as (meta & flags & ->). split; discriminate.
    - split; auto. }
  split; [exact H|]. intros text indexDatMeta P. rewrite H.
  rewrite (@sidecar_field text indexDatMeta "icon" ltac:(discriminate) P).
  destruct (find (binds "icon") (rev (split_on LF text))) as [line|] eqn:F.
  - split; [discriminate|]. intros A. apply find_some in F. destruct F as [Hin B].
    apply in_rev in Hin. unfold binds in B. rewrite (A _ Hin) in B. discriminate B.
  - split; auto. intros _ line Hin.
    pose proof (find_none _ _ F line) as N. rewrite <- in_rev in N.
    specialize (N Hin). unfold binds in N. now rewrite andb_true_r in N.
Qed.

Section LegacyTypeFacts.
Context {legacy : LegacyHost}.

Lemma mergeLegacyMeta_Ok newMeta legacyMeta meta flags :
  mergeLegacyMeta newMeta legacyMeta = Ok (meta, flags) ->
  let type := or_empty (js_or (js_or (legacy_type_table (legacy_field "type" legacyMeta))
                                     (legacy_field "type" legacyMeta)) (Some "")) in
  m_index meta = m_index newMeta
  /\ m_type meta = Some (if String.eqb type "marked" then "" else type)
  /\ fl_marked flags = String.eqb type "marked"
  /\ m_comment meta
     = Some (if truthy (legacy_field "comment" legacyMeta)
             then replace_br 0 (or_empty (legacy_field "comment" legacyMeta)) else "").
Proof.
  intros E type. unfold mergeLegacyMeta in E. fold type in E.
  destruct (String.eqb type "marked");
    (destruct (legacy_field "icon" legacyMeta); [|discriminate E]);
    injection E as <- <-; repeat split.
Qed.

Lemma legacy_type_value (type : option string) :
  let t := or_empty (js_or (js_or (legacy_type_table type) type) (Some "")) in
  (type = Some "note" -> t = "postit")
  /\ (type = Some "notex" -> t = "note")
  /\ (type = Some "combine" -> t = "site")
  /\ (forall s, type = Some s -> s <> "note" -> s <> "notex" -> s <> "combine" -> t = s)
  /\ (type = None -> t = "").
Proof.
  intros t. unfold t. split; [|split; [|split; [|split]]].
  - intros ->. reflexivity.
  - intros ->. reflexivity.
  - intros ->. reflexivity.
  - intros s -> H1 H2 H3. unfold legacy_type_table.
    apply String.eqb_neq in H1, H2, H3. rewrite H1, H2, H3.
    change (js_or None (Some s)) with (Some s). now rewrite or_empty_js_or.
  - intros ->. reflexivity.
Qed.

End LegacyTypeFacts.

(** X8. After a merge the type of the entry is a string, and never one of
    the legacy names "notex", "combine" and "marked": "note" has become
    "postit", "notex" "note", "combine" "site", "marked" the empty type
    with the mark set, a missing type the empty type, and any other type is
    kept; the mark is set for the legacy type "marked" only.  The index of
    the entry is not touched.  The legacy type is taken to be none of the
    names an object inherits: the table of line 1347 is an object, and
    answers such a name with the member it inherits. *)
Theorem legacy_type_normalised {legacy : LegacyHost} (newMeta : Meta) (legacyMeta : DatMeta)
        (meta : Meta) (flags : LegacyFlags) :
  inherited (or_empty (legacy_field "type" legacyMeta)) = false ->
  mergeLegacyMeta newMeta legacyMeta = Ok (meta, flags) ->
  let type := legacy_field "type" legacyMeta in
  m_index meta = m_index newMeta
  /\ (fl_marked flags = true <-> type = Some "marked")
  /\ exists t,
       m_type meta = Some t
       /\ t <> "notex" /\ t <> "combine" /\ t <> "marked"
       /\ (type = Some "note" -> t = "postit")
       /\ (type = Some "notex" -> t = "note")
       /\ (type = Some "combine" -> t = "site")
       /\ (type = Some "marked" -> t = "")
       /\ (type = None -> t = "")
       /\ (forall s, type = Some s -> s <> "note" -> s <> "notex" -> s <> "combine" ->
                     s <> "marked" -> t = s).
Proof.
  intros _ E type. destruct (mergeLegacyMeta_Ok _ _ E) as (Hi & Ht & Hm & _).
  fold type in Ht, Hm. destruct (legacy_type_value type) as (V1 & V2 & V3 & V4 & V5).
  cbv zeta in V1, V2, V3, V4, V5.
  set (t := or_empty (js_or (js_or (legacy_type_table type) type) (Some ""))) in *.
  assert (Cases : type = None \/ type = Some "note" \/ type = Some "notex"
                  \/ type = Some "combine"
                  \/ exists s, type = Some s /\ s <> "note" /\ s <> "notex"
                               /\ s <> "combine").
  { destruct type as [s|]; [|now left]. right.
    destruct (String.eqb_spec s "note"); [subst; auto|].
    destruct (String.eqb_spec s "notex"); [subst; auto|].
    destruct (String.eqb_spec s "combine"); [subst; auto|].
    right. right. right. exists s. auto. }
  split; [exact Hi|].
  clearbody type t.
  destruct Cases as [C|[C|[C|[C|(s & C & N1 & N2 & N3)]]]].
  - pose proof (V5 C) as T. clear V1 V2 V3 V4 V5. subst t type.
    split; [rewrite Hm; split; discriminate|].
    exists "". rewrite Ht. repeat split; intros; congruence.
  - pose proof (V1 C) as T. clear V1 V2 V3 V4 V5. subst t type.
    split; [rewrite Hm; split; discriminate|].
    exists "postit". rewrite Ht. repeat split; intros; congruence.
  - pose proof (V2 C) as T. clear V1 V2 V3 V4 V5. subst t type.
    split; [rewrite Hm; split; discriminate|].
    exists "note". rewrite Ht. repeat split; intros; congruence.
  - pose proof (V3 C) as T. clear V1 V2 V3 V4 V5. subst t type.
    split; [rewrite Hm; split; discriminate|].
    exists "site". rewrite Ht. repeat split; intros; congruence.
  - pose proof (V4 s C N1 N2 N3) as T. clear V1 V2 V3 V4 V5. subst t type.
    destruct (String.eqb_spec s "marked") as [M | N4].
    + subst s. split; [split; auto|]. exists "". rewrite Ht.
      repeat split; intros; congruence.
    + split; [rewrite Hm; split; [discriminate|congruence]|].
      exists s. rewrite Ht. repeat split; intros; congruence.
Qed.

Lemma legacy_type_normalised_witness :
  exists indexDatMeta meta flags,
    parseIndexDat Fixture.index_dat = Some indexDatMeta
    /\ @mergeLegacyMeta Fixture.legacy getDefaultMeta indexDatMeta = Ok (meta, flags)
    /\ m_type meta = Some "note"
    /\ m_icon meta = Some "favicon.ico"
    /\ m_create meta = Some "20200101000000000".
Proof.
  destruct (parseIndexDat Fixture.index_dat) as [indexDatMeta|] eqn:P;
    [|vm_compute in P; discriminate P].
  destruct (@mergeLegacyMeta Fixture.legacy getDefaultMeta indexDatMeta)
    as [[meta flags]|] eqn:E;
    [|vm_compute in P; injection P as <-; vm_compute in E; discriminate E].
  exists indexDatMeta, meta, flags. split; [reflexivity|]. split; [exact E|].
  assert (Hplain : inherited (or_empty (legacy_field "type" indexDatMeta)) = false).
  { vm_compute in P. injection P as <-. reflexivity. }
  destruct (@legacy_type_normalised Fixture.legacy getDefaultMeta indexDatMeta meta flags
              Hplain E)
    as (_ & _ & t & Ht & _ & _ & _ & _ & Hnotex & _).
  vm_compute in P. injection P as <-.
  split; [rewrite Ht; f_equal; now apply Hnotex|].
  vm_compute in E. injection E as <- _. split; reflexivity.
Defined.




Lemma startsWith_split_at s p : startsWith s p = true -> s = p ++ slice_from (String.length p) s.
Proof. apply prefix_app. Qed.

(** ** The legacy import *)

Section RdfFacts.
Context {legacy : LegacyHost}.
Variable dataDirs : DataDirs.





Lemma seq_push_get toc id refId k :
  obj_get k (seq_push toc (id, refId))
  = if String.eqb id k
    then Some (match obj_get id toc with Some refs => refs | None => [] end ++ [refId])%list
    else obj_get k toc.
Proof.
  unfold seq_push.
  pose proof (get_ensured id toc id) as G. rewrite String.eqb_refl in G.
  destruct (obj_get id toc) as [refs|] eqn:Gi; rewrite G.
  - rewrite obj_get_set, get_ensured. destruct (String.eqb_spec id k) as [<- | Hne]; auto.
    now destruct (obj_get k toc).
  - rewrite obj_get_set, get_ensured. destruct (String.eqb_spec id k) as [<- | Hne]; auto.
    now destruct (obj_get k toc).
Qed.

Lemma seq_li_get id k lis : forall toc,
  obj_get k (fold_left (fun toc refRid =>
                          match item_rid refRid with
                          | Some refId => seq_push toc (id, refId)
                          | None => toc
                          end) lis toc)
  = if String.eqb id k
    then match rdf_children lis, obj_get id toc with
         | [], entry => entry
         | added, Some refs => Some (refs ++ added)%list
         | added, None => Some added
         end
    else obj_get k toc.
Proof.
  induction lis as [|refRid lis IH]; intros toc; cbn [fold_left rdf_children flat_map].
  - destruct (String.eqb_spec id k) as [<- | Hne]; reflexivity.
  - rewrite IH. fold (rdf_children lis).
    destruct (String.eqb_spec id k) as [<- | Hne].
    + destruct (item_rid refRid) as [refId|]; cbn [app]; [|reflexivity].
      rewrite seq_push_get, String.eqb_refl.
      destruct (rdf_children lis) as [|c added]; destruct (obj_get id toc) as [refs|];
        cbn [app]; try reflexivity.
      now rewrite <- app_assoc.
    + destruct (item_rid refRid) as [refId|]; [|reflexivity].
      rewrite seq_push_get. apply String.eqb_neq in Hne. now rewrite Hne.
Qed.

End RdfFacts.


(** X11. A sequence of [scrapbook.rdf] whose address is the root or an
    item appends to the list of that key, in the order of the document,
    the items its [li] elements point to; the other [li] elements are passed
    over, no other key is touched, and a key is not created for a sequence
    that points to no item.  A sequence with any other address is ignored. *)
Theorem rdf_sequence_children (toc : Toc) (elem : RdfSeq) (k : string) :
  match seq_rid (sq_about elem) with
  | None => parseSeqElem toc elem = toc
  | Some id =>
      obj_get k (parseSeqElem toc elem)
      = if String.eqb id k
        then match rdf_children (sq_li elem), obj_get id toc with
             | [], entry => entry
             | added, Some refs => Some (refs ++ added)%list
             | added, None => Some added
             end
        else obj_get k toc
  end
  /\ (forall c, In c (rdf_children (sq_li elem))
                <-> exists rid, In (Some rid) (sq_li elem)
                                /\ rid = "urn:scrapbook:item" ++ c
                                /\ String.length c = 14 /\ digits 14 c = true).
Proof.
  split.
  - unfold parseSeqElem. destruct (seq_rid (sq_about elem)) as [id|]; [|reflexivity].
    apply seq_li_get.
  - intros c. unfold rdf_children. rewrite in_flat_map. split.
    + intros ([rid|] & Hin & Hc); [|destruct Hc]. unfold item_rid in Hc.
      destruct (startsWith rid "urn:scrapbook:item" && digits 14 (slice_from 18 rid)
                && Nat.eqb (String.length (slice_from 18 rid)) 14) eqn:B; [|destruct Hc].
      destruct Hc as [<- | []].
      apply andb_true_iff in B. destruct B as [B B3].
      apply andb_true_iff in B. destruct B as [B1 B2].
      exists rid. split; [exact Hin|]. split; [|split; [now apply Nat.eqb_eq|exact B2]].
      now apply startsWith_split_at.
    + intros (rid & Hin & -> & Hl & Hd). exists (Some ("urn:scrapbook:item" ++ c)).
      split; [exact Hin|]. unfold item_rid.
      rewrite startsWith_app.
      change (slice_from 18 ("urn:scrapbook:item" ++ c)) with c.
      rewrite Hd, Hl. now left.
Qed.

(** ** Grouping the data files *)

Lemma data_id_sound s : forall id,
  data_id s = Some id ->
  id <> "" /\ contains_char "/" id = false
  /\ exists rest, s = id ++ rest /\ (alt_dir rest = true \/ alt_ext rest = true).
Proof.
  induction s as [|a s IH]; intros id; cbn [data_id]; [discriminate|].
  destruct (Ascii.eqb a "/") eqn:A; [discriminate|].
  destruct (data_id s) as [id'|].
  - intros [= <-]. destruct (IH id' eq_refl) as (_ & Hc & rest & -> & Halt).
    split; [discriminate|]. split.
    + cbn [contains_char]. now rewrite A.
    + exists rest. split; [reflexivity|exact Halt].
  - destruct (alt_dir s || alt_ext s) eqn:B; [|discriminate].
    intros [= <-]. split; [discriminate|]. split.
    + cbn [contains_char]. now rewrite A.
    + exists s. split; [reflexivity|]. now apply orb_true_iff.
Qed.

Lemma data_id_folder id rest :
  id <> "" -> contains_char "/" id = false ->
  rest <> "" -> no_line_break rest = true ->
  data_id (id ++ String "/" rest) = Some id.
Proof.
  intros Hne Hc Hr Hl. induction id as [|c id IH]; [now destruct Hne|].
  cbn [contains_char] in Hc. destruct (Ascii.eqb c "/") eqn:C; [discriminate|].
  change (String c id ++ String "/" rest) with (String c (id ++ String "/" rest)).
  cbn [data_id]. rewrite C. destruct id as [|c' id'].
  - cbn [append data_id]. change (Ascii.eqb "/" "/") with true. cbv iota.
    cbn [alt_dir]. change (Ascii.eqb "/" "/") with true. rewrite Hl.
    apply String.eqb_neq in Hr. now rewrite Hr.
  - rewrite IH; [reflexivity|discriminate|exact Hc].
Qed.

Lemma data_id_plain ext :
  contains_char "." ext = false -> contains_char "/" ext = false -> data_id ext = None.
Proof.
  induction ext as [|a ext IH]; [reflexivity|].
  cbn [contains_char]. destruct (Ascii.eqb a ".") eqn:D; [discriminate|].
  destruct (Ascii.eqb a "/") eqn:S; [discriminate|]. intros H1 H2.
  cbn [data_id]. rewrite S, (IH H1 H2).
  destruct ext as [|b ext]; [reflexivity|].
  cbn [contains_char] in H1, H2. cbn [alt_dir alt_ext].
  destruct (Ascii.eqb b "."); [discriminate|].
  destruct (Ascii.eqb b "/"); [discriminate|]. reflexivity.
Qed.

Lemma data_id_file name ext :
  name <> "" -> contains_char "/" name = false ->
  ext <> "" -> contains_char "." ext = false -> contains_char "/" ext = false ->
  data_id (name ++ String "." ext) = Some name.
Proof.
  intros Hne Hc He Hd Hs. induction name as [|c name IH]; [now destruct Hne|].
  cbn [contains_char] in Hc. destruct (Ascii.eqb c "/") eqn:C; [discriminate|].
  change (String c name ++ String "." ext) with (String c (name ++ String "." ext)).
  cbn [data_id]. rewrite C. destruct name as [|c' name'].
  - cbn [append data_id]. change (Ascii.eqb "." "/") with false. cbv iota.
    rewrite (data_id_plain ext Hd Hs).
    assert (A : alt_dir ext || alt_ext ext = false).
    { destruct ext as [|b ext]; [reflexivity|]. cbn [contains_char] in Hd, Hs.
      cbn [alt_dir alt_ext]. destruct (Ascii.eqb b "."); [discriminate|].
      destruct (Ascii.eqb b "/"); [discriminate|]. reflexivity. }
    rewrite A. cbn [alt_dir alt_ext]. change (Ascii.eqb "." "/") with false.
    change (Ascii.eqb "." ".") with true. rewrite Hd.
    apply String.eqb_neq in He. now rewrite He.
  - rewrite IH; [reflexivity|discriminate|exact Hc].
Qed.

(** X12. How a path is filed among the data files.  A path
    "data/<id>/<rest>" is filed under <id>, and a path "data/<name>.<ext>"
    under <name>, which may itself hold dots, when <id> and <name> are not
    empty and hold no "/", <rest> is not empty and holds no line break, and
    <ext> is not empty and holds neither "." nor "/".  Whatever is filed
    is filed under the text after "data/", and under an identifier that is
    not empty, holds no "/", and is followed in that text by "/" or ".". *)
Theorem data_path_grouping :
  (forall id rest,
      id <> "" -> contains_char "/" id = false ->
      rest <> "" -> no_line_break rest = true ->
      data_entry ("data/" ++ id ++ String "/" rest) = Some (id ++ String "/" rest, id))
  /\ (forall name ext,
        name <> "" -> contains_char "/" name = false ->
        ext <> "" -> contains_char "." ext = false -> contains_char "/" ext = false ->
        data_entry ("data/" ++ name ++ String "." ext) = Some (name ++ String "." ext, name))
  /\ (forall path p id,
        data_entry path = Some (p, id) ->
        path = "data/" ++ p
        /\ id <> "" /\ contains_char "/" id = false
        /\ exists rest, p = id ++ rest
                        /\ (startsWith rest "/" = true \/ startsWith rest "." = true)).
Proof.
  split; [|split].
  - intros id rest H1 H2 H3 H4. unfold data_entry. rewrite startsWith_app.
    change (slice_from 5 ("data/" ++ id ++ String "/" rest)) with (id ++ String "/" rest).
    now rewrite data_id_folder.
  - intros name ext H1 H2 H3 H4 H5. unfold data_entry. rewrite startsWith_app.
    change (slice_from 5 ("data/" ++ name ++ String "." ext)) with (name ++ String "." ext).
    now rewrite data_id_file.
  - intros path p id. unfold data_entry.
    destruct (startsWith path "data/") eqn:S; [|discriminate].
    destruct (data_id (slice_from 5 path)) as [id'|] eqn:D; [|discriminate].
    intros [= <- <-]. split; [now apply startsWith_split_at in S|].
    destruct (data_id_sound _ D) as (H1 & H2 & rest & E & Halt).
    split; [exact H1|]. split; [exact H2|]. exists rest. split; [exact E|].
    destruct rest as [|a rest]; [destruct Halt; discriminate|].
    cbn [alt_dir alt_ext] in Halt.
    destruct Halt as [H|H]; apply andb_true_iff in H; destruct H as [H _];
      apply andb_true_iff in H; destruct H as [H _]; apply Ascii.eqb_eq in H; subst a;
      [left; apply (startsWith_app "/" rest)|right; apply (startsWith_app "." rest)].
Qed.

Lemma collect_turn_filed c f id p :
  filed id p (dataDirs (collect_turn c f))
  <-> filed id p (dataDirs c) \/ data_entry (in_path f) = Some (p, id).
Proof.
  unfold collect_turn. cbn [dataDirs].
  destruct (data_entry (in_path f)) as [[p0 id0]|].
  2:{ split; auto. intros [H|H]; [exact H|discriminate H]. }
  unfold filed, dirs_lookup. split.
  - intros (itemFiles & L & H). rewrite obj_get_set in L.
    destruct (String.eqb_spec id0 id) as [-> | Hne].
    + injection L as <-. rewrite obj_has_set in H.
      destruct (String.eqb_spec p0 p) as [Ep | Hp]; [subst p0; now right|].
      cbn [orb] in H. left.
      destruct (obj_get id (dataDirs c)) as [[items|]|]; try discriminate H.
      exists items. auto.
    + left. exists itemFiles. auto.
  - intros [(itemFiles & L & H)|E].
    + rewrite obj_get_set. destruct (String.eqb_spec id0 id) as [-> | Hne].
      * eexists. split; [reflexivity|]. rewrite obj_has_set.
        destruct (obj_get id (dataDirs c)) as [[items|]|]; try discriminate L.
        injection L as ->. rewrite H. apply orb_true_r.
      * exists itemFiles. auto.
    + injection E as -> ->. rewrite obj_get_set_eq. eexists. split; [reflexivity|].
      rewrite obj_has_set, String.eqb_refl. reflexivity.
Qed.

Lemma collect_loop_filed files id p : forall c,
  filed id p (dataDirs (fold_left collect_turn files c))
  <-> filed id p (dataDirs c)
      \/ exists f, In f files /\ data_entry (in_path f) = Some (p, id).
Proof.
  induction files as [|f files IH]; intros c; cbn [fold_left].
  - split; auto. intros [H|(f & [] & _)]. exact H.
  - rewrite IH, collect_turn_filed. split.
    + intros [[H|H]|(g & Hin & H)]; auto.
      * right. exists f. split; [now left|exact H].
      * right. exists g. split; [now right|exact H].
    + intros [H|(g & [<- | Hin] & H)]; auto.
      right. exists g. auto.
Qed.

(** X13. The grouping of the input files: a file is filed under an
    identifier exactly when some input file has the path that files it
    there.  Hence an item given with "data/<id>/index.html" has data files
    whose index is found as "<id>/index.html".  No file is taken to lie
    under an identifier that is a name an object inherits: for such a one
    [dataDirs[id]] is that member and the file is written into it. *)
Theorem data_files_collected (files : list InputFile) (id : string) :
  (forall f p id', In f files -> data_entry (in_path f) = Some (p, id') ->
                   inherited id' = false) ->
  (forall p, filed id p (dataDirs (collect_files files))
             <-> exists f, In f files /\ data_entry (in_path f) = Some (p, id))
  /\ ((exists f, In f files /\ in_path f = "data/" ++ id ++ "/index.html") ->
      id <> "" -> contains_char "/" id = false ->
      exists itemFiles,
        dirs_lookup id (dataDirs (collect_files files)) = Some itemFiles
        /\ getIndexPath itemFiles id = Some (id ++ "/index.html")).
Proof.
  intros _.
  assert (H : forall p, filed id p (dataDirs (collect_files files))
                        <-> exists f, In f files /\ data_entry (in_path f) = Some (p, id)).
  { intros p. unfold collect_files. rewrite collect_loop_filed. cbn [dataDirs]. split.
    - intros [(itemFiles & L & _)|H]; [discriminate L|exact H].
    - auto. }
  split; [exact H|]. intros (f & Hin & Hp) Hne Hc.
  destruct (proj2 (H (id ++ "/index.html"))) as (itemFiles & L & Hhas).
  - exists f. split; [exact Hin|]. rewrite Hp.
    unfold data_entry. rewrite startsWith_app.
    change (slice_from 5 ("data/" ++ id ++ "/index.html")) with (id ++ "/index.html").
    change (id ++ "/index.html") with (id ++ String "/" "index.html").
    now rewrite data_id_folder.
  - exists itemFiles. split; [exact L|]. unfold getIndexPath. now rewrite Hhas.
Qed.

Lemma data_files_collected_witness :
  let files := [mkInput "data/A/index.html" (mkFile "index.html" "text/html" "a");
                mkInput "tree/meta.js" (mkFile "meta.js" "application/javascript" "m");
                mkInput "data/B.htz" (mkFile "B.htz" "" "b")] in
  filed "A" "A/index.html" (dataDirs (collect_files files))
  /\ filed "B" "B.htz" (dataDirs (collect_files files))
  /\ ~ filed "A" "B.htz" (dataDirs (collect_files files)).
Proof.
  intros files.
  assert (Hplain : forall f p id', In f files -> data_entry (in_path f) = Some (p, id') ->
                                   inherited id' = false).
  { intros f p id' Hin E. cbn [files In] in Hin.
    destruct Hin as [<- |[<- |[<- |[]]]]; vm_compute in E;
      try discriminate E; injection E as _ <-; reflexivity. }
  split; [|split].
  - apply (proj1 (@data_files_collected files "A" Hplain)). eexists. split; [now left|reflexivity].
  - apply (proj1 (@data_files_collected files "B" Hplain)).
    eexists. split; [right; right; now left|reflexivity].
  - intros H. apply (proj1 (@data_files_collected files "A" Hplain)) in H.
    destruct H as (f & Hin & E). cbn [files In] in Hin.
    destruct Hin as [<- |[<- |[<- |[]]]]; vm_compute in E; discriminate E.
Defined.

(** ** Reading an archive *)

Lemma strip_ext_ext base ext :
  ext <> "" -> contains_char "." ext = false -> strip_ext (base ++ String "." ext) = base.
Proof.
  intros He Hd. apply String.eqb_neq in He.
  induction base as [|a base IH].
  - cbn [append strip_ext]. change (Ascii.eqb "." ".") with true. now rewrite He, Hd.
  - change (String a base ++ String "." ext) with (String a (base ++ String "." ext)).
    cbn [strip_ext]. rewrite IH.
    assert (C : contains_char "." (base ++ String "." ext) = true).
    { clear. induction base as [|b base IH]; cbn [append contains_char].
      - reflexivity.
      - rewrite IH. now destruct (Ascii.eqb b "."). }
    rewrite C. now rewrite andb_false_r.
Qed.

Lemma strip_ext_none name : contains_char "." name = false -> strip_ext name = name.
Proof.
  induction name as [|a name IH]; [reflexivity|]. cbn [contains_char strip_ext].
  destruct (Ascii.eqb a "."); [discriminate|]. intros H. cbn [andb]. now rewrite IH.
Qed.

Lemma after_dirs_split path rest :
  after_dirs path = Some rest ->
  exists dir, path = dir ++ String "/" rest
              /\ (no_line_break path = true -> contains_char "/" rest = false).
Proof.
  revert rest. induction path as [|a path IH]; intros rest; cbn [after_dirs]; [discriminate|].
  destruct (line_break_at (String a path)) eqn:L; [discriminate|].
  destruct (after_dirs path) as [r|] eqn:A.
  - intros [= <-]. destruct (IH r eq_refl) as (dir & -> & Hn).
    exists (String a dir). split; [reflexivity|].
    cbn [no_line_break]. intros H. apply andb_true_iff in H. now apply Hn.
  - destruct (Ascii.eqb_spec a "/") as [-> | Ha]; [|discriminate].
    intros [= <-]. exists "". split; [reflexivity|].
    cbn [no_line_break]. intros H. apply andb_true_iff in H. destruct H as [_ H].
    clear IH L. revert A H. induction path as [|b path IH]; [reflexivity|].
    cbn [after_dirs no_line_break contains_char].
    intros A H. apply andb_true_iff in H. destruct H as [Hb H].
    apply negb_true_iff in Hb. rewrite Hb in A.
    destruct (after_dirs path); [discriminate|].
    destruct (Ascii.eqb b "/"); [discriminate|]. now apply IH.
Qed.

Lemma after_dirs_none path :
  after_dirs path = None -> no_line_break path = true -> contains_char "/" path = false.
Proof.
  induction path as [|b path IH]; [reflexivity|].
  cbn [after_dirs no_line_break contains_char].
  intros A H. apply andb_true_iff in H. destruct H as [Hb H].
  apply negb_true_iff in Hb. rewrite Hb in A.
  destruct (after_dirs path); [discriminate|].
  destruct (Ascii.eqb b "/"); [discriminate|]. now apply IH.
Qed.

Lemma basename_split path :
  exists dir, path = dir ++ basename path
              /\ (no_line_break path = true -> contains_char "/" (basename path) = false).
Proof.
  unfold basename. destruct (after_dirs path) as [rest|] eqn:A.
  - destruct (after_dirs_split _ A) as (dir & -> & H).
    exists (dir ++ "/"). split; [|exact H].
    clear. induction dir; simpl; congruence.
  - exists "". split; [reflexivity|]. now apply after_dirs_none.
Qed.

Lemma startsWith_empty s : startsWith s "" = true.
Proof. now destruct s. Qed.

Lemma zip_cut_cases name (zipFiles : Zip) :
  let top := name ++ "/" in
  let only_top := obj_has top zipFiles = true
                  /\ forall path, obj_has path zipFiles = true ->
                                  startsWith path top = true in
  exists cut,
    String.length cut = zip_cut name zipFiles
    /\ ((cut = top /\ only_top) \/ (cut = "" /\ ~ only_top))
    /\ forall path, In path (obj_keys zipFiles) -> startsWith path cut = true.
Proof.
  intros top. cbv zeta. unfold zip_cut. fold top.
  destruct (obj_has top zipFiles) eqn:Ht; cbn [andb].
  - destruct (forallb (fun path => startsWith path top) (obj_keys zipFiles)) eqn:Fa.
    + exists top. split; [reflexivity|]. rewrite forallb_forall in Fa. split; [|exact Fa].
      left. split; [reflexivity|]. split; [reflexivity|].
      intros path Hp. apply Fa. apply obj_has_get in Hp. destruct Hp as [e Hp].
      eapply obj_get_in_keys; eauto.
    + exists "". split; [reflexivity|]. split; [|intros; apply startsWith_empty].
      right. split; [reflexivity|]. intros [_ H].
      assert (C : forallb (fun path => startsWith path top) (obj_keys zipFiles) = true).
      { apply forallb_forall. intros path Hp. apply H.
        apply obj_keys_get in Hp. apply obj_has_get. exact Hp. }
      congruence.
  - exists "". split; [reflexivity|]. split; [|intros; apply startsWith_empty].
    right. split; [reflexivity|]. intros [H _]. discriminate H.
Qed.

Section ZipFacts.
Context {platform : Platform}.

Lemma zip_files_paths (zipFiles : Zip) prefix keys :
  (forall path, In path keys -> startsWith path prefix = true) ->
  map (fun f => prefix ++ in_path f)
      (flat_map (fun inZipPath =>
                   match obj_get inZipPath zipFiles with
                   | Some zipEntryObj =>
                       if z_dir zipEntryObj then []
                       else [zip_input (String.length prefix) inZipPath zipEntryObj]
                   | None => []
                   end) keys)
  = filter (fun path => match obj_get path zipFiles with
                        | Some zipEntryObj => negb (z_dir zipEntryObj)
                        | None => false
                        end) keys.
Proof.
  induction keys as [|path keys IH]; intros H; cbn [flat_map filter map]; [reflexivity|].
  rewrite map_app, IH by (intros q Hq; apply H; now right).
  destruct (obj_get path zipFiles) as [e|]; [|reflexivity].
  destruct (z_dir e); [reflexivity|]. cbn [negb map app zip_input in_path].
  f_equal. symmetry. apply startsWith_split_at. apply H. now left.
Qed.

End ZipFacts.

(** X14. What [indexer.import] receives from an archive.  The collection
    is named after the archive without its last extension.  Its files are
    the entries of the archive that are not directories, in their order;
    their paths are those of the archive, all of them without the leading
    "<name>/" when the archive has an entry for that directory and nothing
    outside it, and all of them unchanged otherwise.  Each file is named by
    the end of its path in the archive, without any "/" when the path has
    no line break.  The archive is skipped exactly when none of these
    paths starts with "data/". *)
Theorem zip_intake {platform : Platform} (fileName : string) (zipFiles : Zip) :
  let name := strip_ext fileName in
  let top := name ++ "/" in
  let only_top := obj_has top zipFiles = true
                  /\ forall path, obj_has path zipFiles = true ->
                                  startsWith path top = true in
  let entries := filter (fun path => match obj_get path zipFiles with
                                     | Some zipEntryObj => negb (z_dir zipEntryObj)
                                     | None => false
                                     end) (obj_keys zipFiles) in
  (forall base ext, fileName = base ++ String "." ext -> ext <> "" ->
                    contains_char "." ext = false -> name = base)
  /\ (contains_char "." fileName = false -> name = fileName)
  /\ exists files cut,
       ((cut = top /\ only_top) \/ (cut = "" /\ ~ only_top))
       /\ map (fun f => cut ++ in_path f) files = entries
       /\ (forall f, In f files ->
             exists dir, cut ++ in_path f = dir ++ f_name (in_file f)
                         /\ (no_line_break (cut ++ in_path f) = true ->
                             contains_char "/" (f_name (in_file f)) = false))
       /\ loadZipFile fileName zipFiles
          = if existsb (fun f => startsWith (in_path f) "data/") files
            then Some (mkInputData name files) else None.
Proof.
  intros name top only_top entries.
  split; [intros base ext -> He Hd; now apply strip_ext_ext|].
  split; [apply strip_ext_none|].
  unfold loadZipFile. fold name.
  set (cutn := zip_cut name zipFiles).
  set (files := flat_map _ (obj_keys zipFiles)).
  pose proof (zip_cut_cases name zipFiles) as Hcut. fold top cutn in Hcut.
  destruct Hcut as (cut & Hlen & Hcases & Hall).
  exists files, cut. split; [exact Hcases|]. split; [|split; [|reflexivity]].
  - unfold files. rewrite <- Hlen. now apply zip_files_paths.
  - intros f Hin. unfold files in Hin. apply in_flat_map in Hin.
    destruct Hin as (path & Hp & Hin).
    destruct (obj_get path zipFiles) as [e|]; [|destruct Hin].
    destruct (z_dir e); [destruct Hin|]. destruct Hin as [<- | []].
    cbn [zip_input in_path in_file f_name]. rewrite <- Hlen.
    rewrite <- (startsWith_split_at _ _ (Hall path Hp)).
    apply basename_split.
Qed.

(** ** Reading a picked directory *)

Lemma guess_layout_flags path st verdict :
  dir_flags st verdict ->
  dir_flags (guess_layout path st)
            (match verdict with Some v => Some v | None => path_layout path end)
  /\ hasDataDir (guess_layout path st) = hasDataDir st
  /\ dir_files (guess_layout path st) = dir_files st.
Proof.
  unfold guess_layout, dir_flags. destruct verdict as [[base|]|].
  - intros (H1 & H2 & H3). rewrite H1, H2. cbn [negb andb]. auto.
  - intros (H1 & H2). rewrite H1, H2. cbn [negb andb]. auto.
  - intros (H1 & H2 & H3). rewrite H1, H2. cbn [negb andb]. unfold path_layout.
    destruct (second_segment_is "data" path); cbn [orb isRightDir isWrongDir];
      [auto|].
    destruct (second_segment_is "tree" path); cbn [orb isRightDir isWrongDir];
      [auto|].
    destruct (data_item_path path);
      cbn [orb isRightDir isWrongDir newCut newBase hasDataDir dir_files]; [auto 6|].
    destruct (startsWith path "data/");
      cbn [orb isRightDir isWrongDir newCut newBase hasDataDir dir_files]; [auto 6|].
    destruct (startsWith path "tree/");
      cbn [orb isRightDir isWrongDir newCut newBase hasDataDir dir_files]; [auto 6|].
    destruct (item_path path);
      cbn [orb isRightDir isWrongDir newCut newBase hasDataDir dir_files]; auto 6.
Qed.

Lemma first_layout_app done path :
  first_layout (done ++ [path])
  = match first_layout done with Some v => Some v | None => path_layout path end.
Proof.
  induction done as [|p done IH]; cbn [app first_layout].
  - now destruct (path_layout path).
  - now destruct (path_layout p).
Qed.

Lemma existsb_snoc (A : Type) (f : A -> bool) (l : list A) (x : A) :
  existsb f (l ++ [x]) = if f x then true else existsb f l.
Proof.
  rewrite existsb_app. cbn [existsb]. rewrite orb_false_r.
  destruct (f x); [apply orb_true_r|apply orb_false_r].
Qed.

Lemma existsb_map_eq (A B : Type) (f : B -> bool) (g : A -> B) (l : list A) :
  existsb f (map g l) = existsb (fun x => f (g x)) l.
Proof. induction l as [|x l IH]; cbn [map existsb]; [reflexivity|now rewrite IH]. Qed.

Lemma dir_loop_spec cut files : forall done st,
  dir_flags st (first_layout (map webkitRelativePath done)) ->
  dir_files st = map (fun f => (slice_from cut (webkitRelativePath f), f)) done ->
  hasDataDir st = existsb (fun f => startsWith (slice_from cut (webkitRelativePath f)) "data/")
                          done ->
  let r := fold_left (dir_turn cut) files st in
  dir_flags r (first_layout (map webkitRelativePath (done ++ files)))
  /\ dir_files r = map (fun f => (slice_from cut (webkitRelativePath f), f)) (done ++ files)
  /\ hasDataDir r
     = existsb (fun f => startsWith (slice_from cut (webkitRelativePath f)) "data/")
               (done ++ files).
Proof.
  induction files as [|file files IH]; intros done st Hf Hl Hd; cbn [fold_left].
  - rewrite app_nil_r. auto.
  - replace (done ++ file :: files)%list with ((done ++ [file]) ++ files)%list
      by (rewrite <- app_assoc; reflexivity).
    apply IH.
    + destruct (@guess_layout_flags (webkitRelativePath file) st _ Hf) as (G & _ & _).
      rewrite map_app. cbn [map]. rewrite first_layout_app.
      unfold dir_turn, dir_flags in *. cbn [isRightDir isWrongDir newCut newBase].
      exact G.
    + destruct (@guess_layout_flags (webkitRelativePath file) st _ Hf) as (_ & _ & G).
      unfold dir_turn. cbn [dir_files]. rewrite G, Hl, map_app. reflexivity.
    + destruct (@guess_layout_flags (webkitRelativePath file) st _ Hf) as (_ & G & _).
      unfold dir_turn. cbn [hasDataDir]. rewrite G, Hd, existsb_snoc. reflexivity.
Qed.

(** X15. What [indexer.import] receives from a picked directory.  The
    first path that shows where the picked directory lies decides for all
    the files: if it shows a directory inside a collection (a path
    starting with "data/" or "tree/", or with an item of seventeen digits),
    every file is given its whole relative path, after "data/" in the last
    case; otherwise every path loses the leading segment of the first
    file.  The collection is named by that segment, and the directory is
    skipped exactly when no path so obtained starts with "data/".  An empty
    list of files is a [TypeError]. *)
Theorem picked_directory_layout (first : PickedFile) (rest : list PickedFile) :
  let files := first :: rest in
  let p := webkitRelativePath first in
  let rels := map webkitRelativePath files in
  let cut := match index_of "/" p with Some i => S i | None => 0 end in
  let name := match index_of "/" p with
              | Some i => take i p
              | None => take (String.length p - 1) p
              end in
  let paths := match first_layout rels with
               | Some (Some base) => map (fun rel => base ++ rel) rels
               | _ => map (slice_from cut) rels
               end in
  loadInputDir files
  = Ok (if existsb (fun path => startsWith path "data/") paths
        then Some (mkInputData name
                               (map (fun pf => mkInput (fst pf) (picked (snd pf)))
                                    (combine paths files)))
        else None)
  /\ loadInputDir [] = Fail TypeError.
Proof.
  intros files p rels cut name paths. split; [|reflexivity].
  unfold loadInputDir, files. fold p. fold cut name. fold files.
  destruct (@dir_loop_spec cut files [] (mkDir false false cut "" false []))
    as (Hf & Hl & Hd); [repeat split|reflexivity|reflexivity|].
  cbn [app] in Hf, Hl, Hd. fold rels in Hf.
  set (st := fold_left (dir_turn cut) files (mkDir false false cut "" false [])) in *.
  unfold adjust_paths, paths. unfold dir_flags in Hf.
  assert (Hcomb : forall (g : string -> string),
             map (fun pf => mkInput (fst pf) (picked (snd pf)))
                 (combine (map g rels) files)
             = map (fun f => mkInput (g (webkitRelativePath f)) (picked f)) files).
  { intros g. unfold rels. clear. induction files as [|f files IH]; [reflexivity|].
    cbn [map combine fst snd]. now rewrite IH. }
  destruct (first_layout rels) as [[base|]|].
  - destruct Hf as (_ & -> & Hc & Hb). cbn [hasDataDir dir_files].
    rewrite Hl, Hc, Hb, !map_map. cbn [fst snd slice_from].
    rewrite (Hcomb (fun rel => base ++ rel)).
    unfold rels. rewrite !existsb_map_eq. cbn [fst snd].
    match goal with |- (if ?c then _ else _) = _ => now destruct c end.
  - destruct Hf as (_ & ->). rewrite Hd, Hl, map_map. cbn [fst snd].
    rewrite (Hcomb (slice_from cut)). unfold rels. rewrite !existsb_map_eq.
    match goal with |- (if ?c then _ else _) = _ => now destruct c end.
  - destruct Hf as (_ & -> & _). rewrite Hd, Hl, map_map. cbn [fst snd].
    rewrite (Hcomb (slice_from cut)). unfold rels. rewrite !existsb_map_eq.
    match goal with |- (if ?c then _ else _) = _ => now destruct c end.
Qed.

(** ** The numbered files of the previous tree *)

Lemma length_app_string a b : String.length (a ++ b) = String.length a + String.length b.
Proof. induction a as [|c a IH]; simpl; auto. Qed.

Lemma append_inj_r c : forall a b, a ++ c = b ++ c -> a = b.
Proof.
  induction a as [|x a IH]; intros [|y b] E; cbn [append] in E.
  - reflexivity.
  - apply (f_equal String.length) in E. cbn [String.length] in E.
    rewrite length_app_string in E. lia.
  - apply (f_equal String.length) in E. cbn [String.length] in E.
    rewrite length_app_string in E. lia.
  - injection E as -> E. f_equal. now apply IH.
Qed.

Lemma decimal_inj i j : decimal i = decimal j -> i = j.
Proof.
  unfold decimal. intros E.
  apply (f_equal NilEmpty.uint_of_string) in E. rewrite !NilEmpty.usu in E.
  injection E as E. apply Unsigned.to_uint_inj in E. lia.
Qed.

Lemma numbered_inj stem i j : numbered stem i = numbered stem j -> i = j.
Proof.
  unfold numbered. intros E. apply append_inj_l in E. apply append_inj_r in E.
  now apply decimal_inj.
Qed.

Lemma NoDup_map_inj (A B : Type) (f : A -> B) (l : list A) :
  (forall a b, f a = f b -> a = b) -> NoDup l -> NoDup (map f l).
Proof.
  intros Hf. induction 1 as [|x l Hx Hnd IH]; cbn [map]; constructor; auto.
  intros Hin. apply in_map_iff in Hin. destruct Hin as (y & E & Hy).
  apply Hf in E. now subst y.
Qed.

Lemma blank_loop stem (treeFiles : JsObj File) fuel : forall i keys (zip : Zip),
  (forall j, i <= j -> obj_has (numbered stem j) treeFiles = true ->
             In (numbered stem j) keys) ->
  List.length keys < fuel ->
  exists n,
    (forall j, i <= j < i + n -> obj_has (numbered stem j) treeFiles = true)
    /\ obj_has (numbered stem (i + n)) treeFiles = false
    /\ forall path,
         obj_get path (blank_numbered fuel stem i treeFiles zip)
         = if existsb (fun j => String.eqb (numbered stem j) path) (seq i n)
           then Some (mkZipEntry false (mkFile "" "application/javascript" ""))
           else obj_get path zip.
Proof.
  induction fuel as [|fuel IH]; intros i keys zip Hkeys Hlen; [lia|].
  cbn [blank_numbered]. destruct (obj_has (numbered stem i) treeFiles) eqn:Hhas.
  - destruct (IH (S i) (remove string_dec (numbered stem i) keys)
                 (zipAddFile zip (numbered stem i)
                             (mkFile "" "application/javascript" "")))
      as (n & Hall & Hgap & Hget).
    + intros j Hj Hh. apply in_in_remove.
      * intros Heq. apply numbered_inj in Heq. lia.
      * apply Hkeys; auto. lia.
    + assert (Hin : In (numbered stem i) keys) by (apply Hkeys; auto).
      pose proof (remove_length_lt string_dec keys (numbered stem i) Hin). lia.
    + exists (S n). split; [|split].
      * intros j Hj. destruct (Nat.eq_dec j i) as [-> | Hne]; auto. apply Hall. lia.
      * replace (i + S n) with (S i + n) by lia. exact Hgap.
      * intros path. rewrite Hget. cbn [seq existsb].
        destruct (existsb (fun j => String.eqb (numbered stem j) path) (seq (S i) n));
          [now rewrite orb_true_r|].
        rewrite orb_false_r. unfold zipAddFile. rewrite obj_get_set. reflexivity.
  - exists 0. split; [intros j Hj; lia|]. split.
    + now rewrite Nat.add_0_r.
    + reflexivity.
Qed.

(** X16. The loops that blank the numbered files "tree/meta1.js",
    "tree/meta2.js", ... (and the like for "tree/toc") end by meeting a
    number without previous file, whatever the previous tree: up to that
    number every numbered file is replaced by an empty one, and no other
    path of the archive is touched, in particular no numbered file beyond
    the gap. *)
Theorem numbered_files_blanked (stem : string) (treeFiles : JsObj File) (zip : Zip) :
  exists n,
    (forall i, 1 <= i <= n -> obj_has (numbered stem i) treeFiles = true)
    /\ obj_has (numbered stem (S n)) treeFiles = false
    /\ n <= List.length treeFiles
    /\ forall path,
         obj_get path (blank_numbered_files stem treeFiles zip)
         = if existsb (fun i => String.eqb (numbered stem i) path) (seq 1 n)
           then Some (mkZipEntry false (mkFile "" "application/javascript" ""))
           else obj_get path zip.
Proof.
  unfold blank_numbered_files.
  destruct (@blank_loop stem treeFiles (S (List.length treeFiles)) 1 (map fst treeFiles) zip)
    as (n & Hall & Hgap & Hget).
  - intros j _ Hh. now apply obj_has_in_fst.
  - rewrite length_map. lia.
  - exists n. split; [intros i Hi; apply Hall; lia|]. split; [exact Hgap|].
    split; [|exact Hget].
    assert (Hincl : incl (map (numbered stem) (seq 1 n)) (map fst treeFiles)).
    { intros p Hp. apply in_map_iff in Hp. destruct Hp as (i & <- & Hi).
      apply in_seq in Hi. apply obj_has_in_fst. apply Hall. lia. }
    assert (Hnd : NoDup (map (numbered stem) (seq 1 n))).
    { apply NoDup_map_inj; [intros a b; apply numbered_inj|apply seq_NoDup]. }
    pose proof (NoDup_incl_length Hnd Hincl) as L.
    rewrite !length_map, length_seq in L. exact L.
Qed.

(** ** Whether anything is left to download *)

Section NewFileFacts.
Context {host : Host}.
Variables (treeFiles : JsObj File) (snapshot : Zip).

Lemma hasNewFile_iff (zip : Zip) :
  hasNewFile zip = true
  <-> exists path zipObj, obj_get path zip = Some zipObj /\ z_dir zipObj = false.
Proof.
  unfold hasNewFile. rewrite existsb_exists. split.
  - intros (path & _ & H). destruct (obj_get path zip) as [e|] eqn:G; [|discriminate].
    exists path, e. split; [exact G|]. now apply negb_true_iff.
  - intros (path & e & G & D). exists path. split.
    + eapply obj_get_in_keys; eauto.
    + rewrite G, D. reflexivity.
Qed.

Lemma removes_tree path : removes treeFiles snapshot path = true -> startsWith path "tree/" = true.
Proof.
  unfold removes. destruct (diffable treeFiles snapshot path) as [[old e]|] eqn:D;
    [|discriminate].
  intros _. exact (@diffable_tree treeFiles snapshot path old e D).
Qed.

Lemma backs_file path old :
  backs treeFiles snapshot path = Some old ->
  removes treeFiles snapshot path = false
  /\ exists zipObj, obj_get path snapshot = Some zipObj /\ z_dir zipObj = false.
Proof.
  unfold backs, removes, diffable.
  destruct (obj_get path snapshot) as [e|]; [|discriminate].
  destruct (obj_get path treeFiles) as [o|]; [|discriminate].
  destruct (negb (z_dir e) && startsWith path "tree/" && negb (startsWith path "tree/cache/"))
    eqn:B; [|discriminate].
  destruct (same_hash o e); [discriminate|]. intros _. split; [reflexivity|].
  exists e. split; [reflexivity|].
  apply andb_true_iff in B. destruct B as [B _]. apply andb_true_iff in B.
  destruct B as [B _]. now apply negb_true_iff.
Qed.

(** Where an entry of the archive after the loop comes from. *)
Lemma diff_loop_origin paths q e : forall zip,
  obj_get q (fold_left (diff_turn treeFiles snapshot) paths zip) = Some e ->
  obj_get q zip = Some e
  \/ (z_dir e = false
      /\ exists p old, In p paths /\ backs treeFiles snapshot p = Some old).
Proof.
  induction paths as [|p paths IH]; intros zip; cbn [fold_left]; [now left|].
  intros H. destruct (IH _ H) as [G|(D & p' & old & Hin & B)].
  - rewrite diff_turn_cases in G.
    destruct (diffable treeFiles snapshot p) as [[old zipObj]|] eqn:Dp; [|now left].
    destruct (same_hash old zipObj) eqn:Sh.
    + rewrite obj_get_del in G. destruct (String.eqb p q); [discriminate|now left].
    + unfold zipAddFile in G. rewrite obj_get_set in G.
      destruct (String.eqb (bakPath_of p) q); [|now left].
      injection G as <-. right. split; [reflexivity|].
      exists p, old. split; [now left|]. unfold backs. now rewrite Dp, Sh.
  - right. split; [exact D|]. exists p', old. split; [now right|exact B].
Qed.

(** An entry outside "tree/" stays, or gives way to a backup. *)
Lemma diff_loop_outside paths q : forall zip e,
  startsWith q "tree/" = false ->
  obj_get q zip = Some e -> z_dir e = false ->
  exists e', obj_get q (fold_left (diff_turn treeFiles snapshot) paths zip) = Some e'
             /\ z_dir e' = false.
Proof.
  induction paths as [|p paths IH]; intros zip e Hq G D; cbn [fold_left]; [eauto|].
  rewrite diff_turn_cases.
  destruct (diffable treeFiles snapshot p) as [[old zipObj]|] eqn:Dp; [|eauto].
  destruct (same_hash old zipObj).
  - apply (IH _ e); auto. rewrite obj_get_del.
    destruct (String.eqb_spec p q) as [-> | Hne]; [|exact G].
    rewrite (@diffable_tree treeFiles snapshot q old zipObj Dp) in Hq. discriminate Hq.
  - unfold zipAddFile.
    destruct (String.eqb_spec (bakPath_of p) q) as [<- | Hne].
    + apply (IH _ (mkZipEntry false old)); auto. apply obj_get_set_eq.
    + apply (IH _ e); auto. now rewrite obj_get_set_neq.
Qed.

End NewFileFacts.

(** X17. After the comparison with the previous tree, the archive has
    something to download exactly when, before it, some file of the archive
    was not the same as its previous version: that is, was outside "tree/"
    or under "tree/cache/", or had no previous version, or one with another
    hash.  An archive in which every file repeats its previous version is
    left without file, and the run reports that nothing changed. *)
Theorem nothing_new_when_unchanged {host : Host} (treeFiles : JsObj File) (zip : Zip) :
  hasNewFile (diff_and_backup treeFiles zip) = true
  <-> exists path zipObj,
        obj_get path zip = Some zipObj /\ z_dir zipObj = false
        /\ ~ (startsWith path "tree/" = true
              /\ startsWith path "tree/cache/" = false
              /\ exists oldFile, obj_get path treeFiles = Some oldFile
                                 /\ sha1 (f_bytes oldFile) = sha1 (f_bytes (z_file zipObj))).
Proof.
  assert (Hrem : forall path zipObj,
             obj_get path zip = Some zipObj -> z_dir zipObj = false ->
             (removes treeFiles zip path = true
              <-> startsWith path "tree/" = true
                  /\ startsWith path "tree/cache/" = false
                  /\ exists oldFile, obj_get path treeFiles = Some oldFile
                                     /\ sha1 (f_bytes oldFile)
                                        = sha1 (f_bytes (z_file zipObj)))).
  { intros path zipObj G D. unfold removes, diffable. rewrite G, D. cbn [negb andb].
    destruct (obj_get path treeFiles) as [old|].
    - destruct (startsWith path "tree/"); cbn [andb].
      + destruct (startsWith path "tree/cache/"); cbn [negb].
        * split; [discriminate|]. intros (_ & C & _). discriminate C.
        * unfold same_hash. rewrite String.eqb_eq. split.
          -- intros E. split; [reflexivity|]. split; [reflexivity|]. now exists old.
          -- intros (_ & _ & o & [= <-] & E). exact E.
      + split; [discriminate|]. intros (C & _). discriminate C.
    - split; [discriminate|]. intros (_ & _ & o & C & _). discriminate C. }
  rewrite hasNewFile_iff. unfold diff_and_backup. split.
  - intros (q & e & G & D).
    destruct (@diff_loop_origin host treeFiles zip (obj_keys zip) q e zip G)
      as [G0|(_ & p & old & Hin & B)].
    + exists q, e. split; [exact G0|]. split; [exact D|].
      intros H. apply (Hrem q e G0 D) in H.
      pose proof (removes_tree _ _ _ H) as T.
      rewrite (@diff_loop_tree host treeFiles zip (obj_keys zip) q T zip) in G.
      rewrite H, andb_true_r in G.
      assert (K : existsb (String.eqb q) (obj_keys zip) = true).
      { rewrite existsb_keys. apply obj_has_get. eauto. }
      rewrite K in G. discriminate G.
    + destruct (backs_file _ _ _ B) as (R & zipObj & Gp & Dp).
      exists p, zipObj. split; [exact Gp|]. split; [exact Dp|].
      intros H. apply (Hrem p zipObj Gp Dp) in H. congruence.
  - intros (path & zipObj & G & D & Hn).
    assert (R : removes treeFiles zip path = false).
    { destruct (removes treeFiles zip path) eqn:R; [|reflexivity].
      destruct Hn. now apply (Hrem path zipObj G D). }
    destruct (startsWith path "tree/") eqn:T.
    + exists path, zipObj. split; [|exact D].
      rewrite (@diff_loop_tree host treeFiles zip (obj_keys zip) path T zip).
      now rewrite R, andb_false_r.
    + destruct (@diff_loop_outside host treeFiles zip (obj_keys zip) path zip zipObj T G D)
        as (e' & G' & D').
      exists path, e'. auto.
Qed.

(** ** Icons that cannot be fetched *)

(** X18. An icon with a ":" whose source cannot be resolved is removed:
    when the decoding of a data URI fails, or the request fails, or what
    comes back is neither an image nor "application/octet-stream", the item
    is left with the empty icon. *)
Theorem unfetched_icon_removed {host : Host} (treeFiles : JsObj File) (metas : Metas)
        (zip : Zip) (id url : string) (meta : Meta) :
  obj_get id metas = Some meta ->
  m_icon meta = Some url ->
  is_external (Some url) = true ->
  (if startsWith url "data:" then dataUriToFile url = None
   else forall n, match xhr n url with
                  | None => True
                  | Some r => startsWith (f_type (x_blob r)) "image/" = false
                              /\ f_type (x_blob r) <> "application/octet-stream"
                  end) ->
  exists meta',
    obj_get id (ic_meta (cache_favicons treeFiles metas zip)) = Some meta'
    /\ m_icon meta' = Some "".
Proof.
  intros G Hi He Hbad.
  assert (Hnone : forall n, fetch_icon n url = None).
  { intros n. unfold fetch_icon. destruct (startsWith url "data:"); [exact Hbad|].
    specialize (Hbad n). destruct (xhr n url) as [r|]; [|reflexivity].
    destruct Hbad as [H1 H2]. rewrite H1. apply String.eqb_neq in H2. rewrite H2.
    reflexivity. }
  destruct (@cache_favicons_spec host treeFiles metas zip) as [(_ & _ & Hsound) Hsettled].
  specialize (Hsettled id meta G). unfold icon_settled in Hsettled.
  rewrite Hi, He in Hsettled. cbn [or_empty] in Hsettled.
  destruct Hsettled as (outcome & Ha & Hm).
  destruct (Hsound _ _ Ha) as [n ->]. rewrite Hnone in Hm.
  eexists. split; [exact Hm|]. reflexivity.
Qed.

Lemma unfetched_icon_removed_witness :
  exists meta',
    obj_get "P" (ic_meta (@cache_favicons Fixture.pages_only [] Sample.icons [])) = Some meta'
    /\ m_icon meta' = Some "".
Proof.
  apply (@unfetched_icon_removed Fixture.pages_only [] Sample.icons [] "P" "http://x/a.png"
           Sample.icon_P).
  - reflexivity.
  - reflexivity.
  - reflexivity.
  - intros n. split; [reflexivity|discriminate].
Defined.

(** ** The icons of the tree pages *)

Section ResourceFacts.
Context {platform : Platform}.
Variable treeFiles : JsObj File.

Lemma include_loop_get (res : list (string * string)) path : forall zip,
  NoDup (map fst res) ->
  obj_get path (fold_left (include_turn treeFiles) res zip)
  = match obj_get path res with
    | Some name =>
        if obj_has path treeFiles then obj_get path zip
        else match resource_blob name with
             | Some blob => Some (mkZipEntry false blob)
             | None => obj_get path zip
             end
    | None => obj_get path zip
    end.
Proof.
  induction res as [|[p name] res IH]; intros zip Hnd; cbn [fold_left obj_get map fst].
  - reflexivity.
  - cbn [map fst] in Hnd. apply NoDup_cons_iff in Hnd. destruct Hnd as [Hp Hnd].
    rewrite (IH _ Hnd).
    destruct (String.eqb_spec p path) as [-> | Hne].
    + assert (N : obj_get path res = None).
      { destruct (obj_get path res) eqn:G; [|reflexivity].
        destruct Hp. apply obj_get_In in G. now apply (in_map fst) in G. }
      rewrite N. cbn [include_turn]. destruct (obj_has path treeFiles); [reflexivity|].
      destruct (resource_blob name); [|reflexivity].
      unfold zipAddFile. apply obj_get_set_eq.
    + assert (K : obj_get path (include_turn treeFiles zip (p, name)) = obj_get path zip).
      { cbn [include_turn]. destruct (obj_has p treeFiles); [reflexivity|].
        destruct (resource_blob name); [|reflexivity].
        unfold zipAddFile. now apply obj_get_set_neq. }
      rewrite K. reflexivity.
Qed.

End ResourceFacts.

(** X19. The step that includes the resource files writes nothing but the
    nine icons of the tree pages, each only when the previous tree has no
    file at its path and the resource could be fetched: an icon that is
    already there is never written over. *)
Theorem resources_never_overwrite {platform : Platform} (treeFiles : JsObj File) (zip : Zip)
        (path : string) :
  let out := include_resources treeFiles zip in
  (obj_has path treeFiles = true -> obj_get path out = obj_get path zip)
  /\ (obj_get path resToInclude = None -> obj_get path out = obj_get path zip)
  /\ (forall name, obj_get path resToInclude = Some name ->
                   obj_has path treeFiles = false ->
                   obj_get path out
                   = match resource_blob name with
                     | Some blob => Some (mkZipEntry false blob)
                     | None => obj_get path zip
                     end)
  /\ (obj_get path resToInclude <> None -> startsWith path "tree/icon/" = true).
Proof.
  intros out. unfold out, include_resources.
  rewrite include_loop_get.
  2:{ repeat (constructor; [cbn; intuition discriminate|]). constructor. }
  split; [|split; [|split]].
  - intros ->. now destruct (obj_get path resToInclude).
  - intros ->. reflexivity.
  - intros name -> ->. reflexivity.
  - intros H. destruct (obj_get path resToInclude) as [name|] eqn:G; [|now destruct H].
    apply obj_get_In in G. cbn in G.
    repeat (destruct G as [G|G]; [injection G as <- _; reflexivity|]). destruct G.
Qed.

(** ** The table of contents from several files *)




(** ** The entry of an item found among the data files *)

Lemma compare_refl_string s : String.compare s s = Eq.
Proof.
  pose proof (String.compare_antisym s s) as H.
  destruct (String.compare s s); cbn in H; [reflexivity|discriminate H|discriminate H].
Qed.

Section ItemHeadFacts.
Context {legacy : LegacyHost}.



End ItemHeadFacts.



(** ** The order of the items inserted at the root *)

Lemma ascii_compare_trans a b c :
  Ascii.compare a b <> Gt -> Ascii.compare b c <> Gt -> Ascii.compare a c <> Gt.
Proof.
  unfold Ascii.compare. intros H1 H2.
  exact (N.le_trans _ _ _ H1 H2).
Qed.

Lemma ascii_compare_eq a b : Ascii.compare a b = Eq -> a = b.
Proof. apply Ascii.compare_eq_iff. Qed.

Lemma string_compare_trans x : forall y z,
  String.compare x y <> Gt -> String.compare y z <> Gt -> String.compare x z <> Gt.
Proof.
  induction x as [|a x IH]; intros [|b y] [|c z]; cbn [String.compare]; try congruence.
  destruct (Ascii.compare a b) eqn:Cab; try congruence;
    destruct (Ascii.compare b c) eqn:Cbc; try congruence.
  - apply ascii_compare_eq in Cab. apply ascii_compare_eq in Cbc. subst.
    intros H1 H2. pose proof (IH _ _ H1 H2) as H.
    destruct (Ascii.compare c c) eqn:Ccc; try congruence.
    unfold Ascii.compare in Ccc. rewrite N.compare_refl in Ccc. discriminate Ccc.
  - apply ascii_compare_eq in Cab. subst. rewrite Cbc. congruence.
  - apply ascii_compare_eq in Cbc. subst. rewrite Cab. congruence.
  - intros _ _.
    assert (H : Ascii.compare a c <> Gt).
    { apply (ascii_compare_trans a b c); congruence. }
    destruct (Ascii.compare a c) eqn:Cac; try congruence.
    exfalso. apply ascii_compare_eq in Cac. subst c.
    unfold Ascii.compare in Cab, Cbc.
    exact (N.lt_irrefl _ (N.lt_trans _ _ _ Cab Cbc)).
Qed.

Lemma js_compare_trans x y z :
  js_compare x y <> Gt -> js_compare y z <> Gt -> js_compare x z <> Gt.
Proof. unfold js_compare. apply string_compare_trans. Qed.

Lemma js_compare_antisym x y : js_compare x y = CompOpp (js_compare y x).
Proof. unfold js_compare. apply String.compare_antisym. Qed.

Lemma js_compare_refl x : js_compare x x = Eq.
Proof. unfold js_compare. apply compare_refl_string. Qed.

Lemma js_compare_flip x y : js_compare x y = Gt -> js_compare y x <> Gt.
Proof. rewrite (js_compare_antisym y x). intros ->. discriminate. Qed.

Lemma sort_insert_in_order key x l :
  in_order key l -> in_order key (sort_insert key x l).
Proof.
  induction l as [|y l IH]; cbn [sort_insert in_order].
  - intros _. split; [constructor|exact I].
  - intros [Hy Hl]. destruct (js_compare (key x) (key y)) eqn:C.
    + cbn [in_order]. split; [|split; auto]. constructor; [congruence|].
      eapply Forall_impl; [|exact Hy]. intros z Hz.
      apply (@js_compare_trans _ (key y)); congruence.
    + cbn [in_order]. split; [|split; auto]. constructor; [congruence|].
      eapply Forall_impl; [|exact Hy]. intros z Hz.
      apply (@js_compare_trans _ (key y)); congruence.
    + cbn [in_order]. split; [|now apply IH].
      apply Forall_forall. intros z Hz. apply sort_insert_In in Hz.
      destruct Hz as [-> | Hz]; [now apply js_compare_flip|].
      rewrite Forall_forall in Hy. now apply Hy.
Qed.

Lemma sort_by_in_order key l : in_order key (sort_by key l).
Proof.
  induction l as [|x l IH]; cbn [sort_by fold_right]; [exact I|].
  now apply sort_insert_in_order.
Qed.

(** In a list in order, a smaller key comes first. *)
Lemma in_order_before key l a b :
  in_order key l -> In a l -> In b l ->
  js_compare (key a) (key b) = Lt ->
  exists l1 l2 l3, l = (l1 ++ a :: l2 ++ b :: l3)%list.
Proof.
  intros Ho Ha Hb Hlt.
  assert (Hab : a <> b).
  { intros ->. rewrite js_compare_refl in Hlt. discriminate Hlt. }
  induction l as [|x l IH]; [destruct Ha|]. cbn [in_order] in Ho. destruct Ho as [Hx Ho].
  destruct Ha as [-> | Ha].
  - destruct Hb as [Hb|Hb]; [congruence|].
    apply in_split in Hb. destruct Hb as (l2 & l3 & ->). now exists [], l2, l3.
  - destruct Hb as [-> | Hb].
    + exfalso. rewrite Forall_forall in Hx. apply (Hx a Ha).
      rewrite (js_compare_antisym (key b) (key a)), Hlt. reflexivity.
    + destruct (IH Ho Ha Hb) as (l1 & l2 & l3 & ->). now exists (x :: l1), l2, l3.
Qed.

Section OrderFacts.
Context {host : Host}.
Hypothesis dateToId_inj : forall t1 t2 : N, dateToId t1 = dateToId t2 -> t1 = t2.

Lemma toc_grows_trans a b c : toc_grows a b -> toc_grows b c -> toc_grows a c.
Proof.
  intros H1 H2 k refs G. destruct (H1 _ _ G) as [e1 G1]. destruct (H2 _ _ G1) as [e2 G2].
  exists (e1 ++ e2)%list. now rewrite app_assoc.
Qed.

(** A turn leaves the entries of the other items as they are. *)
Lemma resolve_segment_keeps parentId st folder folderId st' :
  seg_inv parentId st ->
  resolve_segment (Ok (parentId, st)) folder = Ok (folderId, st') ->
  forall k, obj_has k (ts_meta st) = true ->
            obj_get k (ts_meta st') = obj_get k (ts_meta st).
Proof.
  intros (_ & _ & Hp) E k Hk. apply obj_has_get in Hp. destruct Hp as [siblings Hp].
  destruct (@resolve_segment_cases host dateToId_inj parentId st folder siblings Hp)
    as [(f & _ & _ & _ & E1)|(_ & F & _ & Hfresh & E1)];
    rewrite E1 in E; injection E as _ <-; cbn [ts_meta]; [reflexivity|].
  apply obj_get_set_neq. intros ->. congruence.
Qed.

Lemma resolve_path_keeps segments : forall parentId st folderId st',
  seg_inv parentId st ->
  fold_left resolve_segment segments (Ok (parentId, st)) = Ok (folderId, st') ->
  forall k, obj_has k (ts_meta st) = true ->
            obj_get k (ts_meta st') = obj_get k (ts_meta st).
Proof.
  induction segments as [|folder segments IH]; intros parentId st folderId st' Hinv E k Hk;
    cbn [fold_left] in E.
  - now injection E as _ <-.
  - destruct (@resolve_segment_inv host dateToId_inj parentId st folder Hinv)
      as (f & st1 & E1 & Hinv1 & Hext1).
    rewrite E1 in E. rewrite (IH f st1 folderId st' Hinv1 E k).
    + exact (@resolve_segment_keeps parentId st folder f st1 Hinv E1 k Hk).
    + now apply Hext1.
Qed.

Lemma insertToToc_keeps id st st' :
  seg_inv "root" st ->
  insertToToc id st = Ok st' ->
  forall k, obj_has k (ts_meta st) = true ->
            obj_get k (ts_meta st') = obj_get k (ts_meta st).
Proof.
  intros Hinv E k Hk. unfold insertToToc in E.
  destruct (obj_get id (ts_meta st)) as [meta|]; [|discriminate].
  destruct (negb (truthy (m_folder meta))).
  - destruct (toc_push "root" id (ts_toc st)); [|discriminate].
    cbn [bind] in E. now injection E as <-.
  - destruct (fold_left resolve_segment (split_path (or_empty (m_folder meta)))
                        (Ok ("root", st))) as [[p st1]|] eqn:E1; [|discriminate].
    cbn [bind] in E. destruct (toc_push p id (ts_toc st1)); [|discriminate].
    cbn [bind] in E. injection E as <-. cbn [ts_meta].
    exact (@resolve_path_keeps _ "root" st p st1 Hinv E1 k Hk).
Qed.

Lemma insert_turn_keeps referred id st st' :
  seg_inv "root" st ->
  insert_turn referred (Ok st) id = Ok st' ->
  forall k, k <> id -> obj_has k (ts_meta st) = true ->
            obj_get k (ts_meta st') = obj_get k (ts_meta st).
Proof.
  intros Hinv E k Hne Hk. unfold insert_turn in E. cbn [bind] in E.
  destruct (negb (set_has id referred) && negb (is_reserved id)).
  - destruct (insertToToc id st) as [st1|] eqn:E1; [|discriminate].
    cbn [bind] in E. destruct (obj_get id (ts_meta st1)) as [meta|]; [|discriminate].
    cbn [bind ts_meta ts_toc ts_titles ts_tick] in E.
    destruct (obj_get id (ts_meta st1)) as [meta1|]; [|discriminate].
    injection E as <-. cbn [ts_meta]. rewrite obj_get_set_neq by congruence.
    exact (@insertToToc_keeps id st st1 Hinv E1 k Hk).
  - cbn [bind] in E. destruct (obj_get id (ts_meta st)) as [meta|]; [|discriminate].
    injection E as <-. cbn [ts_meta]. now rewrite obj_get_set_neq by congruence.
Qed.

(** An item without folder hint goes to the end of the root. *)
Lemma insert_turn_root referred id st st' meta roots :
  obj_get id (ts_meta st) = Some meta ->
  truthy (m_folder meta) = false ->
  set_has id referred = false -> is_reserved id = false ->
  obj_get "root" (ts_toc st) = Some roots ->
  insert_turn referred (Ok st) id = Ok st' ->
  obj_get "root" (ts_toc st') = Some (roots ++ [id])%list.
Proof.
  intros G F R1 R2 Hr E. unfold insert_turn in E. cbn [bind] in E.
  rewrite R1, R2 in E. cbn [negb andb] in E.
  unfold insertToToc, toc_push in E. rewrite G, F, Hr in E.
  cbn [negb bind ts_meta ts_toc ts_titles ts_tick] in E. rewrite G in E.
  cbn [bind ts_meta ts_toc ts_titles ts_tick] in E. rewrite G in E.
  injection E as <-. cbn [ts_toc]. apply obj_get_set_eq.
Qed.

Lemma awaiting_turn referred metas0 id pending st st' :
  ~ In id pending ->
  awaiting referred metas0 (id :: pending) st ->
  insert_turn referred (Ok st) id = Ok st' ->
  awaiting referred metas0 pending st' /\ toc_grows (ts_toc st) (ts_toc st').
Proof.
  intros Hni [Hinv Hp] E.
  assert (Hid : obj_has id (ts_meta st) = true) by (apply Hp; now left).
  destruct (@insert_turn_inv host dateToId_inj referred id st Hinv Hid)
    as (st1 & E1 & Hinv1 & Hext1 & _).
  rewrite E in E1. injection E1 as <-.
  destruct (@insert_turn_adds host dateToId_inj referred id st st' Hinv Hid E)
    as (folders & (Halike & _) & Hnew & _).
  split; [|apply Hext1]. split; [exact Hinv1|].
  intros x Hx. destruct (Hp x (or_intror Hx)) as (Hg & Hh & Hu).
  assert (Hne : x <> id) by (intros ->; contradiction).
  split; [|split].
  - rewrite <- Hg. exact (@insert_turn_keeps referred id st st' Hinv E x Hne Hh).
  - now apply Hext1.
  - intros R1 R2. eapply listed_alike_unlisted; [|exact (Hu R1 R2)].
    apply Halike. intros Hin. apply in_app_or in Hin. destruct Hin as [Hin|Hin].
    + destruct (Hnew x Hin) as [C _]. congruence.
    + destruct (negb (set_has id referred) && negb (is_reserved id)); [|destruct Hin].
      destruct Hin as [C|[]]. congruence.
Qed.

Lemma awaiting_loop referred metas0 ids : forall pending st st',
  NoDup (ids ++ pending) ->
  awaiting referred metas0 (ids ++ pending) st ->
  fold_left (insert_turn referred) ids (Ok st) = Ok st' ->
  awaiting referred metas0 pending st' /\ toc_grows (ts_toc st) (ts_toc st').
Proof.
  induction ids as [|id ids IH]; intros pending st st' Hnd Hw E; cbn [fold_left app] in *.
  - injection E as <-. split; [exact Hw|]. intros k refs G. exists []. now rewrite app_nil_r.
  - apply NoDup_cons_iff in Hnd. destruct Hnd as [Hni Hnd].
    destruct (insert_turn referred (Ok st) id) as [st1|e] eqn:E1.
    + destruct (@awaiting_turn referred metas0 id (ids ++ pending) st st1 Hni Hw E1)
        as [Hw1 Hg1].
      destruct (IH pending st1 st' Hnd Hw1 E) as [Hw' Hg'].
      split; [exact Hw'|]. eapply toc_grows_trans; eauto.
    + rewrite fold_insert_fail in E. discriminate E.
Qed.

Lemma fold_insert_split referred l1 l2 st st' :
  fold_left (insert_turn referred) (l1 ++ l2) (Ok st) = Ok st' ->
  exists st1, fold_left (insert_turn referred) l1 (Ok st) = Ok st1
              /\ fold_left (insert_turn referred) l2 (Ok st1) = Ok st'.
Proof.
  rewrite fold_left_app.
  destruct (fold_left (insert_turn referred) l1 (Ok st)) as [st1|e]; [eauto|].
  rewrite fold_insert_fail. discriminate.
Qed.

End OrderFacts.

(** X22. The items the table of contents does not list are inserted in
    the order of their sort keys.  The key of an item is one text: its
    [exported] field (nothing when it has none), a comma, and its
    identifier; the keys are compared as strings are, code unit by code
    unit.  Of two such items without folder hint, the one with the smaller
    key stands before the other among the children of the root.  The
    identifiers are taken to be none of the names an object inherits. *)
Theorem orphans_in_sort_order {host : Host}
        (dateToId_inj : forall t1 t2 : N, dateToId t1 = dateToId t2 -> t1 = t2)
        (dateToId_plain : forall t : N, inherited (dateToId t) = false)
        (metas : Metas) (toc : Toc) (tick : nat) (st' : TocState)
        (a b : string) (meta_a meta_b : Meta) :
  plain_keys metas ->
  (forall key refs,
      obj_get key toc = Some refs ->
      inherited key = false /\ forall c, In c refs -> inherited c = false) ->
  obj_has "root" toc = true ->
  let pr := prune_toc metas toc in
  insert_orphans (pr_referred pr) (mkTocSt (pr_toc pr) metas (pr_titles pr) tick) = Ok st' ->
  obj_get a metas = Some meta_a -> obj_get b metas = Some meta_b ->
  truthy (m_folder meta_a) = false -> truthy (m_folder meta_b) = false ->
  is_reserved a = false -> is_reserved b = false ->
  ~ listed a (pr_toc pr) -> ~ listed b (pr_toc pr) ->
  js_compare (or_empty (m_exported meta_a) ++ "," ++ a)
                 (or_empty (m_exported meta_b) ++ "," ++ b) = Lt ->
  exists before between after,
    obj_get "root" (ts_toc st') = Some (before ++ a :: between ++ b :: after)%list.
Proof.
  intros _ _ Hroot pr E Ga Gb Fa Fb Ra Rb La Lb Hlt.
  destruct (prune_toc_spec metas toc) as [_ Href]. fold pr in Href.
  assert (Hunref : forall x, ~ listed x (pr_toc pr) -> set_has x (pr_referred pr) = false).
  { intros x Hx. destruct (set_has x (pr_referred pr)) eqn:S; [|reflexivity].
    destruct Hx. apply set_has_In in S. apply Href in S. exact S. }
  unfold insert_orphans in E. cbn [ts_meta] in E.
  set (ids := sort_by (sort_token metas) (obj_keys metas)) in *.
  assert (Hsplit : exists l1 l2 l3, ids = (l1 ++ a :: l2 ++ b :: l3)%list).
  { apply (@in_order_before (sort_token metas)).
    - apply sort_by_in_order.
    - apply sort_by_In. eapply obj_get_in_keys; eauto.
    - apply sort_by_In. eapply obj_get_in_keys; eauto.
    - unfold sort_token. now rewrite Ga, Gb. }
  destruct Hsplit as (l1 & l2 & l3 & Hids).
  assert (Hnd : NoDup ids) by (apply sort_by_NoDup, obj_keys_NoDup).
  set (st0 := mkTocSt (pr_toc pr) metas (pr_titles pr) tick) in *.
  assert (Hw0 : awaiting (pr_referred pr) metas ids st0).
  { split; [now apply prune_seg_inv|]. intros x Hx. cbn [ts_meta ts_toc].
    split; [reflexivity|]. split.
    - apply sort_by_In in Hx. apply obj_keys_get in Hx. now apply obj_has_get.
    - intros S _. apply not_listed_unlisted. intros Hl.
      assert (C : set_has x (pr_referred pr) = true).
      { apply set_has_In. apply Href. exact Hl. }
      congruence. }
  rewrite Hids in E, Hnd, Hw0.
  destruct (@fold_insert_split host (pr_referred pr) l1 _ st0 st' E) as (st1 & E1 & E1').
  cbn [fold_left] in E1'.
  destruct (insert_turn (pr_referred pr) (Ok st1) a) as [st2|e] eqn:Ea;
    [|rewrite fold_insert_fail in E1'; discriminate E1'].
  destruct (@fold_insert_split host (pr_referred pr) l2 _ st2 st' E1') as (st3 & E3 & E3').
  cbn [fold_left] in E3'.
  destruct (insert_turn (pr_referred pr) (Ok st3) b) as [st4|e] eqn:Eb;
    [|rewrite fold_insert_fail in E3'; discriminate E3'].
  destruct (@awaiting_loop host dateToId_inj (pr_referred pr) metas l1
              (a :: l2 ++ b :: l3) st0 st1 Hnd Hw0 E1) as [Hw1 _].
  apply NoDup_app_remove_l in Hnd.
  pose proof Hnd as Hnd1. apply NoDup_cons_iff in Hnd1. destruct Hnd1 as [Hna Hnd2].
  destruct (@awaiting_turn host dateToId_inj (pr_referred pr) metas a (l2 ++ b :: l3)
              st1 st2 Hna Hw1 Ea) as [Hw2 _].
  destruct (@awaiting_loop host dateToId_inj (pr_referred pr) metas l2
              (b :: l3) st2 st3 Hnd2 Hw2 E3) as [Hw3 Hg3].
  apply NoDup_app_remove_l in Hnd2.
  pose proof Hnd2 as Hnd3. apply NoDup_cons_iff in Hnd3. destruct Hnd3 as [Hnb Hnd4].
  destruct (@awaiting_turn host dateToId_inj (pr_referred pr) metas b l3
              st3 st4 Hnb Hw3 Eb) as [Hw4 _].
  assert (Hnd5 : NoDup (l3 ++ [])) by now rewrite app_nil_r.
  assert (Hw4' : awaiting (pr_referred pr) metas (l3 ++ []) st4) by now rewrite app_nil_r.
  destruct (@awaiting_loop host dateToId_inj (pr_referred pr) metas l3 [] st4 st'
              Hnd5 Hw4' E3') as [_ Hg5].
  (* the root, turn by turn *)
  destruct Hw1 as [(_ & _ & Hr1) Hp1]. apply obj_has_get in Hr1. destruct Hr1 as [r1 Hr1].
  destruct (Hp1 a (or_introl eq_refl)) as (Hga & _ & _).
  rewrite Ga in Hga.
  pose proof (@insert_turn_root host (pr_referred pr) a st1 st2 meta_a r1 Hga Fa
                (Hunref a La) Ra Hr1 Ea) as Hr2.
  destruct (Hg3 _ _ Hr2) as [e2 Hr3].
  destruct Hw3 as [_ Hp3]. destruct (Hp3 b (or_introl eq_refl)) as (Hgb & _ & _).
  rewrite Gb in Hgb.
  pose proof (@insert_turn_root host (pr_referred pr) b st3 st4 meta_b _ Hgb Fb
                (Hunref b Lb) Rb Hr3 Eb) as Hr4.
  destruct (Hg5 _ _ Hr4) as [e3 Hr5].
  exists r1, e2, e3. rewrite Hr5. f_equal.
  rewrite <- !app_assoc. reflexivity.
Qed.

Lemma orphans_in_sort_order_witness :
  let host := Sample.host Unbound in
  let metas := [("B", Sample.page None (Some "B.html") (Some "b") None None);
                ("A", Sample.page None (Some "A.html") (Some "a") None None)] in
  exists st' before between after,
    insert_orphans (pr_referred (prune_toc metas init_toc))
                   (mkTocSt (pr_toc (prune_toc metas init_toc)) metas
                            (pr_titles (prune_toc metas init_toc)) 0) = Ok st'
    /\ obj_get "root" (ts_toc st') = Some (before ++ "A" :: between ++ "B" :: after)%list.
Proof.
  intros host metas.
  destruct (insert_orphans (pr_referred (prune_toc metas init_toc))
              (mkTocSt (pr_toc (prune_toc metas init_toc)) metas
                       (pr_titles (prune_toc metas init_toc)) 0)) as [st'|e] eqn:E;
    [|vm_compute in E; discriminate E].
  assert (Hunlisted : forall x, ~ listed x (pr_toc (prune_toc metas init_toc))).
  { intros x (k & refs & G & Hin). apply obj_get_In in G. vm_compute in G.
    destruct G as [G|[]]. injection G as _ <-. destruct Hin. }
  destruct (@orphans_in_sort_order host decimalId_inj decimalId_plain metas init_toc 0 st'
              "A" "B"
              (Sample.page None (Some "A.html") (Some "a") None None)
              (Sample.page None (Some "B.html") (Some "b") None None))
    as (before & between & after & H); try reflexivity; try apply Hunlisted.
  - intros k Hk. unfold obj_has in Hk. cbn [metas obj_get] in Hk.
    destruct (String.eqb_spec "B" k) as [Ek | _]; [now rewrite <- Ek|].
    destruct (String.eqb_spec "A" k) as [Ek | _]; [now rewrite <- Ek|discriminate Hk].
  - intros key refs G. apply obj_get_In in G. destruct G as [G|[]].
    injection G as <- <-. split; [reflexivity|intros c []].
  - exact E.
  - exists st', before, between, after. split; [reflexivity|exact H].
Defined.

(** ** Declared identifiers *)

Section DeclaredIdFacts.
Context {host : Host}.








End DeclaredIdFacts.



(** ** From an archive to the index of an item *)

Lemma collect_files_index (files : list InputFile) (id : string) :
  (exists f, In f files /\ in_path f = "data/" ++ id ++ "/index.html") ->
  id <> "" -> contains_char "/" id = false ->
  exists itemFiles,
    dirs_lookup id (dataDirs (collect_files files)) = Some itemFiles
    /\ getIndexPath itemFiles id = Some (id ++ "/index.html").
Proof.
  intros (f & Hin & Hp) Hne Hc.
  assert (H : filed id (id ++ "/index.html") (dataDirs (collect_files files))).
  { unfold collect_files. apply collect_loop_filed. right.
    exists f. split; [exact Hin|]. rewrite Hp.
    unfold data_entry. rewrite startsWith_app.
    change (slice_from 5 ("data/" ++ id ++ "/index.html")) with (id ++ "/index.html").
    change (id ++ "/index.html") with (id ++ String "/" "index.html").
    now rewrite data_id_folder. }
  destruct H as (itemFiles & L & Hhas).
  exists itemFiles. split; [exact L|]. unfold getIndexPath. now rewrite Hhas.
Qed.

(** X24. An archive packed together with its folder.  When the archive
    "<name>.<ext>" has an entry for the directory "<name>/", nothing
    outside it, and a file "<name>/data/<id>/index.html", it is imported
    under the name "<name>", and the grouping of its files gives the item
    [id] data files whose index is found as "<id>/index.html". *)
Theorem archive_item_index {platform : Platform}
        (fileName : string) (zipFiles : Zip) (id : string) (zipEntryObj : ZipEntry) :
  let name := strip_ext fileName in
  let top := name ++ "/" in
  obj_has top zipFiles = true ->
  (forall path, obj_has path zipFiles = true -> startsWith path top = true) ->
  obj_get (top ++ "data/" ++ id ++ "/index.html") zipFiles = Some zipEntryObj ->
  z_dir zipEntryObj = false ->
  id <> "" -> contains_char "/" id = false ->
  exists files itemFiles,
    loadZipFile fileName zipFiles = Some (mkInputData name files)
    /\ dirs_lookup id (dataDirs (collect_files files)) = Some itemFiles
    /\ getIndexPath itemFiles id = Some (id ++ "/index.html").
Proof.
  intros name top Htop Honly Hget Hfile Hne Hc.
  unfold loadZipFile. fold name.
  set (cutn := zip_cut name zipFiles).
  set (files := flat_map _ (obj_keys zipFiles)).
  pose proof (zip_cut_cases name zipFiles) as Hcut. fold top cutn in Hcut.
  destruct Hcut as (cut & Hlen & Hcases & Hall).
  destruct Hcases as [[-> _]|[_ Hno]]; [|exfalso; apply Hno; now split].
  assert (Hf : exists f, In f files /\ in_path f = "data/" ++ id ++ "/index.html").
  { assert (Hin : In (top ++ "data/" ++ id ++ "/index.html")
                     (map (fun f => top ++ in_path f) files)).
    { unfold files. rewrite <- Hlen. rewrite (@zip_files_paths platform zipFiles top _ Hall).
      apply filter_In. split.
      - eapply obj_get_in_keys; eauto.
      - rewrite Hget, Hfile. reflexivity. }
    apply in_map_iff in Hin. destruct Hin as (f & E & Hin).
    exists f. split; [exact Hin|]. exact (append_inj_l _ _ _ E). }
  exists files. destruct (collect_files_index files Hf Hne Hc) as (itemFiles & L & G).
  exists itemFiles. split; [|now split].
  assert (D : existsb (fun f => startsWith (in_path f) "data/") files = true).
  { apply existsb_exists. destruct Hf as (f & Hin & Hp). exists f. split; [exact Hin|].
    rewrite Hp. apply startsWith_app. }
  now rewrite D.
Qed.

Lemma archive_item_index_witness :
  exists files itemFiles,
    @loadZipFile Fixture.platform "wsb.zip"
      [("wsb/", mkZipEntry true (mkFile "" "" ""));
       ("wsb/data/A/index.html", mkZipEntry false (mkFile "" "" "<html></html>"))]
    = Some (mkInputData "wsb" files)
    /\ dirs_lookup "A" (dataDirs (collect_files files)) = Some itemFiles
    /\ getIndexPath itemFiles "A" = Some "A/index.html".
Proof.
  refine (@archive_item_index Fixture.platform "wsb.zip"
            [("wsb/", mkZipEntry true (mkFile "" "" ""));
             ("wsb/data/A/index.html", mkZipEntry false (mkFile "" "" "<html></html>"))]
            "A" (mkZipEntry false (mkFile "" "" "<html></html>")) _ _ _ _ _ _);
    try reflexivity; try discriminate.
  intros path H. unfold obj_has in H. cbn [obj_get] in H.
  destruct (String.eqb_spec "wsb/" path) as [E | _]; [now rewrite <- E|].
  destruct (String.eqb_spec "wsb/data/A/index.html" path) as [E | _]; [now rewrite <- E|].
  discriminate H.
Defined.
